(** * Clojure-Sublimed: nREPL client core, shallow embedding

    The Python sources [cs_main.py] (connection, eval registry, handshake,
    message routing, socket reader) and [cs_conn_nrepl_jvm.py] (the
    [ConnectionNreplJvm] handshake and exception handler) are embedded as
    Rocq functions over an explicit program state.  Python exceptions are
    an explicit outcome; everything the code writes to the socket and every
    mutation of the eval registry is recorded, in program order, in a trace.

    What lies outside the sources is kept outside the model:
    - calls into the editor (regions, phantoms, status bar) return normally
      and only their answers that steer the control flow are parameters;
      [Eval.update] stores status and value and then redraws, and the
      redraw is taken to return, as it does for the strings nREPL sends:
      what is proved about the result a handler returns after [update] is
      stated for string values, what is proved about the state it leaves
      for every value;
    - [bencode.encode] and [socket.sendall] succeed on a socket that is
      held; [encode] is specified for wire values, and [encodable] marks
      the requests that have no [None] entry;
    - an entry point (one decoded response, one command) runs to its end
      before the next one starts: the interleaving of the reader thread
      with the editor's thread is not modelled. *)

From stdpp Require Import gmap strings list pretty.
From Stdlib Require Import ZArith Lia Sorted.
From Stdlib.Strings Require Import Byte.

Open Scope string_scope.
Open Scope Z_scope.

Set Warnings "-register-all".

(** ** Wire values and the Python operations used on them *)

(** A decoded bencode value: byte-string, integer, list or mapping.  Nested
    mappings keep their insertion order, as Python dicts do. *)
Inductive wire : Type :=
| WStr (s : string)
| WInt (z : Z)
| WList (l : list wire)
| WDict (d : list (string * wire)).

(** A decoded response: a Python dict from string keys to wire values. *)
Abbreviation msg := (gmap string wire).

(** A request handed to [Connection.send]: a Python dict whose values may
    also be [None] (for instance [eval.session] before it is assigned). *)
Abbreviation request := (gmap string (option wire)).

(** Python truthiness, [bool(v)]. *)
Definition truthy (v : wire) : bool :=
  match v with
  | WStr s => negb (String.eqb s "")
  | WInt z => negb (z =? 0)
  | WList l => match l with [] => false | _ => true end
  | WDict d => match d with [] => false | _ => true end
  end.

(** Truthiness of a value that may be [None]. *)
Definition truthy_opt (o : option wire) : bool :=
  match o with Some v => truthy v | None => false end.

(** [needle in hay] on Python strings: substring test. *)
Fixpoint str_contains (needle hay : string) : bool :=
  String.prefix needle hay ||
  match hay with
  | EmptyString => false
  | String _ rest => str_contains needle rest
  end.

Definition is_str (x : string) (v : wire) : bool :=
  match v with WStr s => String.eqb s x | _ => false end.

(** [x in c] for a string literal [x]; [None] stands for the [TypeError]
    Python raises when [c] is an integer. *)
Definition str_in (x : string) (c : wire) : option bool :=
  match c with
  | WStr s => Some (str_contains x s)
  | WList l => Some (existsb (is_str x) l)
  | WDict d => Some (existsb (fun kv => String.eqb (fst kv) x) d)
  | WInt _ => None
  end.

(** [v == ["done"]]. *)
Definition eq_done_list (o : option wire) : bool :=
  match o with
  | Some (WList [WStr s]) => String.eqb s "done"
  | _ => false
  end.

(** [n == v] for an integer literal [n] and [v = msg.get("id")]. *)
Definition eq_int (n : Z) (o : option wire) : bool :=
  match o with Some (WInt z) => z =? n | _ => false end.

(** ** [SocketIO]: the pull-based byte source over a socket *)

Module SocketIO.

(** The socket as the reader sees it: the chunks that the successive
    [recv(4096)] calls will return.  When none is left the peer has closed
    the stream and [recv] returns the empty byte string. *)
Record t := mk {
  socket : list (list byte);
  buffer : option (list byte);
  pos    : Z
}.

(** [SocketIO.__init__]. *)
Definition init (sock : list (list byte)) : t :=
  {| socket := sock; buffer := None; pos := -1 |}.

(** [socket.recv(4096)]. *)
Definition recv (sock : list (list byte)) : list byte * list (list byte) :=
  match sock with
  | [] => ([], [])
  | c :: rest => (c, rest)
  end.

(** Python's [b[begin:end]], negative indices counted from the end. *)
Definition py_slice (b : list byte) (begin end_ : Z) : list byte :=
  let len := Z.of_nat (length b) in
  let norm i := if i <? 0 then Z.max 0 (i + len) else Z.min i len in
  let lo := norm begin in
  let hi := norm end_ in
  take (Z.to_nat (hi - lo)) (drop (Z.to_nat lo) b).

Definition buffer_exhausted (io : t) : bool :=
  match buffer io with
  | None => true
  | Some b => match b with [] => true | _ => false end
              || (Z.of_nat (length b) <=? pos io)
  end.

(** [SocketIO.read]. *)
Definition read (n : Z) (io : t) : list byte * t :=
  let io1 :=
    if buffer_exhausted io then
      let '(chunk, rest) := recv (socket io) in
      {| socket := rest; buffer := Some chunk; pos := 0 |}
    else io in
  let b := default [] (buffer io1) in
  let begin := pos io1 in
  let end_ := Z.min (begin + n) (Z.of_nat (length b)) in
  (py_slice b begin end_,
   {| socket := socket io1; buffer := buffer io1; pos := end_ |}).

(** A run of [read] calls with the given sizes, results in call order. *)
Fixpoint reads (ns : list Z) (io : t) : list (list byte) * t :=
  match ns with
  | [] => ([], io)
  | n :: ns' =>
      let '(r, io1) := read n io in
      let '(rs, io2) := reads ns' io1 in
      (r :: rs, io2)
  end.

(** The bytes of the stream not yet returned by any [read]: the unread
    tail of the buffer followed by everything still in the socket. *)
Definition undelivered (io : t) : list byte :=
  match buffer io with
  | None => []
  | Some b => drop (Z.to_nat (pos io)) b
  end ++ concat (socket io).

(** What the operating system guarantees about a blocking [recv(4096)]:
    a chunk is never empty before end-of-stream and never longer than
    4096 bytes. *)
Definition socket_ok (sock : list (list byte)) : Prop :=
  Forall (fun c => c <> [] /\ (length c <= 4096)%nat) sock.

(** Invariant of the reader: the cursor stays inside the buffer. *)
Definition inv (io : t) : Prop :=
  socket_ok (socket io) /\
  match buffer io with
  | None => True
  | Some b => 0 <= pos io <= Z.of_nat (length b)
  end.

End SocketIO.

(** ** Program state *)

(** [Eval.status]: the source documents it as one of five string constants. *)
Inductive EvalStatus := Pending | Interrupt | Success | Exception | Lookup.

(** An [Eval] object; [is_status_eval] tells the subclass [StatusEval]
    apart.  [view] is the id of the Sublime view, [None] for a [StatusEval]. *)
Record Eval := mkEval {
  id             : Z;
  is_status_eval : bool;
  view           : option Z;
  status         : EvalStatus;
  code           : string;
  session        : option wire;
  emsg           : option request;
  trace          : option wire;
  phantom_id     : option Z;
  value          : option wire
}.

Inductive Profile := CLOJURE | SHADOW_CLJS.

(** The Python exceptions the modelled code can raise by itself. *)
Inductive exn := KeyError | TypeError | AttributeError | IndexError.

(** What the program does that another party can observe, in order: a
    request written to the socket, and the mutations of [conn.evals]. *)
Inductive Event :=
| EvSend (m : request)
| EvRegister (i : Z)
| EvUnregister (i : Z)
| EvClear.

(** The editor, the settings and the package resources: collaborators that
    are not part of the sources.  The fields are the answers they give. *)
Record External := mkExternal {
  (** [common.setting("eval_shared")] *)
  eval_shared      : option wire;
  (** [sublime.load_resource("Packages/.../cs_middleware.clj")] *)
  middleware_clj   : string;
  (** [ProgressThread.phases] and [phase_idx] *)
  phases           : list string;
  phase_idx        : nat;
  (** [str(v)] of a list or a mapping *)
  repr_container   : wire -> string;
  (** rendering a lookup popup ([format_lookup] and [view.add_phantom]):
      the phantom id, or the exception raised on the way *)
  lookup_popup     : Eval -> wire -> exn + Z
}.

(** The [Connection] singleton [conn] together with the class attribute
    [Eval.next_id] and the trace.  [socket] is [true] while a socket object
    is held. *)
Record State := mkState {
  host            : option string;
  port            : option wire;
  cstatus         : option string;
  evals           : list (Z * Eval);
  evals_by_view   : gmap Z (list (Z * Eval));
  csession        : option wire;
  eval_in_session : bool;
  profile         : option Profile;
  cljs_build      : option string;
  socket          : bool;
  next_id         : Z;
  events          : list Event;
  ext             : External
}.

(** Functional record updates. *)
Definition set_evals (f : list (Z * Eval) -> list (Z * Eval)) (s : State) : State :=
  mkState (host s) (port s) (cstatus s) (f (evals s)) (evals_by_view s) (csession s)
          (eval_in_session s) (profile s) (cljs_build s) (socket s) (next_id s)
          (events s) (ext s).
Definition set_by_view (f : gmap Z (list (Z * Eval)) -> gmap Z (list (Z * Eval))) (s : State) : State :=
  mkState (host s) (port s) (cstatus s) (evals s) (f (evals_by_view s)) (csession s)
          (eval_in_session s) (profile s) (cljs_build s) (socket s) (next_id s)
          (events s) (ext s).
Definition set_cstatus (v : option string) (s : State) : State :=
  mkState (host s) (port s) v (evals s) (evals_by_view s) (csession s)
          (eval_in_session s) (profile s) (cljs_build s) (socket s) (next_id s)
          (events s) (ext s).
Definition set_csession (v : option wire) (s : State) : State :=
  mkState (host s) (port s) (cstatus s) (evals s) (evals_by_view s) v
          (eval_in_session s) (profile s) (cljs_build s) (socket s) (next_id s)
          (events s) (ext s).
Definition set_socket (v : bool) (s : State) : State :=
  mkState (host s) (port s) (cstatus s) (evals s) (evals_by_view s) (csession s)
          (eval_in_session s) (profile s) (cljs_build s) v (next_id s)
          (events s) (ext s).
Definition set_next_id (v : Z) (s : State) : State :=
  mkState (host s) (port s) (cstatus s) (evals s) (evals_by_view s) (csession s)
          (eval_in_session s) (profile s) (cljs_build s) (socket s) v
          (events s) (ext s).
Definition log (e : Event) (s : State) : State :=
  mkState (host s) (port s) (cstatus s) (evals s) (evals_by_view s) (csession s)
          (eval_in_session s) (profile s) (cljs_build s) (socket s) (next_id s)
          (events s ++ [e]) (ext s).
Definition set_target (h : option string) (p : option wire) (pr : Profile)
    (b : option string) (s : State) : State :=
  mkState h p (cstatus s) (evals s) (evals_by_view s) (csession s)
          (eval_in_session s) (Some pr) b (socket s) (next_id s)
          (events s) (ext s).

(** ** Insertion-ordered dictionaries keyed by integers ([conn.evals]) *)

Section odict.
Context {V : Type}.

Fixpoint od_get (k : Z) (d : list (Z * V)) : option V :=
  match d with
  | [] => None
  | (k', v) :: d' => if k' =? k then Some v else od_get k d'
  end.

(** [d[k] = v]: an existing key keeps its place, a new one goes last. *)
Fixpoint od_set (k : Z) (v : V) (d : list (Z * V)) : list (Z * V) :=
  match d with
  | [] => [(k, v)]
  | (k', v') :: d' => if k' =? k then (k, v) :: d' else (k', v') :: od_set k v d'
  end.

(** [del d[k]] on a key that is present. *)
Definition od_del (k : Z) (d : list (Z * V)) : list (Z * V) :=
  List.filter (fun kv => negb (fst kv =? k)) d.
End odict.

(** ** Outcomes: normal return or a raised exception *)

Inductive outcome (A : Type) :=
| Ok (a : A) (s : State)
| Raise (e : exn) (s : State).
Arguments Ok {A} a s.
Arguments Raise {A} e s.

Definition M (A : Type) := State -> outcome A.

Definition ret {A} (a : A) : M A := fun s => Ok a s.
Definition bind {A B} (m : M A) (k : A -> M B) : M B :=
  fun s => match m s with
           | Ok a s' => k a s'
           | Raise e s' => Raise e s'
           end.
Definition raise {A} (e : exn) : M A := fun s => Raise e s.
Definition get_state : M State := fun s => Ok s s.
Definition modify (f : State -> State) : M unit := fun s => Ok tt (f s).

Notation "x <- m ;; k" := (bind m (fun x => k))
  (at level 100, m at next level, right associativity).
Notation "m ;;; k" := (bind m (fun _ => k))
  (at level 100, right associativity).

(** The state an outcome ends in, whether it returned or raised. *)
Definition final {A} (o : outcome A) : State :=
  match o with Ok _ s => s | Raise _ s => s end.

(** Run an action on each element of a list, in order. *)
Fixpoint for_each {A} (l : list A) (body : A -> M unit) : M unit :=
  match l with
  | [] => ret tt
  | x :: l' => body x ;;; for_each l' body
  end.

(** The requests among a list of events. *)
Fixpoint sent_of (l : list Event) : list request :=
  match l with
  | [] => []
  | EvSend m :: l' => m :: sent_of l'
  | _ :: l' => sent_of l'
  end.
Definition sent (s : State) : list request := sent_of (events s).

(** ** Python values to text *)

(** [str(v)]. *)
Definition py_str (x : External) (v : wire) : string :=
  match v with
  | WStr s => s
  | WInt z => pretty z
  | _ => repr_container x v
  end.

(** [str(v)] where [v] may be [None]. *)
Definition py_str_opt (x : External) (o : option wire) : string :=
  match o with Some v => py_str x v | None => "None" end.

(** [a + b] where [a] is known to be a string: defined for a string [b]. *)
Definition str_add (a : string) (b : wire) : option string :=
  match b with WStr s => Some (a +:+ s) | _ => None end.

(** ** [Eval] objects *)

Definition with_status_value (st : EvalStatus) (v : option wire) (e : Eval) : Eval :=
  mkEval (id e) (is_status_eval e) (view e) st (code e) (session e) (emsg e)
         (trace e) (phantom_id e) v.
Definition with_session (v : option wire) (e : Eval) : Eval :=
  mkEval (id e) (is_status_eval e) (view e) (status e) (code e) v (emsg e)
         (trace e) (phantom_id e) (value e).
Definition with_msg (v : option request) (e : Eval) : Eval :=
  mkEval (id e) (is_status_eval e) (view e) (status e) (code e) (session e) v
         (trace e) (phantom_id e) (value e).
Definition with_trace (v : option wire) (e : Eval) : Eval :=
  mkEval (id e) (is_status_eval e) (view e) (status e) (code e) (session e) (emsg e)
         v (phantom_id e) (value e).
Definition with_phantom (v : option Z) (e : Eval) : Eval :=
  mkEval (id e) (is_status_eval e) (view e) (status e) (code e) (session e) (emsg e)
         (trace e) v (value e).

Fixpoint od_alter {V} (f : V -> V) (k : Z) (d : list (Z * V)) : list (Z * V) :=
  match d with
  | [] => []
  | (k', v) :: d' => if k' =? k then (k', f v) :: d' else (k', v) :: od_alter f k d'
  end.

(** A field assignment on the [Eval] object with id [i].  The object is
    shared by [conn.evals] and by the dictionary of its view, so the
    assignment shows in both; [add_eval] stores every record under its
    own id. *)
Definition mutate_eval (i : Z) (f : Eval -> Eval) : M unit :=
  modify (fun s => set_by_view (fmap (od_alter f i)) (set_evals (od_alter f i) s)).

(** [Eval.__init__] and [StatusEval.__init__]: take [Eval.next_id], bump it,
    start as pending.  The calls into the view ([substr], [add_regions]) are
    the editor's business. *)
Definition new_Eval (v : Z) (src : string) : M Eval :=
  s <- get_state ;;
  modify (set_next_id (next_id s + 1)) ;;;
  ret (mkEval (next_id s) false (Some v) Pending src None None None None None).

Definition new_StatusEval (src : string) : M Eval :=
  s <- get_state ;;
  modify (set_next_id (next_id s + 1)) ;;;
  ret (mkEval (next_id s) true None Pending src None None None None None).

(** ** [Connection] *)

(** [Connection.set_status]; [refresh_status] only redraws. *)
Definition set_status (st : option string) : M unit := modify (set_cstatus st).

(** [Connection.send]: [self.socket.sendall(bencode.encode(msg).encode())].
    With no socket the attribute access raises. *)
Definition send (m : request) : M unit :=
  s <- get_state ;;
  if socket s then modify (log (EvSend m)) else raise AttributeError.

(** [Connection.reset]. *)
Definition reset : M unit :=
  modify (set_socket false) ;;;
  modify (set_csession None) ;;;
  set_status None ;;;
  modify (fun s => log EvClear (set_evals (fun _ => []) s)) ;;;
  modify (set_by_view (fun _ => ∅)).

(** [self.evals_by_view[vid]] on the [defaultdict]: a missing entry is
    created empty. *)
Definition by_view_getitem (vid : Z) : M (list (Z * Eval)) :=
  s <- get_state ;;
  match evals_by_view s !! vid with
  | Some d => ret d
  | None => modify (set_by_view (insert vid [])) ;;; ret []
  end.

(** [Connection.add_eval]. *)
Definition add_eval (e : Eval) : M unit :=
  modify (fun s => log (EvRegister (id e)) (set_evals (od_set (id e) e) s)) ;;;
  match view e with
  | Some vid =>
      d <- by_view_getitem vid ;;
      modify (set_by_view (insert vid (od_set (id e) e d)))
  | None => ret tt
  end.

Definition interrupt_request (e : Eval) : request :=
  {[ "op" := Some (WStr "interrupt");
     "interrupt-id" := Some (WInt (id e));
     "session" := session e ]}.

(** [Connection.erase_eval]. *)
Definition erase_eval (e : Eval) : M unit :=
  s <- get_state ;;
  match od_get (id e) (evals s) with
  | None => raise KeyError
  | Some _ =>
      modify (fun s => log (EvUnregister (id e)) (set_evals (od_del (id e)) s)) ;;;
      match view e with
      | Some vid =>
          d <- by_view_getitem vid ;;
          match od_get (id e) d with
          | None => raise KeyError
          | Some _ => modify (set_by_view (insert vid (od_del (id e) d)))
          end
      | None => ret tt
      end ;;;
      match status e with
      | Pending =>
          if truthy_opt (session e) then send (interrupt_request e) else ret tt
      | _ => ret tt
      end
  end.

(** [Connection.erase_evals]: the items are listed first, then each one the
    predicate accepts is erased. *)
Definition erase_evals (predicate : Eval -> bool) (v : option Z) : M unit :=
  items <- match v with
           | None => s <- get_state ;; ret (evals s)
           | Some vid => by_view_getitem vid
           end ;;
  for_each items (fun kv => if predicate (snd kv) then erase_eval (snd kv) else ret tt).

(** [Connection.disconnect]. *)
Definition disconnect : M unit :=
  s <- get_state ;;
  if socket s then reset else ret tt.

(** [Connection.ready]. *)
Definition ready (s : State) : bool := socket s && truthy_opt (csession s).

(** ** Message handlers of [cs_main.py] *)

(** The package namespace [ns]. *)
Definition ns : string := "clojure-sublimed".

(** [get] and [present] of [handle_exception]: middleware-qualified keys. *)
Definition mw_key (key : string) : string := ns +:+ ".middleware/" +:+ key.
Definition mw_get (m : msg) (key : string) : option wire := m !! mw_key key.
Definition mw_present (m : msg) (key : string) : bool := bool_decide (is_Some (m !! mw_key key)).

(** ["id" in msg and msg["id"] in conn.evals], giving the record found.  A
    list or a mapping as id is unhashable. *)
Definition lookup_registered (m : msg) : M (option Eval) :=
  match m !! "id" with
  | None => ret None
  | Some (WInt z) => s <- get_state ;; ret (od_get z (evals s))
  | Some (WStr _) => ret None
  | Some _ => raise TypeError
  end.

(** [handle_new_session]. *)
Definition handle_new_session (m : msg) : M bool :=
  match m !! "new-session" with
  | None => ret false
  | Some tok =>
      r <- lookup_registered m ;;
      match r with
      | None => ret false
      | Some e => mutate_eval (id e) (with_session (Some tok)) ;;; ret true
      end
  end.

(** [handle_value]. *)
Definition handle_value (m : msg) : M bool :=
  match m !! "value" with
  | None => ret false
  | Some v =>
      r <- lookup_registered m ;;
      match r with
      | None => ret false
      | Some e => mutate_eval (id e) (with_status_value Success (Some v)) ;;; ret true
      end
  end.

(** The summary text of the structured branch, up to the optional data:
    [class + ": " + msg] and [text += " " + data]. *)
Definition structured_head (m : msg) : option string :=
  match mw_get m "root-ex-class", mw_get m "root-ex-msg" with
  | Some (WStr c), Some (WStr t) =>
      let text := c +:+ ": " +:+ t in
      if truthy_opt (mw_get m "root-ex-data") then
        match mw_get m "root-ex-data" with
        | Some d => str_add (text +:+ " ") d
        | None => None
        end
      else Some text
  | _, _ => None
  end.

(** [" ({}:{}:{})".format(source, line, column)]. *)
Definition location_suffix (x : External) (m : msg) : string :=
  " (" +:+ py_str_opt x (mw_get m "source") +:+ ":" +:+ py_str_opt x (mw_get m "line")
       +:+ ":" +:+ py_str_opt x (mw_get m "column") +:+ ")".

(** The text the structured branch records, [None] where Python raises
    [TypeError].  With line, column and a view the code computes
    [get("line") - 1] and moves the selection; without a view but with a
    source it appends the location. *)
Definition structured_summary (x : External) (m : msg) (e : Eval) : option string :=
  match structured_head m with
  | None => None
  | Some text =>
      if mw_present m "line" && mw_present m "column" && bool_decide (is_Some (view e)) then
        match mw_get m "line" with
        | Some (WInt _) => Some text
        | _ => None
        end
      else if mw_present m "line" && mw_present m "column" && truthy_opt (mw_get m "source") then
        Some (text +:+ location_suffix x m)
      else Some text
  end.

(** The structured branch of [handle_exception]. *)
Definition exception_structured (m : msg) (e : Eval) : M bool :=
  s <- get_state ;;
  match structured_summary (ext s) m e with
  | None => raise TypeError
  | Some text =>
      mutate_eval (id e) (with_trace (mw_get m "trace")) ;;;
      mutate_eval (id e) (with_status_value Exception (Some (WStr text))) ;;;
      ret true
  end.

(** [handle_exception]. *)
Definition handle_exception (m : msg) : M bool :=
  r <- lookup_registered m ;;
  match r with
  | None => ret false
  | Some e =>
      if truthy_opt (mw_get m "root-ex-class") && truthy_opt (mw_get m "root-ex-msg") then
        exception_structured m e
      else
        match m !! "root-ex" with
        | Some v => mutate_eval (id e) (with_status_value Exception (Some v)) ;;; ret true
        | None =>
            match m !! "ex" with
            | Some v => mutate_eval (id e) (with_status_value Exception (Some v)) ;;; ret true
            | None =>
                match m !! "status" with
                | None => ret false
                | Some st =>
                    match str_in "namespace-not-found" st with
                    | None => raise TypeError
                    | Some false => ret false
                    | Some true =>
                        match m !! "ns" with
                        | None => raise KeyError
                        | Some n =>
                            s <- get_state ;;
                            mutate_eval (id e)
                              (with_status_value Exception
                                 (Some (WStr ("Namespace not found: " +:+ py_str (ext s) n)))) ;;;
                            ret false
                        end
                    end
                end
            end
        end
  end.

(** [handle_lookup]. *)
Definition handle_lookup (m : msg) : M bool :=
  match m !! "info" with
  | None => ret false
  | Some info =>
      r <- lookup_registered m ;;
      match r with
      | None => ret false
      | Some e =>
          mutate_eval (id e) (with_status_value Lookup None) ;;;
          s <- get_state ;;
          match lookup_popup (ext s) e info with
          | inl err => raise err
          | inr pid => mutate_eval (id e) (with_phantom (Some pid)) ;;; ret true
          end
      end
  end.

(** [handle_done]; it returns [None] on every path. *)
Definition handle_done (m : msg) : M bool :=
  r <- lookup_registered m ;;
  match r with
  | None => ret false
  | Some e =>
      match m !! "status" with
      | None => ret false
      | Some st =>
          match str_in "done" st with
          | None => raise TypeError
          | Some false => ret false
          | Some true =>
              match status e with
              | Success | Exception => ret false
              | _ => erase_eval e ;;; ret false
              end
          end
      end
  end.

(** ** Handshake of [cs_main.py] *)

(** [get_shadow_repl_init_cmd]. *)
Definition get_shadow_repl_init_cmd (build : option string) : string :=
  match build with
  | Some "node-repl" => "(shadow.cljs.devtools.api/node-repl)"
  | Some "browser-repl" => "(shadow.cljs.devtools.api/browser-repl)"
  | Some b => "(shadow.cljs.devtools.api/repl " +:+ b +:+ ")"
  | None => "(shadow.cljs.devtools.api/repl None)"
  end.

(** [_status_connected]. *)
Definition _status_connected (s : State) : string :=
  "🌕 " +:+
  match host s with
  | Some h => if String.eqb h "" then "" else h +:+ ":"
  | None => ""
  end +:+ py_str_opt (ext s) (port s).

Definition middleware_names : wire :=
  WList [WStr (ns +:+ ".middleware/clone-and-eval");
         WStr (ns +:+ ".middleware/time-eval");
         WStr (ns +:+ ".middleware/wrap-errors");
         WStr (ns +:+ ".middleware/wrap-output")].

Definition clone_request : request :=
  {[ "op" := Some (WStr "clone"); "id" := Some (WInt 1) ]}.

Definition shadow_init_request (s : State) : request :=
  {[ "op" := Some (WStr "eval");
     "session" := csession s;
     "code" := Some (WStr (get_shadow_repl_init_cmd (cljs_build s)));
     "id" := Some (WInt 2) ]}.

Definition load_file_request (s : State) : request :=
  {[ "op" := Some (WStr "load-file");
     "session" := csession s;
     "file" := Some (WStr (middleware_clj (ext s)));
     "id" := Some (WInt 2) ]}.

Definition add_middleware_request (s : State) : request :=
  {[ "op" := Some (WStr "add-middleware");
     "middleware" := Some middleware_names;
     "extra-namespaces" := Some (WList [WStr (ns +:+ ".middleware")]);
     "session" := csession s;
     "id" := Some (WInt (if truthy_opt (eval_shared (ext s)) then 3 else 4)) ]}.

Definition eval_shared_request (s : State) : request :=
  {[ "op" := Some (WStr "eval");
     "code" := eval_shared (ext s);
     "session" := csession s;
     "id" := Some (WInt 4) ]}.

(** The branches of [handle_connect] that every profile runs. *)
Definition handle_connect_default (m : msg) : M bool :=
  if eq_int 1 (m !! "id") && bool_decide (is_Some (m !! "new-session")) then
    modify (set_csession (m !! "new-session")) ;;;
    s <- get_state ;;
    send (load_file_request s) ;;;
    set_status (Some "🌓 Uploading middlewares") ;;;
    ret true
  else if eq_int 2 (m !! "id") && eq_done_list (m !! "status") then
    s <- get_state ;;
    send (add_middleware_request s) ;;;
    set_status (Some "🌔 Adding middlewares") ;;;
    ret true
  else if eq_int 3 (m !! "id") && eq_done_list (m !! "status") then
    s <- get_state ;;
    send (eval_shared_request s) ;;;
    ret false
  else if eq_int 4 (m !! "id") && eq_done_list (m !! "status") then
    s <- get_state ;;
    set_status (Some (_status_connected s)) ;;;
    ret true
  else ret false.

(** [handle_connect]: the shadow-cljs branches come first and fall through
    to the common ones when neither matches. *)
Definition handle_connect (m : msg) : M bool :=
  s <- get_state ;;
  match profile s with
  | Some SHADOW_CLJS =>
      if eq_int 1 (m !! "id") && bool_decide (is_Some (m !! "new-session")) then
        modify (set_csession (m !! "new-session")) ;;;
        s1 <- get_state ;;
        send (shadow_init_request s1) ;;;
        ret true
      else if eq_int 2 (m !! "id") && eq_done_list (m !! "status") then
        set_status (Some (_status_connected s)) ;;;
        ret true
      else handle_connect_default m
  | _ => handle_connect_default m
  end.

(** ** Routing *)

Definition truncated_keys : string := "nrepl.middleware.print/truncated-keys".

Definition dots : list wire := [WStr "."; WStr "."; WStr "."].

Fixpoint chars (s : string) : list wire :=
  match s with
  | EmptyString => []
  | String c rest => WStr (String c EmptyString) :: chars rest
  end.

(** The keys the loop [for key in msg.get(truncated_keys, [])] visits.  When
    the list names [truncated_keys] itself, [+=] extends the very list being
    iterated, and the loop goes on over the three new items. *)
Definition truncation_worklist (m : msg) : option (list wire) :=
  match m !! truncated_keys with
  | None => Some []
  | Some (WList l) =>
      Some (l ++ flat_map (fun k => if is_str truncated_keys k then dots else []) l)%list
  | Some (WStr s) => Some (chars s)
  | Some (WDict d) => Some (map (fun kv => WStr (fst kv)) d)
  | Some (WInt _) => None
  end.

(** [msg[key] += '...']. *)
Definition truncate_key (key : wire) (m : msg) : exn + msg :=
  match key with
  | WStr k =>
      match m !! k with
      | None => inl KeyError
      | Some (WStr v) => inr (<[k := WStr (v +:+ "...")]> m)
      | Some (WList l) => inr (<[k := WList (l ++ dots)%list]> m)
      | Some _ => inl TypeError
      end
  | WInt _ => inl KeyError
  | _ => inl TypeError
  end.

Fixpoint truncate_all (keys : list wire) (m : msg) : exn + msg :=
  match keys with
  | [] => inr m
  | k :: keys' =>
      match truncate_key k m with
      | inl e => inl e
      | inr m' => truncate_all keys' m'
      end
  end.

(** Python's [a or b] on handler results. *)
Definition orelse (a b : M bool) : M bool :=
  r <- a ;; if r then ret true else b.

(** [handle_msg]. *)
Definition handle_msg (m : msg) : M unit :=
  match truncation_worklist m with
  | None => raise TypeError
  | Some keys =>
      match truncate_all keys m with
      | inl e => raise e
      | inr m' =>
          orelse (handle_connect m')
            (orelse (handle_new_session m')
               (orelse (handle_value m')
                  (orelse (handle_exception m')
                     (orelse (handle_lookup m') (handle_done m'))))) ;;;
          ret tt
      end
  end.

(** The opening of [read_loop], before the first response is read. *)
Definition read_loop_open : M unit :=
  send clone_request ;;;
  set_status (Some "🌒 Cloning session").

(** [read_loop] over the responses the decoder yields until the stream
    ends; the socket is taken not to fail with [OSError]. *)
Definition read_loop (incoming : list msg) : M unit :=
  read_loop_open ;;;
  for_each incoming handle_msg ;;;
  disconnect.

(** [connect] when the socket can be opened; the reader thread then runs
    [read_loop]. *)
Definition connect (h : option string) (p : option wire) (pr : Profile)
    (build : option string) : M unit :=
  modify (set_target h p pr build) ;;;
  modify (set_socket true).

(** ** Commands that send requests *)

(** [get_middleware_opts]. *)
Definition get_middleware_opts (s : State) : request :=
  match profile s with
  | Some CLOJURE =>
      {[ "nrepl.middleware.caught/caught" := Some (WStr (ns +:+ ".middleware/print-root-trace"));
         "nrepl.middleware.print/print" := Some (WStr (ns +:+ ".middleware/pprint"));
         "nrepl.middleware.print/quota" := Some (WInt 4096) ]}
  | _ => ∅
  end.

(** [ProgressThread.phase]. *)
Definition phase : M wire :=
  s <- get_state ;;
  match nth_error (phases (ext s)) (phase_idx (ext s)) with
  | Some p => ret (WStr p)
  | None => raise IndexError
  end.

(** The request [eval_msg] builds: the truthy entries of [msg], then [id],
    [session] and the middleware options. *)
Definition eval_msg_request (s : State) (e : Eval) (m : request) : request :=
  get_middleware_opts s ∪
  <["session" := csession s]> (<["id" := Some (WInt (id e))]> (filter (fun kv => truthy_opt (snd kv) = true) m)).

(** [eval_msg]; [touches_line] is the predicate on regions that the editor
    answers for each record of the view. *)
Definition eval_msg (vid : Z) (src : string) (touches_line : Eval -> bool)
    (m : request) : M unit :=
  erase_evals touches_line (Some vid) ;;;
  e <- new_Eval vid src ;;
  s <- get_state ;;
  let e := with_msg (Some (eval_msg_request s e m)) e in
  add_eval e ;;;
  send (eval_msg_request s e m) ;;;
  p <- phase ;;
  mutate_eval (id e) (with_status_value Pending (Some p)).

Definition is_shadow (s : State) : bool :=
  match profile s with Some SHADOW_CLJS => true | _ => false end.

(** [eval]: the message of a form evaluation; [nspace], [line], [column]
    and [file] are what the parser and the view report. *)
Definition eval_form_msg (s : State) (src : string) (nspace : option string)
    (line column : Z) (file : option string) : request :=
  {[ "op" := Some (WStr (if is_shadow s || eval_in_session s
                          then "eval" else "clone-eval-close"));
     "code" := Some (WStr src);
     "ns" := Some (WStr (match nspace with
                         | Some n => if String.eqb n "" then "user" else n
                         | None => "user"
                         end));
     "line" := Some (WInt (line + 1));
     "column" := Some (WInt column);
     "file" := WStr <$> file ]}.

(** [eval]; [region_text] is [view.substr(region)], [src] the optional
    [code] argument. *)
Definition eval (vid : Z) (region_text : string) (src : option string)
    (touches_line : Eval -> bool) (nspace : option string) (line column : Z)
    (file : option string) : M unit :=
  s <- get_state ;;
  eval_msg vid region_text touches_line
    (eval_form_msg s (default region_text src) nspace line column file).

(** [ClojureSublimedEvalBufferCommand.run]. *)
Definition eval_buffer (vid : Z) (text : string) (touches_line : Eval -> bool)
    (file_name : option string) (base_name : string) : M unit :=
  eval_msg vid text touches_line
    {[ "op" := Some (WStr "load-file");
       "file" := Some (WStr text);
       "file-path" := WStr <$> file_name;
       "file-name" := Some (WStr (match file_name with
                                  | Some f => if String.eqb f "" then "NO_SOURCE_FILE.cljc" else base_name
                                  | None => "NO_SOURCE_FILE.cljc"
                                  end)) ]}.

Definition finished_status_eval (e : Eval) : bool :=
  is_status_eval e && match status e with Pending | Interrupt => false | _ => true end.

Definition eval_code_request (s : State) (e : Eval) (src : string) (nspace : option string) : request :=
  get_middleware_opts s ∪
  {[ "op" := Some (WStr "eval");
     "id" := Some (WInt (id e));
     "ns" := Some (WStr (match nspace with
                         | Some n => if String.eqb n "" then "user" else n
                         | None => "user"
                         end));
     "code" := Some (WStr src) ]}.

(** [ClojureSublimedEvalCodeCommand.run]; [nspace] is the namespace after
    the active view has been asked. *)
Definition eval_code (src : string) (nspace : option string) : M unit :=
  erase_evals finished_status_eval None ;;;
  e <- new_StatusEval src ;;
  s <- get_state ;;
  let e := with_msg (Some (eval_code_request s e src nspace)) e in
  add_eval e ;;;
  send (eval_code_request s e src nspace) ;;;
  p <- phase ;;
  mutate_eval (id e) (with_status_value Pending (Some p)).

Definition interrupt_command_request (e : Eval) : request :=
  {[ "op" := Some (WStr "interrupt");
     "session" := session e;
     "interrupt-id" := Some (WInt (id e)) ]}.

(** [ClojureSublimedInterruptEvalCommand.run]. *)
Definition interrupt_eval (vid : Z) : M unit :=
  items <- by_view_getitem vid ;;
  for_each items (fun kv =>
    match status (snd kv) with
    | Pending =>
        send (interrupt_command_request (snd kv)) ;;;
        mutate_eval (id (snd kv)) (with_status_value Interrupt (Some (WStr "Interrupting...")))
    | _ => ret tt
    end).

(** [Connection.find_eval]; [touches] is [regions_touch] as the editor
    answers it. *)
Definition find_eval (vid : Z) (touches : Eval -> bool) : M (option Eval) :=
  items <- by_view_getitem vid ;;
  ret (snd <$> find (fun kv => touches (snd kv)) items).

Definition lookup_request (s : State) (e : Eval) (sym : string) (nspace : option string) : request :=
  {[ "op" := Some (WStr "lookup");
     "sym" := Some (WStr sym);
     "session" := csession s;
     "id" := Some (WInt (id e));
     "ns" := Some (WStr (match nspace with
                         | Some n => if String.eqb n "" then "user" else n
                         | None => "user"
                         end)) ]}.

(** One selection of [ClojureSublimedToggleSymbolCommand.run]; [sym] is the
    text of the symbol or selection, if there is one. *)
Definition toggle_symbol (vid : Z) (touches touches_line : Eval -> bool)
    (sym : option string) (nspace : option string) : M unit :=
  found <- find_eval vid touches ;;
  let has_popup :=
    match found with
    | Some e0 => match phantom_id e0 with Some p => negb (p =? 0) | None => false end
    | None => false
    end in
  match found, has_popup with
  | Some e0, true => erase_eval e0
  | _, _ =>
      match sym with
      | None => ret tt
      | Some sy =>
          erase_evals touches_line (Some vid) ;;;
          e <- new_Eval vid sy ;;
          add_eval e ;;;
          s <- get_state ;;
          send (lookup_request s e sy nspace)
      end
  end.

(** ** [ConnectionNreplJvm] of [cs_conn_nrepl_jvm.py] *)

Module NreplJvm.

(** The connection object.  [calls] records the calls to
    [cs_eval.on_exception]: id, text, line, column, trace. *)
Record conn := mkConn {
  jsession : option wire;
  jstatus  : option (Z * string);
  jsent    : list request;
  calls    : list (wire * string * option Z * option wire * option wire)
}.

Section with_parent.
(** What the class takes from its parent [ConnectionNreplRaw] and from
    [cs_common], neither of which is among the sources: [ready],
    the parent's [handle_exception], the texts of the two Clojure files,
    the [eval_shared] setting and the address shown when connected. *)
Variable parent_ready : conn -> bool.
Variable parent_handle_exception : msg -> conn -> conn * bool.
Variable exception_clj middleware_clj : string.
Variable eval_shared : option wire.
Variable addr : string.

Definition jns : string := ns +:+ ".middleware".

(** [ConnectionNreplJvm.send]: stamps the middleware options once the
    connection is ready, then hands the message to the parent's [send]. *)
Definition jsend (m : request) (c : conn) : conn :=
  let m' :=
    if parent_ready c then
      <["nrepl.middleware.print/quota" := Some (WInt 4096)]>
        (<["nrepl.middleware.print/print" := Some (WStr (jns +:+ "/pprint"))]>
           (<["nrepl.middleware.caught/caught" := Some (WStr (jns +:+ "/print-root-trace"))]> m))
    else m in
  mkConn (jsession c) (jstatus c) (jsent c ++ [m']) (calls c).

Definition jset_status (ph : Z) (text : string) (c : conn) : conn :=
  mkConn (jsession c) (Some (ph, text)) (jsent c) (calls c).

Definition jset_session (v : option wire) (c : conn) : conn :=
  mkConn v (jstatus c) (jsent c) (calls c).

(** ['done' in msg.get('status', [])]; [None] is the [TypeError] for an
    integer status. *)
Definition done_in_status (m : msg) : option bool :=
  match m !! "status" with
  | None => Some false
  | Some st => str_in "done" st
  end.

(** [ConnectionNreplJvm.handle_connect]; [None] is a raised [TypeError]. *)
Definition handle_connect (m : msg) (c : conn) : option (conn * bool) :=
  if eq_int 1 (m !! "id") && bool_decide (is_Some (m !! "new-session")) then
    let c1 := jset_status 2 "Uploading middleware 1/2..." c in
    let c2 := jset_session (m !! "new-session") c1 in
    Some (jsend {[ "id" := Some (WInt 2);
                   "session" := jsession c2;
                   "op" := Some (WStr "load-file");
                   "file" := Some (WStr exception_clj) ]} c2, true)
  else
    let step (n : Z) (k : conn -> conn * bool) (otherwise : option (conn * bool)) :=
      if eq_int n (m !! "id") then
        match done_in_status m with
        | None => None
        | Some true => Some (k c)
        | Some false => otherwise
        end
      else otherwise in
    step 2 (fun c =>
      let c1 := jset_status 2 "Uploading middleware 2/2..." c in
      (jsend {[ "id" := Some (WInt 3);
                "session" := jsession c1;
                "op" := Some (WStr "load-file");
                "file" := Some (WStr middleware_clj) ]} c1, true))
    (step 3 (fun c =>
      let c1 := jset_status 2 "Adding middlewares..." c in
      (jsend {[ "id" := Some (WInt (if truthy_opt eval_shared then 4 else 5));
                "session" := jsession c1;
                "op" := Some (WStr "add-middleware");
                "middleware" := Some (WList [WStr (jns +:+ "/clone-and-eval");
                                             WStr (jns +:+ "/time-eval");
                                             WStr (jns +:+ "/wrap-errors");
                                             WStr (jns +:+ "/wrap-output")]);
                "extra-namespaces" := Some (WList [WStr (ns +:+ ".exception"); WStr jns]) ]} c1,
       true))
    (step 4 (fun c =>
      let c1 := jset_status 3 "Evaluating session code..." c in
      (jsend {[ "id" := Some (WInt 5);
                "session" := jsession c1;
                "op" := Some (WStr "eval");
                "code" := eval_shared ]} c1, true))
    (step 5 (fun c => (jset_status 4 addr c, true)) (Some (c, false))))).

(** The text of the structured branch, with the source location. *)
Definition structured_text (x : External) (m : msg) : option string :=
  match structured_head m with
  | None => None
  | Some text =>
      if mw_present m "line" && mw_present m "column" && truthy_opt (mw_get m "source") then
        match mw_get m "line" with
        | Some (WInt _) => Some (text +:+ location_suffix x m)
        | _ => None
        end
      else Some text
  end.

(** [ConnectionNreplJvm.handle_exception]; [None] is a raised
    [TypeError]. *)
Definition handle_exception (x : External) (m : msg) (c : conn) : option (conn * bool) :=
  if truthy_opt (m !! "id") then
    if truthy_opt (mw_get m "root-ex-class") && truthy_opt (mw_get m "root-ex-msg") then
      match structured_text x m, m !! "id" with
      | Some text, Some i =>
          let located := mw_present m "line" && mw_present m "column"
                         && truthy_opt (mw_get m "source") in
          let line := if located
                      then match mw_get m "line" with Some (WInt z) => Some (z - 1) | _ => None end
                      else None in
          let column := if located then mw_get m "column" else None in
          Some (mkConn (jsession c) (jstatus c) (jsent c)
                  (calls c ++ [(i, text, line, column, mw_get m "trace")]), true)
      | _, _ => None
      end
    else Some (parent_handle_exception m c)
  else Some (c, false).

End with_parent.
End NreplJvm.

(** ** The handshake against a server that answers at once *)

Definition is_clone (r : request) : bool :=
  match r !! "op" with
  | Some (Some (WStr o)) => String.eqb o "clone"
  | _ => false
  end.

Definition clone_reply (i tok : wire) : msg :=
  {[ "id" := i; "new-session" := tok; "status" := WList [WStr "done"] ]}.

Definition done_reply (i : wire) : msg :=
  {[ "id" := i; "status" := WList [WStr "done"] ]}.

(** The server of the handshake property: a [clone] is answered with the
    new session [tok] and [done], every other request that carries an id
    with a bare [done]. *)
Definition prompt_server (tok : wire) (r : request) : list msg :=
  match r !! "id" with
  | Some (Some i) => if is_clone r then [clone_reply i tok] else [done_reply i]
  | _ => []
  end.

(** The requests written between two states. *)
Definition sent_since (s0 s1 : State) : list request :=
  drop (length (sent s0)) (sent s1).

(** The loop of [read_loop] fed by a server: the next response is handled,
    and what the server answers to the requests sent meanwhile is queued
    behind the responses already under way.  With nothing under way the
    reader blocks. *)
Fixpoint serve (fuel : nat) (server : request -> list msg) (inbox : list msg) : M unit :=
  match fuel, inbox with
  | S fuel', m :: rest =>
      s0 <- get_state ;;
      handle_msg m ;;;
      s1 <- get_state ;;
      serve fuel' server (rest ++ flat_map server (sent_since s0 s1))%list
  | _, _ => ret tt
  end.

(** [read_loop] from its first line, against [server]. *)
Definition handshake (fuel : nat) (server : request -> list msg) : M unit :=
  s0 <- get_state ;;
  read_loop_open ;;;
  s1 <- get_state ;;
  serve fuel server (flat_map server (sent_since s0 s1)).

(** ** Entry points *)

(** The ways the program is entered: the reader thread opening the
    handshake and handling one decoded response, and the commands and
    listeners of the editor.  The predicates stand for the editor's answers
    about regions. *)
Inductive Op :=
| OConnect (h : option string) (p : option wire) (pr : Profile) (build : option string)
| OReadLoopOpen
| OHandleMsg (m : msg)
| ODisconnect
| OEval (vid : Z) (region_text : string) (src : option string)
    (touches_line : Eval -> bool) (nspace : option string) (line column : Z)
    (file : option string)
| OEvalBuffer (vid : Z) (text : string) (touches_line : Eval -> bool)
    (file_name : option string) (base_name : string)
| OEvalCode (src : string) (nspace : option string)
| OInterruptEval (vid : Z)
| OToggleSymbol (vid : Z) (touches touches_line : Eval -> bool)
    (sym nspace : option string)
| OEraseEvals (predicate : Eval -> bool) (v : option Z).

Definition run_op (o : Op) : M unit :=
  match o with
  | OConnect h p pr build => connect h p pr build
  | OReadLoopOpen => read_loop_open
  | OHandleMsg m => handle_msg m
  | ODisconnect => disconnect
  | OEval vid region_text src touches_line nspace line column file =>
      eval vid region_text src touches_line nspace line column file
  | OEvalBuffer vid text touches_line file_name base_name =>
      eval_buffer vid text touches_line file_name base_name
  | OEvalCode src nspace => eval_code src nspace
  | OInterruptEval vid => interrupt_eval vid
  | OToggleSymbol vid touches touches_line sym nspace =>
      toggle_symbol vid touches touches_line sym nspace
  | OEraseEvals predicate v => erase_evals predicate v
  end.

(** A run of entries, one after the other; an exception ends the entry it
    is raised in and leaves the state as it is at that point. *)
Fixpoint run_ops (ops : list Op) (s : State) : State :=
  match ops with
  | [] => s
  | o :: ops' => run_ops ops' (final (run_op o s))
  end.

(** The ids of the records registered along a trace, in order. *)
Fixpoint registered_ids (l : list Event) : list Z :=
  match l with
  | [] => []
  | EvRegister i :: l' => i :: registered_ids l'
  | _ :: l' => registered_ids l'
  end.

(** ** Vocabulary of the properties *)

(** The record [e] is held by the registry, and by the dictionary of its
    view when it has one: the state [add_eval] leaves. *)
Definition registered_in (s : State) (e : Eval) : Prop :=
  is_Some (od_get (id e) (evals s)) /\
  forall vid, view e = Some vid ->
    exists d, evals_by_view s !! vid = Some d /\ is_Some (od_get (id e) d).

(** In the trace [l] the request [m] is written to the socket at a point
    where the record [i] has not yet been removed from the registry. *)
Definition sent_before_unregistered (i : Z) (m : request) (l : list Event) : Prop :=
  exists l1 l2 l3, l = (l1 ++ EvSend m :: l2 ++ EvUnregister i :: l3)%list.

(** The state [plugin_loaded] sets up: a fresh [Connection] and
    [Eval.next_id = 10]. *)
Definition init_state (eval_in_sess : bool) (x : External) : State :=
  mkState (Some "localhost") None None [] ∅ None eval_in_sess None None false 10 [] x.

(** The creation of a record of either class. *)
Definition allocate (status_eval : bool) (v : Z) (src : string) : M Eval :=
  if status_eval then new_StatusEval src else new_Eval v src.

(** Along the trace, a request that carries an id carries a handshake
    identifier or the id of the record registered just before it;
    [prev] is the record registered just before the trace begins. *)
Fixpoint ids_fresh (prev : option Z) (l : list Event) : Prop :=
  match l with
  | [] => True
  | EvSend r :: l' =>
      (forall i, r !! "id" = Some (Some (WInt i)) -> 1 <= i <= 4 \/ prev = Some i)
      /\ ids_fresh None l'
  | EvRegister i :: l' => ids_fresh (Some i) l'
  | _ :: l' => ids_fresh None l'
  end.

(** The shape of a request sent while the session token is [tok]: it names
    its [op].  An interrupt carries an integer [interrupt-id] and a
    [session] entry and no [id].  A request that is not an interrupt
    carries an integer [id], and the session token under [session], except
    [clone] and the [eval] of the eval-code command, which have no
    [session] entry. *)
Definition request_shape (tok : option wire) (r : request) : Prop :=
  exists o, r !! "op" = Some (Some (WStr o)) /\
    ((o = "interrupt" /\ r !! "id" = None
      /\ (exists i, r !! "interrupt-id" = Some (Some (WInt i)))
      /\ is_Some (r !! "session"))
     \/ (o <> "interrupt"
         /\ exists i, r !! "id" = Some (Some (WInt i)) /\
              (r !! "session" = Some tok
               \/ (r !! "session" = None /\ (o = "clone" \/ o = "eval"))))).

(** What an entry may add to the trace, between the counter values [n0]
    and [n1], while the session token is [tok]. *)
Definition trace_ok (tok : option wire) (n0 n1 : Z) (l : list Event) : Prop :=
  StronglySorted Z.lt (registered_ids l)
  /\ Forall (fun i => n0 <= i < n1) (registered_ids l)
  /\ ids_fresh None l
  /\ Forall (request_shape tok) (sent_of l).

(** The trace of a process: the ids registered so far rise strictly and
    lie between 10 and the counter, and the requests carry fresh ids. *)
Definition process_ok (s : State) : Prop :=
  10 <= next_id s
  /\ StronglySorted Z.lt (registered_ids (events s))
  /\ Forall (fun i => 10 <= i < next_id s) (registered_ids (events s))
  /\ ids_fresh None (events s).

(** A step that keeps the session token. *)
Definition steady (s s' : State) : Prop :=
  csession s' = csession s /\ next_id s <= next_id s'
  /\ exists l, events s' = (events s ++ l)%list
       /\ trace_ok (csession s) (next_id s) (next_id s') l.

(** A step that may change the session token before it sends. *)
Definition entry_ok (s s' : State) : Prop :=
  next_id s <= next_id s'
  /\ exists l, events s' = (events s ++ l)%list
       /\ trace_ok (csession s') (next_id s) (next_id s') l.

(** A step that leaves trace, session token and counter alone. *)
Definition silent (s s' : State) : Prop :=
  events s' = events s /\ csession s' = csession s /\ next_id s' = next_id s.

(** Every outcome of the action, returned or raised, is related to the
    state it started from. *)
Definition keeps {A} (R : State -> State -> Prop) (m : M A) : Prop :=
  forall s, R s (final (m s)).

(** The four ways an exception message is classified, in priority order. *)
Inductive Branch := Structured | RootEx | Ex | NamespaceNotFound.

(** What makes a branch applicable to a message.  A status that is an
    integer has no members. *)
Definition branch_guard (b : Branch) (m : msg) : bool :=
  match b with
  | Structured =>
      truthy_opt (mw_get m "root-ex-class") && truthy_opt (mw_get m "root-ex-msg")
  | RootEx => bool_decide (is_Some (m !! "root-ex"))
  | Ex => bool_decide (is_Some (m !! "ex"))
  | NamespaceNotFound =>
      match m !! "status" with
      | Some st => default false (str_in "namespace-not-found" st)
      | None => false
      end
  end.

Definition branches : list Branch := [Structured; RootEx; Ex; NamespaceNotFound].

(** The classification the specification describes: the first applicable
    branch of the list. *)
Definition first_match (m : msg) : option Branch :=
  List.find (fun b => branch_guard b m) branches.

(** [b'] has priority over [b]. *)
Definition before (b' b : Branch) : Prop :=
  match b', b with
  | Structured, (RootEx | Ex | NamespaceNotFound) => True
  | RootEx, (Ex | NamespaceNotFound) => True
  | Ex, NamespaceNotFound => True
  | _, _ => False
  end.

(** The record [e] after a branch has marked it failed with [v]. *)
Definition failed_with (v : wire) (e : Eval) : Eval := with_status_value Exception (Some v) e.

(** [msg.get("id")] is one of the fixed identifiers of the handshake. *)
Definition handshake_id (o : option wire) : bool :=
  eq_int 1 o || eq_int 2 o || eq_int 3 o || eq_int 4 o.

(** The id of [m] is neither a handshake identifier nor a key of the
    registry (a message without id counts as well). *)
Definition unknown_id (s : State) (m : msg) : Prop :=
  handshake_id (m !! "id") = false /\
  forall z, m !! "id" = Some (WInt z) -> od_get z (evals s) = None.

(** A bare acknowledgement: [id] and a [status] list holding [done], and
    none of the fields an earlier handler of the chain would claim. *)
Definition plain_done_ack (m : msg) : bool :=
  match m !! "status" with
  | Some (WList st) => existsb (is_str "done") st && negb (existsb (is_str "namespace-not-found") st)
  | _ => false
  end
  && negb (handshake_id (m !! "id"))
  && negb (bool_decide (is_Some (m !! truncated_keys)))
  && negb (bool_decide (is_Some (m !! "new-session")))
  && negb (bool_decide (is_Some (m !! "value")))
  && negb (bool_decide (is_Some (m !! "info")))
  && negb (bool_decide (is_Some (m !! "root-ex")))
  && negb (bool_decide (is_Some (m !! "ex")))
  && negb (truthy_opt (mw_get m "root-ex-class") && truthy_opt (mw_get m "root-ex-msg")).

(** A handler result that claims nothing and leaves the state as it was. *)
Definition declines (s : State) (o : outcome bool) : Prop :=
  o = Ok false s \/ exists e, o = Raise e s.

(** Two values of the key [id] that the handlers cannot tell apart. *)
Definition same_id (a b : option wire) : Prop :=
  match a, b with
  | None, None => True
  | Some (WInt x), Some (WInt y) => x = y
  | Some (WStr _), Some (WStr _) => True
  | Some (WList _), Some (WList _) => True
  | Some (WDict _), Some (WDict _) => True
  | _, _ => False
  end.

(** ** The registry and its index *)

(** The registry and the per-view index are in step: keys are not
    repeated, a record is stored under its own id, ids lie between 10 and
    the counter, every record of the index of a view belongs to that view
    and is the record the registry holds, and every record of the registry
    that has a view is in the index of that view. *)
Definition registry_ok (s : State) : Prop :=
  10 <= next_id s
  /\ NoDup (map fst (evals s))
  /\ (forall k e, od_get k (evals s) = Some e -> id e = k /\ 10 <= k < next_id s)
  /\ (forall vid d, evals_by_view s !! vid = Some d ->
        NoDup (map fst d)
        /\ forall k e, od_get k d = Some e ->
             view e = Some vid /\ od_get k (evals s) = Some e)
  /\ (forall k e vid, od_get k (evals s) = Some e -> view e = Some vid ->
        exists d, evals_by_view s !! vid = Some d /\ od_get k d = Some e).

(** An update of a record that keeps its id and its view. *)
Definition keeps_identity (f : Eval -> Eval) : Prop :=
  forall e, id (f e) = id e /\ view (f e) = view e.

(** A step that leaves registry, index and counter alone. *)
Definition same_registry (s s' : State) : Prop :=
  evals s' = evals s /\ evals_by_view s' = evals_by_view s /\ next_id s' = next_id s.

(** A step that keeps registry and index in step. *)
Definition keeps_registry (s s' : State) : Prop :=
  registry_ok s -> registry_ok s'.

(** The state [erase_eval] reaches before it decides on the interrupt. *)
Definition removed (e : Eval) (s : State) : State :=
  let s1 := log (EvUnregister (id e)) (set_evals (od_del (id e)) s) in
  match view e with
  | Some vid =>
      set_by_view (insert vid (od_del (id e) (default [] (evals_by_view s !! vid)))) s1
  | None => s1
  end.

(** [eval.status == "pending" and eval.session]. *)
Definition wants_interrupt (e : Eval) : bool :=
  match status e with Pending => truthy_opt (session e) | _ => false end.

Definition is_pending (e : Eval) : bool :=
  match status e with Pending => true | _ => false end.

(** The record after the interrupt command has marked it. *)
Definition interrupting (e : Eval) : Eval :=
  if is_pending e then with_status_value Interrupt (Some (WStr "Interrupting...")) e else e.

(** The state [add_eval] reaches. *)
Definition added (e : Eval) (s : State) : State :=
  let s1 := log (EvRegister (id e)) (set_evals (od_set (id e) e) s) in
  match view e with
  | Some vid =>
      set_by_view
        (fun _ => <[vid := od_set (id e) e (default [] (evals_by_view s !! vid))]>
                    (evals_by_view s)) s1
  | None => s1
  end.

(** The records [erase_evals] lists: the whole registry, or the index of
    one view. *)
Definition listing (v : option Z) (s : State) : list (Z * Eval) :=
  match v with
  | None => evals s
  | Some vid => default [] (evals_by_view s !! vid)
  end.

(** Whether a record is among those listed for [v]. *)
Definition in_scope (v : option Z) (e : Eval) : bool :=
  match v, view e with
  | None, _ => true
  | Some vid, Some w => w =? vid
  | Some _, None => false
  end.

(** [eval.status not in {"pending", "interrupt"}]. *)
Definition settled (e : Eval) : bool :=
  match status e with Pending | Interrupt => false | _ => true end.

(** [ClojureSublimedClearEvalsCommand.run]. *)
Definition clear_evals (vid : Z) : M unit :=
  erase_evals settled (Some vid) ;;;
  erase_evals (fun e => is_status_eval e && settled e) None.

(** [ClojureSublimedEventListener.on_close]. *)
Definition on_close (vid : Z) : M unit :=
  erase_evals (fun _ => true) (Some vid).

(** The replies of a handshake of [ConnectionNreplJvm], each one handed to
    its [handle_connect] as [handle_msg] does first; [None] is a raised
    [TypeError]. *)
Fixpoint jvm_feed (parent_ready : NreplJvm.conn -> bool)
    (exception_clj middleware_clj : string) (eval_shared : option wire) (addr : string)
    (ms : list msg) (c : NreplJvm.conn) : option NreplJvm.conn :=
  match ms with
  | [] => Some c
  | m :: ms' =>
      match NreplJvm.handle_connect parent_ready exception_clj middleware_clj
              eval_shared addr m c with
      | Some (c', _) =>
          jvm_feed parent_ready exception_clj middleware_clj eval_shared addr ms' c'
      | None => None
      end
  end.

(** The message answers the request [n]: it carries that id and a status
    with [done] in it. *)
Definition answers (n : Z) (m : msg) : Prop :=
  m !! "id" = Some (WInt n) /\ NreplJvm.done_in_status m = Some true.

(** ** [ProgressThread]: the phases of the progress indicator *)

Module ProgressThread.

(** The fields of the object; [phases] is [None] until the settings are
    read. *)
Record t := mk {
  running   : bool;
  phases    : option (list string);
  phase_idx : nat;
  interval  : Z
}.

(** [ProgressThread.__init__]. *)
Definition init : t := mk false None 0 100.

(** [start] and [stop], as far as the fields go: [start] also spawns the
    thread that runs [run_loop], [stop] wakes it. *)
Definition start (p : t) : t :=
  if running p then p else mk true (phases p) (phase_idx p) (interval p).

Definition stop (p : t) : t := mk false (phases p) (phase_idx p) (interval p).

(** [update_phases] with a list of phases. *)
Definition update_phases (ps : list string) (iv : Z) (p : t) : t :=
  let p1 := mk (running p) (Some ps) 0 iv in
  if (1 <? length ps)%nat then start p1 else stop p1.

(** [phase]: [self.phases[self.phase_idx]]. *)
Definition phase (p : t) : exn + string :=
  match phases p with
  | None => inl TypeError
  | Some ps =>
      match nth_error ps (phase_idx p) with
      | Some x => inr x
      | None => inl IndexError
      end
  end.

(** The statement of [run_loop] that moves on after a pass that updated a
    record: [self.phase_idx = (self.phase_idx + 1) % len(self.phases)];
    [None] is the exception raised when there is no list or no phase. *)
Definition advance (p : t) : option t :=
  match phases p with
  | None => None
  | Some ps =>
      if (length ps =? 0)%nat then None
      else Some (mk (running p) (phases p) ((phase_idx p + 1) mod length ps) (interval p))
  end.

(** [n] such passes one after the other. *)
Fixpoint advances (n : nat) (p : t) : option t :=
  match n with
  | O => Some p
  | S n' =>
      match advance p with
      | Some p' => advances n' p'
      | None => None
      end
  end.

End ProgressThread.

(** ** [Eval.escape] *)

(** [str.replace] of one character by a string. *)
Fixpoint replace_char (c : Ascii.ascii) (r : string) (s : string) : string :=
  match s with
  | EmptyString => EmptyString
  | String a s' =>
      if Ascii.eqb a c then r +:+ replace_char c r s'
      else String a (replace_char c r s')
  end.

Definition tab : Ascii.ascii := Ascii.ascii_of_nat 9.
Definition space : Ascii.ascii := Ascii.ascii_of_nat 32.

(** [Eval.escape]; [html_escape] is the library's [html.escape]. *)
Definition escape (html_escape : string -> string) (value : string) : string :=
  replace_char space "&nbsp;" (replace_char tab "&nbsp;&nbsp;" (html_escape value)).

(** Whether the character occurs in the string. *)
Fixpoint has_char (c : Ascii.ascii) (s : string) : bool :=
  match s with
  | EmptyString => false
  | String a s' => Ascii.eqb a c || has_char c s'
  end.

(** A step that neither opens nor drops the socket. *)
Definition held (s s' : State) : Prop := socket s' = socket s.

(** A step that leaves the counter, the settings and the profile alone. *)
Definition same_setup (s s' : State) : Prop :=
  next_id s' = next_id s /\ ext s' = ext s /\ profile s' = profile s.

(** A request [bencode.encode] accepts: every entry holds a wire value,
    none is [None]. *)
Definition encodable (r : request) : Prop :=
  forall k v, r !! k = Some v -> is_Some v.

(** ** Concrete scenarios *)

Definition ext0 : External :=
  mkExternal None "(ns clojure-sublimed.middleware)" ["."; ".."; "..."] 0
    (fun _ => "[]") (fun _ _ => inl AttributeError).

(** The settings with shared init code configured. *)
Definition ext_shared : External :=
  mkExternal (Some (WStr "(set! *warn-on-reflection* true)"))
    "(ns clojure-sublimed.middleware)" ["."; ".."; "..."] 0
    (fun _ => "[]") (fun _ _ => inl AttributeError).

(** A pending evaluation of the eval-code command, running in its own
    child session. *)
Definition eval10 : Eval :=
  mkEval 10 true None Pending "(+ 1 2)" (Some (WStr "child-1")) None None None None.

(** A connected, ready connection holding that one record. *)
Definition live_state : State :=
  mkState (Some "localhost") (Some (WInt 5555)) (Some "🌕 localhost:5555")
    [(10, eval10)] ∅ (Some (WStr "tok")) false (Some CLOJURE) None true 11 [] ext0.

(** A connection just opened by [connect] in the default profile, with
    shared init code configured, and one opened for shadow-cljs. *)
Definition connected_default : State :=
  final (connect (Some "localhost") (Some (WInt 5555)) CLOJURE None
           (init_state false ext_shared)).


(** The default-profile connection after the clone reply: [load-file]
    with id 2 is under way. *)
Definition uploading_state : State :=
  final (handshake 1 (prompt_server (WStr "tok")) connected_default).

(** The answer to id 2 with one more marker next to [done]. *)
Definition done_and (extra : string) : msg :=
  {[ "id" := WInt 2; "status" := WList [WStr "done"; WStr extra] ]}.

(** A [ConnectionNreplJvm] at the same point of its handshake. *)
Definition jvm_uploading : NreplJvm.conn :=
  NreplJvm.mkConn (Some (WStr "tok")) (Some (2, "Uploading middleware 1/2...")) [] [].

(** An exception answer for record 10 with the structured fields and the
    raw ones. *)
Definition divide_by_zero : msg :=
  {[ "id" := WInt 10;
     mw_key "root-ex-class" := WStr "ArithmeticException";
     mw_key "root-ex-msg" := WStr "Divide by zero";
     "ex" := WStr "class java.lang.ArithmeticException";
     "root-ex" := WStr "class java.lang.ArithmeticException";
     "status" := WList [WStr "eval-error"] ]}.

(** The same for an exception thrown with the empty message. *)
Definition empty_message : msg :=
  {[ "id" := WInt 10;
     mw_key "root-ex-class" := WStr "ExceptionInfo";
     mw_key "root-ex-msg" := WStr "";
     "ex" := WStr "class clojure.lang.ExceptionInfo";
     "status" := WList [WStr "eval-error"] ]}.

(** A pending evaluation of a form in view 7, and a ready connection that
    holds it. *)
Definition eval11 : Eval :=
  mkEval 11 false (Some 7) Pending "(slow-fn)" (Some (WStr "child-2")) None None None None.

Definition view_state : State :=
  mkState (Some "localhost") (Some (WInt 5555)) (Some "🌕 localhost:5555")
    [(11, eval11)] {[ 7 := [(11, eval11)] ]} (Some (WStr "tok")) false (Some CLOJURE)
    None true 12 [] ext0.

(** Connect, complete the handshake without shared init code, evaluate
    one expression, then reconnect. *)
Definition reconnect_run : list Op :=
  [ OConnect (Some "localhost") (Some (WInt 5555)) CLOJURE None;
    OReadLoopOpen;
    OHandleMsg (clone_reply (WInt 1) (WStr "tok"));
    OHandleMsg (done_reply (WInt 2));
    OHandleMsg (done_reply (WInt 4));
    OEvalCode "(+ 1 2)" None;
    ODisconnect;
    OConnect (Some "localhost") (Some (WInt 5555)) CLOJURE None;
    OReadLoopOpen ].

(** A late response for the discarded id 99. *)
Definition late_response : msg :=
  {[ "id" := WInt 99; "value" := WStr "3"; "status" := WList [WStr "done"] ]}.

(** A bare [done] for record 10. *)
Definition done10 : msg :=
  {[ "id" := WInt 10; "session" := WStr "child-1"; "status" := WList [WStr "done"] ]}.



(** A value for record 10 that ends its evaluation. *)
Definition value10 : msg :=
  {[ "id" := WInt 10; "value" := WStr "3"; "status" := WList [WStr "done"] ]}.

(** The same with the token of a child session. *)
Definition new_session10 : msg :=
  {[ "id" := WInt 10; "new-session" := WStr "child-9"; "value" := WStr "3";
     "status" := WList [WStr "done"] ]}.

(** A value for record 10 that the printer has cut. *)
Definition truncated_value10 : msg :=
  {[ "id" := WInt 10; "value" := WStr "(0 1 2";
     truncated_keys := WList [WStr "value"] ]}.

(** A message that lists a truncated key it does not have. *)
Definition truncated_missing : msg :=
  {[ "id" := WInt 10; truncated_keys := WList [WStr "out"] ]}.

(** A [ConnectionNreplJvm] before its handshake. *)
Definition jvm_fresh : NreplJvm.conn := NreplJvm.mkConn None None [] [].

(** The answer to a request whose namespace the server does not know. *)
Definition namespace_missing10 : msg :=
  {[ "id" := WInt 10; "ns" := WStr "app.core";
     "status" := WList [WStr "done"; WStr "error"; WStr "namespace-not-found"] ]}.

(** * Properties *)

(** ** The byte source *)

Module SocketIOFacts.
Import SocketIO.

Lemma py_slice_inside (b : list byte) (lo hi : Z) :
  0 <= lo <= hi -> hi <= Z.of_nat (length b) ->
  py_slice b lo hi = take (Z.to_nat (hi - lo)) (drop (Z.to_nat lo) b).
Proof.
  intros Hlo Hhi. unfold py_slice.
  destruct (Z.ltb_spec lo 0); [lia|].
  destruct (Z.ltb_spec hi 0); [lia|].
  rewrite !Z.min_l by lia. reflexivity.
Qed.

Lemma take_drop_split (b : list byte) (lo hi : nat) :
  (lo <= hi)%nat ->
  (take (hi - lo) (drop lo b) ++ drop hi b)%list = drop lo b.
Proof.
  intros Hle.
  replace (drop hi b) with (drop (hi - lo) (drop lo b)).
  - apply take_drop.
  - rewrite drop_drop. f_equal. lia.
Qed.

(** One call: the result is the next piece of the undelivered stream. *)
Lemma read_step (n : Z) (io : t) :
  0 <= n -> inv io ->
  (fst (read n io) ++ undelivered (snd (read n io)))%list = undelivered io
  /\ Z.of_nat (length (fst (read n io))) <= n
  /\ inv (snd (read n io))
  /\ (0 < n -> (fst (read n io) = [] <-> undelivered io = [])).
Proof.
  intros Hn [Hsock Hbuf]. unfold read.
  destruct (buffer_exhausted io) eqn:Hex.
  - (* a fresh chunk is received *)
    assert (Hun : undelivered io = concat (socket io)).
    { unfold undelivered. unfold buffer_exhausted in Hex.
      destruct (buffer io) as [b|]; [|reflexivity].
      rewrite drop_ge; [reflexivity|].
      destruct b as [|x b]; [simpl; lia|].
      simpl in Hex. apply Z.leb_le in Hex. simpl in *. lia. }
    rewrite Hun. destruct (socket io) as [|c rest] eqn:Hs; simpl.
    + rewrite Z.min_r by lia.
      unfold py_slice, undelivered, inv, socket_ok; simpl.
      repeat split; auto; try lia.
    + apply Forall_cons in Hsock as [[Hne Hlen] Hrest].
      set (e := Z.min (0 + n) (Z.of_nat (length c))).
      assert (He : 0 <= e <= Z.of_nat (length c)) by (unfold e; lia).
      rewrite py_slice_inside by lia.
      unfold undelivered; simpl. rewrite Z.sub_0_r.
      repeat split.
      * rewrite app_assoc, take_drop. reflexivity.
      * rewrite length_take. unfold e. lia.
      * exact Hrest.
      * simpl; lia.
      * simpl; lia.
      * intros Hr. exfalso. apply (f_equal length) in Hr.
        rewrite length_take, length_drop in Hr. destruct c; [congruence|].
        simpl in *. unfold e in *. lia.
      * intros Hc. destruct c; [congruence|discriminate].
  - (* the buffer still holds unread bytes *)
    unfold buffer_exhausted in Hex.
    destruct (buffer io) as [b|] eqn:Hb; [|discriminate].
    apply orb_false_iff in Hex as [_ Hpos]. apply Z.leb_gt in Hpos.
    simpl. set (e := Z.min (pos io + n) (Z.of_nat (length b))).
    assert (He : pos io <= e <= Z.of_nat (length b)) by (unfold e; lia).
    rewrite py_slice_inside by lia.
    unfold undelivered; simpl. rewrite Hb.
    repeat split.
    + rewrite app_assoc. f_equal.
      replace (Z.to_nat (e - pos io)) with (Z.to_nat e - Z.to_nat (pos io))%nat by lia.
      apply take_drop_split. lia.
    + rewrite length_take, length_drop. unfold e. lia.
    + exact Hsock.
    + simpl; lia.
    + simpl; lia.
    + intros Hr. exfalso. apply (f_equal length) in Hr.
      rewrite length_take, length_drop in Hr. simpl in Hr. unfold e in *. lia.
    + intros Hu. exfalso. apply app_eq_nil in Hu as [Hd _].
      apply (f_equal length) in Hd. rewrite length_drop in Hd. simpl in Hd. lia.
Qed.

(** A stream of two chunks read in pieces: a read never crosses a chunk
    boundary, and the read after the last byte is empty. *)
Example reads_two_chunks :
  fst (reads [2; 5; 5; 1] (init [[x01; x02; x03]; [x04]]%list))
  = [[x01; x02]; [x03]; [x04]; []]%list.
Proof. reflexivity. Qed.

Lemma init_inv (sock : list (list byte)) : socket_ok sock -> inv (init sock).
Proof. intros H. split; [exact H|exact I]. Qed.

(** A run of calls: the results, in order, followed by what is still
    undelivered, are the stream. *)
Lemma reads_prefix (ns : list Z) (io : t) :
  Forall (fun n => 0 <= n) ns -> inv io ->
  (concat (fst (reads ns io)) ++ undelivered (snd (reads ns io)))%list = undelivered io
  /\ inv (snd (reads ns io)).
Proof.
  revert io. induction ns as [|n ns IH]; intros io Hns Hinv.
  - split; [reflexivity|exact Hinv].
  - apply Forall_cons in Hns as [Hn Hns].
    destruct (read_step n io Hn Hinv) as (Hsplit & _ & Hinv1 & _).
    cbn [reads]. destruct (read n io) as [r io1]. cbn [fst snd] in Hsplit, Hinv1.
    specialize (IH io1 Hns Hinv1).
    destruct (reads ns io1) as [rs io2]. cbn [fst snd concat] in *.
    destruct IH as [IH1 IH2]. split; [|exact IH2].
    rewrite <- app_assoc, IH1. exact Hsplit.
Qed.

End SocketIOFacts.

Module SocketIOClaims.
Import SocketIO SocketIOFacts.

(** C9.  After any run of earlier [read] calls on a fresh reader, a call
    [read(n)] with [n > 0] returns at most [n] bytes; the earlier results,
    this result and what is still undelivered make up the stream exactly,
    in order, so no byte is handed out twice; and the result is empty
    exactly when the earlier calls have already delivered the whole
    stream. *)
Theorem read_next_piece (sock : list (list byte)) (ns : list Z) (n : Z) :
  socket_ok sock -> Forall (fun k => 0 <= k) ns -> 0 < n ->
  let earlier := fst (reads ns (init sock)) in
  let io := snd (reads ns (init sock)) in
  let r := fst (read n io) in
  Z.of_nat (length r) <= n
  /\ (concat earlier ++ r ++ undelivered (snd (read n io)))%list = concat sock
  /\ (r = [] <-> concat earlier = concat sock).
Proof.
  intros Hsock Hns Hn earlier io r.
  destruct (reads_prefix ns (init sock) Hns (init_inv sock Hsock)) as [Hpre Hinv].
  fold earlier io in Hpre, Hinv.
  assert (Hstream : undelivered (init sock) = concat sock) by reflexivity.
  rewrite Hstream in Hpre.
  destruct (read_step n io (Z.lt_le_incl _ _ Hn) Hinv) as (Hsplit & Hlen & _ & Hempty).
  fold r in Hsplit, Hlen, Hempty.
  split; [exact Hlen|]. split.
  - rewrite Hsplit. exact Hpre.
  - rewrite (Hempty Hn). split.
    + intros Hu. rewrite Hu, app_nil_r in Hpre. exact Hpre.
    + intros He. rewrite <- He in Hpre.
      apply (f_equal length) in Hpre. rewrite length_app in Hpre.
      destruct (undelivered io); [reflexivity|simpl in Hpre; lia].
Qed.

Lemma read_next_piece_witness :
  let sock := [[x01; x02; x03]; [x04]]%list in
  let earlier := fst (reads [2] (init sock)) in
  let io := snd (reads [2] (init sock)) in
  let r := fst (read 5 io) in
  Z.of_nat (length r) <= 5
  /\ (concat earlier ++ r ++ undelivered (snd (read 5 io)))%list = concat sock
  /\ (r = [] <-> concat earlier = concat sock).
Proof.
  apply (read_next_piece [[x01; x02; x03]; [x04]]%list [2] 5).
  - apply List.Forall_cons; [split; [discriminate|simpl; lia]|].
    apply List.Forall_cons; [split; [discriminate|simpl; lia]|].
    apply List.Forall_nil.
  - apply List.Forall_cons; [lia|apply List.Forall_nil].
  - lia.
Defined.

End SocketIOClaims.

(** ** Dictionaries and traces *)

Lemma od_get_del_eq {V} (k : Z) (d : list (Z * V)) : od_get k (od_del k d) = None.
Proof.
  induction d as [|[k' v] d IH]; simpl; [reflexivity|].
  destruct (Z.eqb_spec k' k); simpl; [exact IH|].
  destruct (Z.eqb_spec k' k); [contradiction|exact IH].
Qed.

Lemma od_get_del_ne {V} (k k' : Z) (d : list (Z * V)) :
  k <> k' -> od_get k' (od_del k d) = od_get k' d.
Proof.
  intros Hne. induction d as [|[k0 v] d IH]; simpl; [reflexivity|].
  destruct (Z.eqb_spec k0 k); simpl.
  - subst. destruct (Z.eqb_spec k k'); [contradiction|exact IH].
  - destruct (Z.eqb_spec k0 k'); [reflexivity|exact IH].
Qed.


Lemma sent_of_app (l1 l2 : list Event) : sent_of (l1 ++ l2) = (sent_of l1 ++ sent_of l2)%list.
Proof.
  induction l1 as [|[m| | |] l1 IH]; simpl; rewrite ?IH; reflexivity.
Qed.

(** ** Teardown *)



(** ** Discarding a record *)

(** The part of [erase_eval] before the interrupt. *)
Lemma erase_eval_registered (s : State) (e : Eval) :
  registered_in s e ->
  exists s1,
    erase_eval e s =
      (match status e with
       | Pending => if truthy_opt (session e) then send (interrupt_request e) else ret tt
       | _ => ret tt
       end) s1
    /\ od_get (id e) (evals s1) = None
    /\ events s1 = (events s ++ [EvUnregister (id e)])%list
    /\ socket s1 = socket s
    /\ csession s1 = csession s
    /\ cstatus s1 = cstatus s
    /\ next_id s1 = next_id s.
Proof.
  intros [[e0 He0] Hview]. unfold erase_eval, bind at 1, get_state. rewrite He0.
  destruct (view e) as [vid|] eqn:Hv.
  - destruct (Hview vid eq_refl) as (d & Hd & [e1 He1]).
    eexists. split.
    + unfold bind, modify, by_view_getitem, bind, get_state, ret. simpl.
      rewrite Hd. simpl. rewrite He1. simpl. reflexivity.
    + simpl. rewrite od_get_del_eq. repeat split.
  - eexists. split.
    + unfold bind, modify, ret. simpl. reflexivity.
    + simpl. rewrite od_get_del_eq. repeat split.
Qed.

(** C2 (amended).  Discarding a registered record that is pending and has a
    non-empty session removes it from the registry first and then sends
    exactly one interrupt request, carrying the record's id as
    [interrupt-id] and the record's session; discarding a record whose
    status is success or exception sends nothing. *)
Theorem erase_eval_interrupts_after_removal (s : State) (e : Eval) :
  socket s = true ->
  registered_in s e ->
  exists s', erase_eval e s = Ok tt s'
    /\ od_get (id e) (evals s') = None
    /\ (status e = Pending -> truthy_opt (session e) = true ->
        events s' = (events s ++ [EvUnregister (id e); EvSend (interrupt_request e)])%list
        /\ interrupt_request e !! "op" = Some (Some (WStr "interrupt"))
        /\ interrupt_request e !! "interrupt-id" = Some (Some (WInt (id e)))
        /\ interrupt_request e !! "session" = Some (session e))
    /\ (status e = Success \/ status e = Exception ->
        events s' = (events s ++ [EvUnregister (id e)])%list
        /\ sent s' = sent s).
Proof.
  intros Hsock Hreg.
  destruct (erase_eval_registered s e Hreg) as (s1 & Hrun & Hgone & Hev & Hs1 & _).
  rewrite Hrun. destruct (status e) eqn:Hst.
  - destruct (truthy_opt (session e)) eqn:Hsess.
    + unfold send, bind, get_state, modify. rewrite Hs1, Hsock.
      eexists. split; [reflexivity|]. simpl. split; [exact Hgone|]. split.
      * intros _ _. rewrite Hev, <- app_assoc. repeat split.
      * intros [H|H]; discriminate.
    + exists s1. split; [reflexivity|]. split; [exact Hgone|]. split.
      * intros _ H; discriminate.
      * intros [H|H]; discriminate.
  - exists s1. split; [reflexivity|]. split; [exact Hgone|].
    split; [intros H; discriminate|intros [H|H]; discriminate].
  - exists s1. split; [reflexivity|]. split; [exact Hgone|].
    split; [intros H; discriminate|]. intros _. split; [exact Hev|].
    unfold sent. rewrite Hev, sent_of_app. simpl. apply app_nil_r.
  - exists s1. split; [reflexivity|]. split; [exact Hgone|].
    split; [intros H; discriminate|]. intros _. split; [exact Hev|].
    unfold sent. rewrite Hev, sent_of_app. simpl. apply app_nil_r.
  - exists s1. split; [reflexivity|]. split; [exact Hgone|].
    split; [intros H; discriminate|intros [H|H]; discriminate].
Qed.

Lemma erase_eval_interrupts_after_removal_witness :
  exists s', erase_eval eval10 live_state = Ok tt s'
    /\ od_get (id eval10) (evals s') = None
    /\ (status eval10 = Pending -> truthy_opt (session eval10) = true ->
        events s' = (events live_state
                       ++ [EvUnregister (id eval10); EvSend (interrupt_request eval10)])%list
        /\ interrupt_request eval10 !! "op" = Some (Some (WStr "interrupt"))
        /\ interrupt_request eval10 !! "interrupt-id" = Some (Some (WInt (id eval10)))
        /\ interrupt_request eval10 !! "session" = Some (session eval10))
    /\ (status eval10 = Success \/ status eval10 = Exception ->
        events s' = (events live_state ++ [EvUnregister (id eval10)])%list
        /\ sent s' = sent live_state).
Proof.
  apply (erase_eval_interrupts_after_removal live_state eval10).
  - reflexivity.
  - split; [eexists; reflexivity|]. intros vid H. discriminate.
Defined.

(** C2, as stated, fails: on a connected state holding the pending record
    10 with session [child-1], [erase_eval] first removes the record and
    only then sends the interrupt; no point of the trace has the interrupt
    written while the record is still registered. *)
Lemma erase_eval_interrupt_not_before_removal :
  socket live_state = true
  /\ registered_in live_state eval10
  /\ status eval10 = Pending
  /\ truthy_opt (session eval10) = true
  /\ events (final (erase_eval eval10 live_state))
     = [EvUnregister 10; EvSend (interrupt_request eval10)]
  /\ ~ sent_before_unregistered 10 (interrupt_request eval10)
         (events (final (erase_eval eval10 live_state))).
Proof.
  assert (Hev : events (final (erase_eval eval10 live_state))
                = [EvUnregister 10; EvSend (interrupt_request eval10)])
    by (vm_compute; reflexivity).
  split; [reflexivity|]. split.
  { split; [eexists; reflexivity|]. intros vid H. discriminate. }
  split; [reflexivity|]. split; [reflexivity|]. split; [exact Hev|].
  rewrite Hev. intros (l1 & l2 & l3 & H).
  destruct l1 as [|x [|y l1]]; simpl in H.
  - discriminate.
  - injection H as _ H. destruct l2; discriminate.
  - injection H as _ _ H. destruct l1; discriminate.
Qed.

(** ** Routing of a message whose id is unknown *)

Lemma same_id_refl (a : option wire) : same_id a a.
Proof. destruct a as [[| | |]|]; simpl; auto. Qed.

Lemma same_id_trans (a b c : option wire) : same_id a b -> same_id b c -> same_id a c.
Proof.
  destruct a as [[| | |]|], b as [[| | |]|], c as [[| | |]|]; simpl; intros; try tauto; congruence.
Qed.

Lemma truncate_key_same_id (k : wire) (m m' : msg) (key : string) :
  truncate_key k m = inr m' -> same_id (m !! key) (m' !! key).
Proof.
  destruct k as [k0| | |]; simpl; try discriminate.
  destruct (m !! k0) as [[v|z|l|d]|] eqn:Hk; try discriminate;
    intros [= <-]; (destruct (decide (k0 = key)) as [->|Hne];
      [rewrite lookup_insert_eq, Hk; exact I
      |rewrite lookup_insert_ne by exact Hne; apply same_id_refl]).
Qed.

Lemma truncate_all_same_id (keys : list wire) (m m' : msg) (key : string) :
  truncate_all keys m = inr m' -> same_id (m !! key) (m' !! key).
Proof.
  revert m. induction keys as [|k keys IH]; simpl; intros m.
  - intros [= <-]. apply same_id_refl.
  - destruct (truncate_key k m) as [e|m1] eqn:Hk; [discriminate|].
    intros H. eapply same_id_trans; [eapply truncate_key_same_id; eauto|eauto].
Qed.

Lemma unknown_id_same (s : State) (m m' : msg) :
  same_id (m !! "id") (m' !! "id") -> unknown_id s m -> unknown_id s m'.
Proof.
  intros Hsame [Hh Hr]. unfold unknown_id, handshake_id, eq_int in *.
  destruct (m !! "id") as [[| | |]|], (m' !! "id") as [[| | |]|];
    simpl in Hsame; try contradiction; subst; split; auto; try discriminate.
Qed.

Lemma lookup_registered_unknown (s : State) (m : msg) :
  unknown_id s m ->
  lookup_registered m s = Ok None s \/ exists e, lookup_registered m s = Raise e s.
Proof.
  intros [_ Hr]. unfold lookup_registered.
  destruct (m !! "id") as [[v|z|l|d]|]; unfold bind, get_state, ret, raise; eauto.
  rewrite (Hr z eq_refl). auto.
Qed.

Lemma handle_connect_unknown (s : State) (m : msg) :
  handshake_id (m !! "id") = false -> handle_connect m s = Ok false s.
Proof.
  unfold handshake_id. intros H.
  apply orb_false_iff in H as [H H4]. apply orb_false_iff in H as [H H3].
  apply orb_false_iff in H as [H1 H2].
  unfold handle_connect, handle_connect_default, bind, get_state.
  rewrite H1, H2, H3, H4. simpl. destruct (profile s) as [[|]|]; reflexivity.
Qed.

Ltac decline_by_lookup s m Hun :=
  unfold bind at 1;
  destruct (lookup_registered_unknown s m Hun) as [-> | [? ->]];
  [left; reflexivity | right; eexists; reflexivity].

Lemma handle_new_session_unknown (s : State) (m : msg) :
  unknown_id s m -> declines s (handle_new_session m s).
Proof.
  intros Hun. unfold handle_new_session.
  destruct (m !! "new-session"); [|left; reflexivity]. decline_by_lookup s m Hun.
Qed.

Lemma handle_value_unknown (s : State) (m : msg) :
  unknown_id s m -> declines s (handle_value m s).
Proof.
  intros Hun. unfold handle_value.
  destruct (m !! "value"); [|left; reflexivity]. decline_by_lookup s m Hun.
Qed.

Lemma handle_exception_unknown (s : State) (m : msg) :
  unknown_id s m -> declines s (handle_exception m s).
Proof. intros Hun. unfold handle_exception. decline_by_lookup s m Hun. Qed.

Lemma handle_lookup_unknown (s : State) (m : msg) :
  unknown_id s m -> declines s (handle_lookup m s).
Proof.
  intros Hun. unfold handle_lookup.
  destruct (m !! "info"); [|left; reflexivity]. decline_by_lookup s m Hun.
Qed.

Lemma handle_done_unknown (s : State) (m : msg) :
  unknown_id s m -> declines s (handle_done m s).
Proof. intros Hun. unfold handle_done. decline_by_lookup s m Hun. Qed.

Lemma orelse_declines (s : State) (a b : M bool) :
  declines s (a s) -> declines s (b s) -> declines s (orelse a b s).
Proof.
  intros [Ha | [e Ha]] Hb; unfold orelse, bind; rewrite Ha.
  - exact Hb.
  - right. eexists. reflexivity.
Qed.

(** C4.  A response whose id is not a handshake identifier and is not in
    the registry leaves the whole state as it was, whether [handle_msg]
    returns or raises: registry, per-view index, session token, connection
    status and the trace (so nothing is sent) are unchanged. *)
Theorem handle_msg_unknown_id_noop (s : State) (m : msg) :
  unknown_id s m ->
  final (handle_msg m s) = s
  /\ evals (final (handle_msg m s)) = evals s
  /\ csession (final (handle_msg m s)) = csession s
  /\ cstatus (final (handle_msg m s)) = cstatus s
  /\ sent (final (handle_msg m s)) = sent s.
Proof.
  intros Hun.
  assert (Hfin : final (handle_msg m s) = s).
  { unfold handle_msg.
    destruct (truncation_worklist m) as [keys|]; [|reflexivity].
    destruct (truncate_all keys m) as [e|m'] eqn:Htr; [reflexivity|].
    assert (Hun' : unknown_id s m').
    { eapply unknown_id_same; [|exact Hun]. eapply truncate_all_same_id; eauto. }
    assert (Hchain : declines s
      (orelse (handle_connect m')
         (orelse (handle_new_session m')
            (orelse (handle_value m')
               (orelse (handle_exception m')
                  (orelse (handle_lookup m') (handle_done m'))))) s)).
    { apply orelse_declines; [left; apply handle_connect_unknown, Hun'|].
      apply orelse_declines; [apply handle_new_session_unknown, Hun'|].
      apply orelse_declines; [apply handle_value_unknown, Hun'|].
      apply orelse_declines; [apply handle_exception_unknown, Hun'|].
      apply orelse_declines; [apply handle_lookup_unknown, Hun'|].
      apply handle_done_unknown, Hun'. }
    unfold bind at 1. destruct Hchain as [-> | [e ->]]; reflexivity. }
  rewrite Hfin. repeat split.
Qed.

Lemma handle_msg_unknown_id_noop_witness :
  final (handle_msg late_response live_state) = live_state
  /\ evals (final (handle_msg late_response live_state)) = evals live_state
  /\ csession (final (handle_msg late_response live_state)) = csession live_state
  /\ cstatus (final (handle_msg late_response live_state)) = cstatus live_state
  /\ sent (final (handle_msg late_response live_state)) = sent live_state.
Proof.
  apply (handle_msg_unknown_id_noop live_state late_response).
  split; [reflexivity|].
  intros z H. vm_compute in H. injection H as <-. reflexivity.
Defined.

(** ** A [done] for a record that is still pending *)

Lemma erase_eval_pending (s : State) (e : Eval) :
  socket s = true -> registered_in s e ->
  status e = Pending -> truthy_opt (session e) = true ->
  exists s', erase_eval e s = Ok tt s'
    /\ od_get (id e) (evals s') = None
    /\ events s' = (events s ++ [EvUnregister (id e); EvSend (interrupt_request e)])%list
    /\ csession s' = csession s /\ cstatus s' = cstatus s.
Proof.
  intros Hsock Hreg Hst Hsess.
  destruct (erase_eval_registered s e Hreg) as (s1 & Hrun & Hgone & Hev & Hs1 & Hc & Hcs & _).
  rewrite Hrun, Hst, Hsess. unfold send, bind, get_state, modify. rewrite Hs1, Hsock.
  eexists. split; [reflexivity|]. simpl. rewrite Hev, <- app_assoc. auto.
Qed.

Lemma plain_done_ack_fields (m : msg) :
  plain_done_ack m = true ->
  (exists st, m !! "status" = Some (WList st)
     /\ existsb (is_str "done") st = true
     /\ existsb (is_str "namespace-not-found") st = false)
  /\ handshake_id (m !! "id") = false
  /\ m !! truncated_keys = None
  /\ m !! "new-session" = None
  /\ m !! "value" = None
  /\ m !! "info" = None
  /\ m !! "root-ex" = None
  /\ m !! "ex" = None
  /\ truthy_opt (mw_get m "root-ex-class") && truthy_opt (mw_get m "root-ex-msg") = false.
Proof.
  unfold plain_done_ack. intros H.
  repeat (apply andb_true_iff in H as [H ?]).
  repeat match goal with
         | Hn : negb (bool_decide (is_Some ?x)) = true |- _ =>
             apply negb_true_iff, bool_decide_eq_false in Hn;
             apply eq_None_not_Some in Hn
         | Hn : negb _ = true |- _ => apply negb_true_iff in Hn
         end.
  destruct (m !! "status") as [[| |st|]|]; try discriminate.
  apply andb_true_iff in H as [Hd Hn]. apply negb_true_iff in Hn.
  repeat split; eauto.
Qed.

(** C10.  When a bare [done] acknowledgement arrives for a registered
    record that is still pending and has a non-empty session, routing it
    through [handle_msg] discards the record and, after the removal, sends
    an interrupt request with that record's id as [interrupt-id] and that
    record's session. *)
Theorem done_for_pending_record_sends_interrupt (s : State) (m : msg) (e : Eval) :
  socket s = true ->
  plain_done_ack m = true ->
  m !! "id" = Some (WInt (id e)) ->
  od_get (id e) (evals s) = Some e ->
  registered_in s e ->
  status e = Pending ->
  truthy_opt (session e) = true ->
  exists s', handle_msg m s = Ok tt s'
    /\ od_get (id e) (evals s') = None
    /\ events s' = (events s ++ [EvUnregister (id e); EvSend (interrupt_request e)])%list
    /\ interrupt_request e !! "op" = Some (Some (WStr "interrupt"))
    /\ interrupt_request e !! "interrupt-id" = Some (Some (WInt (id e)))
    /\ interrupt_request e !! "session" = Some (session e).
Proof.
  intros Hsock Hack Hid Hget Hreg Hst Hsess.
  destruct (plain_done_ack_fields m Hack)
    as ((st & Hstatus & Hdone & Hnsnf) & Hhs & Htk & Hns & Hval & Hinfo & Hrex & Hex & Hstruct).
  destruct (erase_eval_pending s e Hsock Hreg Hst Hsess) as (s' & Hrun & Hgone & Hev & _).
  assert (Hlook : lookup_registered m s = Ok (Some e) s).
  { unfold lookup_registered. rewrite Hid. unfold bind, get_state, ret. rewrite Hget. reflexivity. }
  exists s'. split; [|repeat split; assumption].
  unfold handle_msg, truncation_worklist. rewrite Htk. simpl.
  unfold orelse at 1. unfold bind at 1 2. rewrite (handle_connect_unknown s m Hhs).
  unfold orelse at 1. unfold bind at 1.
  unfold handle_new_session. rewrite Hns. unfold ret at 1.
  unfold orelse at 1. unfold bind at 1.
  unfold handle_value. rewrite Hval. unfold ret at 1.
  unfold orelse at 1. unfold bind at 1.
  unfold handle_exception. unfold bind at 1. rewrite Hlook, Hstruct, Hrex, Hex, Hstatus.
  cbn [str_in]. rewrite Hnsnf. unfold ret at 1.
  unfold orelse at 1. unfold bind at 1.
  unfold handle_lookup. rewrite Hinfo. unfold ret at 1.
  unfold handle_done. unfold bind at 1. rewrite Hlook, Hstatus. cbn [str_in]. rewrite Hdone, Hst.
  unfold bind at 1. rewrite Hrun. reflexivity.
Qed.

Lemma done_for_pending_record_sends_interrupt_witness :
  exists s', handle_msg done10 live_state = Ok tt s'
    /\ od_get (id eval10) (evals s') = None
    /\ events s' = (events live_state
                      ++ [EvUnregister (id eval10); EvSend (interrupt_request eval10)])%list
    /\ interrupt_request eval10 !! "op" = Some (Some (WStr "interrupt"))
    /\ interrupt_request eval10 !! "interrupt-id" = Some (Some (WInt (id eval10)))
    /\ interrupt_request eval10 !! "session" = Some (session eval10).
Proof.
  apply (done_for_pending_record_sends_interrupt live_state done10 eval10).
  - reflexivity.
  - vm_compute. reflexivity.
  - vm_compute. reflexivity.
  - reflexivity.
  - split; [eexists; reflexivity|]. intros vid H. discriminate.
  - reflexivity.
  - reflexivity.
Defined.

(** ** The handshake *)


Lemma done_reply_fields (i : wire) :
  done_reply i !! "id" = Some i
  /\ done_reply i !! "status" = Some (WList [WStr "done"])
  /\ done_reply i !! truncated_keys = None
  /\ done_reply i !! "new-session" = None
  /\ done_reply i !! "value" = None
  /\ done_reply i !! "info" = None
  /\ done_reply i !! "root-ex" = None
  /\ done_reply i !! "ex" = None
  /\ mw_get (done_reply i) "root-ex-class" = None.
Proof. repeat split. Qed.

(** Symbolic execution of the monadic code: unfold the plumbing, then read
    fields through the record updates. *)
Ltac mrun :=
  cbv beta iota delta [bind get_state modify ret raise set_status send orelse];
  cbn [host port cstatus evals evals_by_view csession eval_in_session profile
       cljs_build socket next_id events ext
       set_evals set_by_view set_cstatus set_csession set_socket set_next_id
       log set_target].


Lemma eq_done_list_done : eq_done_list (Some (WList [WStr "done"])) = true.
Proof. reflexivity. Qed.


Lemma handle_msg_done2 (s : State) :
  socket s = true -> profile s = Some CLOJURE ->
  handle_msg (done_reply (WInt 2)) s =
    Ok tt (set_cstatus (Some "🌔 Adding middlewares")
             (log (EvSend (add_middleware_request s)) s)).
Proof.
  intros Hsock Hprof.
  destruct (done_reply_fields (WInt 2)) as (Hid & Hst & Htk & Hns & _).
  unfold handle_msg, truncation_worklist. rewrite Htk. cbn [truncate_all].
  unfold handle_connect, handle_connect_default. mrun.
  rewrite Hprof, Hid, Hns, Hst, eq_done_list_done. cbn [eq_int Z.eqb Pos.eqb andb].
  mrun. rewrite Hsock. reflexivity.
Qed.














(** ** The [done] test of the handshake *)

(** C6 fails on [handle_connect] of [cs_main.py].  The status of the answer
    to id 2 holds [done] together with one more marker: the status is
    compared with the list [["done"]], so the handshake does not advance
    and nothing is sent, whereas the same answer with [done] alone makes it
    send [add-middleware].  [ConnectionNreplJvm.handle_connect], which
    tests ['done' in status], advances on the first answer too. *)
Theorem handle_connect_wants_done_alone (extra : string) :
  str_in "done" (WList [WStr "done"; WStr extra]) = Some true
  /\ profile uploading_state = Some CLOJURE
  /\ handle_connect (done_and extra) uploading_state = Ok false uploading_state
  /\ handle_msg (done_and extra) uploading_state = Ok tt uploading_state
  /\ sent (final (handle_msg (done_reply (WInt 2)) uploading_state))
     = (sent uploading_state ++ [add_middleware_request uploading_state])%list
  /\ (forall ready exc mw shared addr,
        exists c1 r,
          NreplJvm.handle_connect ready exc mw shared addr (done_and extra) jvm_uploading
          = Some (c1, true)
          /\ NreplJvm.jsent c1 = [r]
          /\ r !! "op" = Some (Some (WStr "load-file"))
          /\ r !! "id" = Some (Some (WInt 3))).
Proof.
  split; [reflexivity|]. split; [reflexivity|].
  split; [vm_compute; reflexivity|]. split; [vm_compute; reflexivity|].
  split.
  { rewrite (handle_msg_done2 uploading_state eq_refl eq_refl).
    unfold sent. cbn [final events set_cstatus log]. rewrite sent_of_app. reflexivity. }
  intros ready exc mw shared addr.
  unfold NreplJvm.handle_connect.
  change (eq_int 1 (done_and extra !! "id")) with false.
  change (eq_int 2 (done_and extra !! "id")) with true.
  change (NreplJvm.done_in_status (done_and extra)) with (Some true).
  cbn [andb]. unfold NreplJvm.jsend. cbn [NreplJvm.jsent NreplJvm.jset_status jvm_uploading app].
  destruct (ready _); (do 2 eexists; split; [reflexivity|]; repeat split).
Qed.

(** ** Classification of exception messages *)

Lemma od_get_alter_eq {V} (f : V -> V) (k : Z) (d : list (Z * V)) :
  od_get k (od_alter f k d) = f <$> od_get k d.
Proof.
  induction d as [|[k' v] d IH]; simpl; [reflexivity|].
  destruct (Z.eqb_spec k' k) as [->|Hne]; simpl.
  - rewrite Z.eqb_refl. reflexivity.
  - destruct (Z.eqb_spec k' k); [contradiction|exact IH].
Qed.

Lemma first_match_priority (m : msg) (b : Branch) :
  first_match m = Some b ->
  branch_guard b m = true /\ forall b', before b' b -> branch_guard b' m = false.
Proof.
  unfold first_match, branches. cbn [List.find].
  destruct (branch_guard Structured m) eqn:G1.
  { intros [= <-]. split; [exact G1|]. intros []; simpl; tauto. }
  destruct (branch_guard RootEx m) eqn:G2.
  { intros [= <-]. split; [exact G2|]. intros []; simpl; tauto. }
  destruct (branch_guard Ex m) eqn:G3.
  { intros [= <-]. split; [exact G3|]. intros []; simpl; tauto. }
  destruct (branch_guard NamespaceNotFound m) eqn:G4; [|discriminate].
  intros [= <-]. split; [exact G4|]. intros []; simpl; tauto.
Qed.

Lemma first_match_some (m : msg) :
  is_Some (first_match m) <-> exists b, branch_guard b m = true.
Proof.
  unfold first_match, branches. cbn [List.find]. split.
  - intros [b Hb].
    destruct (branch_guard Structured m) eqn:G1; [eauto|].
    destruct (branch_guard RootEx m) eqn:G2; [eauto|].
    destruct (branch_guard Ex m) eqn:G3; [eauto|].
    destruct (branch_guard NamespaceNotFound m) eqn:G4; [eauto|discriminate].
  - intros [[] Hb]; rewrite ?Hb;
      repeat match goal with |- is_Some (if ?c then _ else _) => destruct c end;
      eauto; discriminate.
Qed.

Lemma mutate_exception_run (s : State) (e : Eval) (v : wire) :
  od_get (id e) (evals s) = Some e ->
  exists s', mutate_eval (id e) (with_status_value Exception (Some v)) s = Ok tt s'
    /\ od_get (id e) (evals s') = Some (failed_with v e)
    /\ events s' = events s /\ csession s' = csession s /\ ext s' = ext s.
Proof.
  intros He. eexists. split; [reflexivity|]. cbn [evals set_by_view set_evals].
  rewrite od_get_alter_eq, He. repeat split.
Qed.

(** C3 (amended).  For a message whose id is registered:
    a message whose structured root-cause class and message are both
    non-empty is classified by the structured branch whatever raw [root-ex]
    or [ex] it also carries; the branch that fires is the first applicable
    one in the order structured, [root-ex], [ex], namespace-not-found, no
    earlier one being applicable, and some branch fires exactly when one is
    applicable; [handle_exception] does what that branch says: the record
    is marked failed with the composite summary and the trace attached
    (structured), with the raw [root-ex], with the raw [ex], or with the
    text naming the missing namespace; when no branch applies the state is
    left as it was.  In the two raw branches the record is marked whatever
    kind of value the field holds, [update] storing it before it redraws;
    that the handler then returns [True] is stated for a string, the kind
    of value the redraw accepts.  [ConnectionNreplJvm.handle_exception]
    takes the structured path under the same condition, before its
    parent's handler is asked. *)
Theorem handle_exception_first_match (s : State) (m : msg) (e : Eval) :
  m !! "id" = Some (WInt (id e)) ->
  od_get (id e) (evals s) = Some e ->
  (branch_guard Structured m = true -> first_match m = Some Structured)
  /\ (forall b, first_match m = Some b ->
        branch_guard b m = true /\ forall b', before b' b -> branch_guard b' m = false)
  /\ (is_Some (first_match m) <-> exists b, branch_guard b m = true)
  /\ (first_match m = Some Structured ->
      match structured_summary (ext s) m e with
      | Some text =>
          exists s', handle_exception m s = Ok true s'
            /\ od_get (id e) (evals s')
               = Some (failed_with (WStr text) (with_trace (mw_get m "trace") e))
            /\ events s' = events s
      | None => handle_exception m s = Raise TypeError s
      end)
  /\ (first_match m = Some RootEx ->
      exists v s', m !! "root-ex" = Some v
        /\ final (handle_exception m s) = s'
        /\ od_get (id e) (evals s') = Some (failed_with v e)
        /\ events s' = events s
        /\ (forall x, v = WStr x -> handle_exception m s = Ok true s'))
  /\ (first_match m = Some Ex ->
      exists v s', m !! "ex" = Some v
        /\ final (handle_exception m s) = s'
        /\ od_get (id e) (evals s') = Some (failed_with v e)
        /\ events s' = events s
        /\ (forall x, v = WStr x -> handle_exception m s = Ok true s'))
  /\ (first_match m = Some NamespaceNotFound ->
      match m !! "ns" with
      | Some n =>
          exists s', handle_exception m s = Ok false s'
            /\ od_get (id e) (evals s')
               = Some (failed_with (WStr ("Namespace not found: " +:+ py_str (ext s) n)) e)
            /\ events s' = events s
      | None => handle_exception m s = Raise KeyError s
      end)
  /\ (first_match m = None -> final (handle_exception m s) = s)
  /\ (forall parent c text,
        id e <> 0 ->
        branch_guard Structured m = true ->
        NreplJvm.structured_text (ext s) m = Some text ->
        exists line column,
          NreplJvm.handle_exception parent (ext s) m c
          = Some (NreplJvm.mkConn (NreplJvm.jsession c) (NreplJvm.jstatus c) (NreplJvm.jsent c)
                    (NreplJvm.calls c
                       ++ [(WInt (id e), text, line, column, mw_get m "trace")])%list,
                  true)).
Proof.
  intros Hid He.
  assert (Hlook : lookup_registered m s = Ok (Some e) s).
  { unfold lookup_registered. rewrite Hid. mrun. rewrite He. reflexivity. }
  split.
  { intros G. unfold first_match, branches. cbn [List.find]. rewrite G. reflexivity. }
  split; [apply first_match_priority|]. split; [apply first_match_some|].
  assert (Hopen : forall k : option Eval -> M bool,
             bind (lookup_registered m) k s = k (Some e) s).
  { intros k. unfold bind. rewrite Hlook. reflexivity. }
  unfold handle_exception. rewrite Hopen. clear Hopen.
  repeat split.
  - (* structured *)
    intros Hfm. destruct (first_match_priority m _ Hfm) as [G _].
    cbn [branch_guard] in G. rewrite G. unfold exception_structured. mrun.
    destruct (structured_summary (ext s) m e) as [text|]; [|reflexivity].
    eexists. split; [reflexivity|]. unfold mutate_eval. mrun.
    rewrite !od_get_alter_eq, He. repeat split.
  - (* root-ex *)
    intros Hfm. destruct (first_match_priority m _ Hfm) as [G Hprio].
    pose proof (Hprio Structured I) as G1. cbn [branch_guard] in G, G1.
    apply bool_decide_eq_true_1 in G as [v Hv].
    destruct (mutate_exception_run s e v He) as (s' & Hrun & Hrec & Hev & _).
    exists v, s'. rewrite G1, Hv. mrun. rewrite Hrun. repeat split; assumption.
  - (* ex *)
    intros Hfm. destruct (first_match_priority m _ Hfm) as [G Hprio].
    pose proof (Hprio Structured I) as G1. pose proof (Hprio RootEx I) as G2.
    cbn [branch_guard] in G, G1, G2.
    apply bool_decide_eq_true_1 in G as [v Hv].
    apply bool_decide_eq_false_1, eq_None_not_Some in G2.
    destruct (mutate_exception_run s e v He) as (s' & Hrun & Hrec & Hev & _).
    exists v, s'. rewrite G1, G2, Hv. mrun. rewrite Hrun. repeat split; assumption.
  - (* namespace not found *)
    intros Hfm. destruct (first_match_priority m _ Hfm) as [G Hprio].
    pose proof (Hprio Structured I) as G1. pose proof (Hprio RootEx I) as G2.
    pose proof (Hprio Ex I) as G3. cbn [branch_guard] in G, G1, G2, G3.
    apply bool_decide_eq_false_1, eq_None_not_Some in G2.
    apply bool_decide_eq_false_1, eq_None_not_Some in G3.
    rewrite G1, G2, G3.
    destruct (m !! "status") as [st|]; [|discriminate].
    destruct (str_in "namespace-not-found" st) as [[|]|]; try discriminate.
    destruct (m !! "ns") as [n|]; [|reflexivity].
    destruct (mutate_exception_run s e
                (WStr ("Namespace not found: " +:+ py_str (ext s) n)) He)
      as (s' & Hrun & Hrec & Hev & _).
    exists s'. mrun. rewrite Hrun. repeat split; assumption.
  - (* no branch applies *)
    unfold first_match, branches. cbn [List.find].
    destruct (branch_guard Structured m) eqn:G1; [discriminate|].
    destruct (branch_guard RootEx m) eqn:G2; [discriminate|].
    destruct (branch_guard Ex m) eqn:G3; [discriminate|].
    destruct (branch_guard NamespaceNotFound m) eqn:G4; [discriminate|]. intros _.
    cbn [branch_guard] in G1, G2, G3, G4.
    apply bool_decide_eq_false_1, eq_None_not_Some in G2.
    apply bool_decide_eq_false_1, eq_None_not_Some in G3.
    rewrite G1, G2, G3.
    destruct (m !! "status") as [st|]; [|reflexivity].
    destruct (str_in "namespace-not-found" st) as [[|]|]; try discriminate; reflexivity.
  - (* the JVM connection *)
    intros parent c text Hnz G Htext. unfold NreplJvm.handle_exception.
    cbn [branch_guard] in G. rewrite Hid, G, Htext. cbn [truthy_opt truthy].
    destruct (Z.eqb_spec (id e) 0) as [Hz|_]; [contradiction|].
    do 2 eexists. reflexivity.
Qed.

Lemma handle_exception_first_match_witness :
  branch_guard Structured divide_by_zero = true
  /\ first_match divide_by_zero = Some Structured
  /\ exists s', handle_exception divide_by_zero live_state = Ok true s'
       /\ od_get 10 (evals s')
          = Some (failed_with (WStr "ArithmeticException: Divide by zero") eval10)
       /\ events s' = events live_state.
Proof.
  pose proof (handle_exception_first_match live_state divide_by_zero eval10
                eq_refl eq_refl) as (Hprec & _ & _ & Hstructured & _).
  split; [reflexivity|]. split; [exact (Hprec eq_refl)|].
  exact (Hstructured (Hprec eq_refl)).
Defined.

(** C3, as stated, fails: the answer for an exception thrown with the
    empty message carries the structured class and message and a raw [ex];
    the message being empty, it is classified by the raw [ex] branch and
    the record shows the raw text. *)
Lemma empty_message_takes_raw_fallback :
  mw_present empty_message "root-ex-class" = true
  /\ mw_present empty_message "root-ex-msg" = true
  /\ empty_message !! "ex" = Some (WStr "class clojure.lang.ExceptionInfo")
  /\ first_match empty_message = Some Ex
  /\ exists s', handle_exception empty_message live_state = Ok true s'
       /\ od_get 10 (evals s')
          = Some (failed_with (WStr "class clojure.lang.ExceptionInfo") eval10).
Proof.
  split; [reflexivity|]. split; [reflexivity|]. split; [reflexivity|].
  split; [reflexivity|]. eexists. split; [vm_compute; reflexivity|]. reflexivity.
Qed.

(** ** What an entry point adds to the trace *)

Section keeps.
Variable R : State -> State -> Prop.
Hypothesis R_refl : forall s, R s s.
Hypothesis R_trans : forall a b c, R a b -> R b c -> R a c.

Lemma keeps_ret {A} (a : A) : keeps R (ret a).
Proof. intros s. apply R_refl. Qed.

Lemma keeps_raise {A} (e : exn) : keeps R (@raise A e).
Proof. intros s. apply R_refl. Qed.

Lemma keeps_get : keeps R get_state.
Proof. intros s. apply R_refl. Qed.

Lemma keeps_bind {A B} (m : M A) (k : A -> M B) :
  keeps R m -> (forall a, keeps R (k a)) -> keeps R (bind m k).
Proof.
  intros Hm Hk s. unfold bind. specialize (Hm s).
  destruct (m s) as [a s'|e s']; simpl in *.
  - eapply R_trans; [exact Hm|apply Hk].
  - exact Hm.
Qed.

Lemma keeps_for_each {A} (l : list A) (body : A -> M unit) :
  (forall x, keeps R (body x)) -> keeps R (for_each l body).
Proof.
  intros Hb. induction l as [|x l IH]; simpl.
  - apply keeps_ret.
  - apply keeps_bind; [apply Hb|intros _; exact IH].
Qed.

End keeps.

Lemma registered_ids_app (l1 l2 : list Event) :
  registered_ids (l1 ++ l2) = (registered_ids l1 ++ registered_ids l2)%list.
Proof. induction l1 as [|[m|i|i|] l1 IH]; simpl; rewrite ?IH; reflexivity. Qed.

Lemma ids_fresh_weaken (p : option Z) (l : list Event) : ids_fresh None l -> ids_fresh p l.
Proof.
  destruct l as [|[m|i|i|] l]; simpl; auto.
  intros [H1 H2]. split; [|exact H2]. intros i Hi. destruct (H1 i Hi) as [?|?]; [auto|discriminate].
Qed.

Lemma ids_fresh_app (p : option Z) (l1 l2 : list Event) :
  ids_fresh p l1 -> ids_fresh None l2 -> ids_fresh p (l1 ++ l2).
Proof.
  revert p. induction l1 as [|[m|i|i|] l1 IH]; intros p H1 H2; simpl in *.
  - apply ids_fresh_weaken, H2.
  - destruct H1 as [Ha Hb]. split; [exact Ha|apply IH; assumption].
  - apply IH; assumption.
  - apply IH; assumption.
  - apply IH; assumption.
Qed.

Lemma sorted_app_range (n0 n1 n2 : Z) (a b : list Z) :
  StronglySorted Z.lt a -> Forall (fun i => n0 <= i < n1) a ->
  StronglySorted Z.lt b -> Forall (fun i => n1 <= i < n2) b ->
  StronglySorted Z.lt (a ++ b).
Proof.
  intros Sa Fa Sb Fb. induction Sa as [|x a Sa IH Hx]; simpl; [exact Sb|].
  apply Forall_cons in Fa as [Fx Fa]. constructor; [apply IH, Fa|].
  apply Forall_app. split; [exact Hx|].
  eapply Forall_impl; [exact Fb|]. simpl. intros; lia.
Qed.

Lemma trace_ok_nil (tok : option wire) (n0 n1 : Z) : trace_ok tok n0 n1 [].
Proof. repeat split; constructor. Qed.

Lemma trace_ok_app (tok : option wire) (n0 n1 n2 : Z) (l1 l2 : list Event) :
  n0 <= n1 <= n2 ->
  trace_ok tok n0 n1 l1 -> trace_ok tok n1 n2 l2 -> trace_ok tok n0 n2 (l1 ++ l2).
Proof.
  intros Hn (S1 & F1 & I1 & Q1) (S2 & F2 & I2 & Q2). unfold trace_ok.
  rewrite registered_ids_app, sent_of_app. repeat split.
  - eapply sorted_app_range; eauto.
  - apply Forall_app. split; (eapply Forall_impl; [eassumption|simpl; intros; lia]).
  - apply ids_fresh_app; assumption.
  - apply Forall_app. split; assumption.
Qed.

Lemma silent_refl (s : State) : silent s s.
Proof. repeat split. Qed.

Lemma silent_trans (a b c : State) : silent a b -> silent b c -> silent a c.
Proof. intros (H1 & H2 & H3) (H4 & H5 & H6). repeat split; congruence. Qed.

Lemma steady_refl (s : State) : steady s s.
Proof.
  unfold steady. split; [reflexivity|]. split; [lia|]. exists [].
  split; [symmetry; apply app_nil_r|apply trace_ok_nil].
Qed.

Lemma steady_trans (a b c : State) : steady a b -> steady b c -> steady a c.
Proof.
  intros (C1 & N1 & l1 & E1 & T1) (C2 & N2 & l2 & E2 & T2).
  split; [congruence|]. split; [lia|]. exists (l1 ++ l2)%list.
  split; [rewrite E2, E1, app_assoc; reflexivity|].
  rewrite C1 in T2. eapply trace_ok_app; [|eassumption|eassumption]. lia.
Qed.

Lemma silent_steady (a b : State) : silent a b -> steady a b.
Proof.
  intros (E & C & N). split; [exact C|]. split; [lia|]. exists [].
  split; [rewrite E; symmetry; apply app_nil_r|].
  rewrite N. apply trace_ok_nil.
Qed.

Lemma steady_entry (a b : State) : steady a b -> entry_ok a b.
Proof.
  intros (C & N & l & E & T). split; [exact N|]. exists l. rewrite C. auto.
Qed.

Lemma entry_then_steady (a b c : State) : entry_ok a b -> steady b c -> entry_ok a c.
Proof.
  intros (N1 & l1 & E1 & T1) (C2 & N2 & l2 & E2 & T2).
  split; [lia|]. exists (l1 ++ l2)%list.
  split; [rewrite E2, E1, app_assoc; reflexivity|].
  rewrite C2. eapply trace_ok_app; [|eassumption|eassumption]. lia.
Qed.

Lemma keeps_silent_steady {A} (m : M A) : keeps silent m -> keeps steady m.
Proof. intros H s. apply silent_steady, H. Qed.

Ltac steady_bind := apply (keeps_bind steady steady_trans).
Ltac silent_bind := apply (keeps_bind silent silent_trans).
Ltac steady_ret := apply (keeps_ret steady steady_refl).
Ltac silent_ret := apply (keeps_ret silent silent_refl).
Ltac steady_raise := apply (keeps_raise steady steady_refl).
Ltac silent_raise := apply (keeps_raise silent silent_refl).

Lemma keeps_by_view_getitem (vid : Z) : keeps silent (by_view_getitem vid).
Proof.
  intros s. unfold by_view_getitem. mrun.
  destruct (evals_by_view s !! vid); repeat split.
Qed.

Lemma keeps_mutate_eval (i : Z) (f : Eval -> Eval) : keeps silent (mutate_eval i f).
Proof. intros s. repeat split. Qed.

Lemma keeps_lookup_registered (m : msg) : keeps silent (lookup_registered m).
Proof.
  intros s. unfold lookup_registered.
  destruct (m !! "id") as [[| | |]|]; repeat split.
Qed.

Lemma interrupt_shape (tok : option wire) (e : Eval) :
  request_shape tok (interrupt_request e).
Proof.
  exists "interrupt". split; [reflexivity|]. left.
  repeat split; eexists; reflexivity.
Qed.

Lemma interrupt_command_shape (tok : option wire) (e : Eval) :
  request_shape tok (interrupt_command_request e).
Proof.
  exists "interrupt". split; [reflexivity|]. left.
  repeat split; eexists; reflexivity.
Qed.

Lemma steady_send (s : State) (r : request) :
  request_shape (csession s) r ->
  (forall i, r !! "id" = Some (Some (WInt i)) -> 1 <= i <= 4) ->
  steady s (final (send r s)).
Proof.
  intros Hshape Hid. unfold send. mrun. destruct (socket s); [|apply steady_refl].
  split; [reflexivity|]. split; [simpl; lia|]. exists [EvSend r].
  split; [reflexivity|]. repeat split; simpl; auto; constructor; auto.
Qed.

Lemma keeps_send_interrupt (e : Eval) : keeps steady (send (interrupt_request e)).
Proof.
  intros s. apply steady_send; [apply interrupt_shape|].
  intros i H. discriminate.
Qed.

Lemma steady_unregister (i : Z) (f : list (Z * Eval) -> list (Z * Eval)) :
  keeps steady (modify (fun s => log (EvUnregister i) (set_evals f s))).
Proof.
  intros s. split; [reflexivity|]. split; [simpl; lia|]. exists [EvUnregister i].
  split; [reflexivity|]. repeat split; simpl; auto; constructor.
Qed.

Lemma keeps_erase_eval (e : Eval) : keeps steady (erase_eval e).
Proof.
  unfold erase_eval. steady_bind; [apply keeps_get, steady_refl|intros a].
  destruct (od_get (id e) (evals a)); [|steady_raise].
  steady_bind; [apply steady_unregister|intros _].
  steady_bind.
  - destruct (view e) as [vid|]; [|steady_ret].
    steady_bind; [apply keeps_silent_steady, keeps_by_view_getitem|intros d].
    destruct (od_get (id e) d); [|steady_raise].
    apply keeps_silent_steady. intros s. repeat split.
  - intros _. destruct (status e); try steady_ret.
    destruct (truthy_opt (session e)); [apply keeps_send_interrupt|steady_ret].
Qed.

Lemma keeps_erase_evals (predicate : Eval -> bool) (v : option Z) :
  keeps steady (erase_evals predicate v).
Proof.
  unfold erase_evals. steady_bind.
  - destruct v as [vid|].
    + apply keeps_silent_steady, keeps_by_view_getitem.
    + steady_bind; [apply keeps_get, steady_refl|intros a; steady_ret].
  - intros items. apply (keeps_for_each steady steady_refl steady_trans).
    intros kv. destruct (predicate (snd kv)); [apply keeps_erase_eval|steady_ret].
Qed.

Lemma keeps_handle_new_session (m : msg) : keeps silent (handle_new_session m).
Proof.
  unfold handle_new_session. destruct (m !! "new-session"); [|silent_ret].
  silent_bind; [apply keeps_lookup_registered|intros [e|]]; [|silent_ret].
  silent_bind; [apply keeps_mutate_eval|intros _; silent_ret].
Qed.

Lemma keeps_handle_value (m : msg) : keeps silent (handle_value m).
Proof.
  unfold handle_value. destruct (m !! "value"); [|silent_ret].
  silent_bind; [apply keeps_lookup_registered|intros [e|]]; [|silent_ret].
  silent_bind; [apply keeps_mutate_eval|intros _; silent_ret].
Qed.

Lemma keeps_handle_exception (m : msg) : keeps silent (handle_exception m).
Proof.
  unfold handle_exception.
  silent_bind; [apply keeps_lookup_registered|intros [e|]]; [|silent_ret].
  destruct (_ && _).
  - unfold exception_structured.
    silent_bind; [apply keeps_get, silent_refl|intros a].
    destruct (structured_summary (ext a) m e); [|silent_raise].
    silent_bind; [apply keeps_mutate_eval|intros _].
    silent_bind; [apply keeps_mutate_eval|intros _; silent_ret].
  - destruct (m !! "root-ex").
    { silent_bind; [apply keeps_mutate_eval|intros _; silent_ret]. }
    destruct (m !! "ex").
    { silent_bind; [apply keeps_mutate_eval|intros _; silent_ret]. }
    destruct (m !! "status") as [st|]; [|silent_ret].
    destruct (str_in "namespace-not-found" st) as [[|]|];
      [|silent_ret|silent_raise].
    destruct (m !! "ns"); [|silent_raise].
    silent_bind; [apply keeps_get, silent_refl|intros a].
    silent_bind; [apply keeps_mutate_eval|intros _; silent_ret].
Qed.

Lemma keeps_handle_lookup (m : msg) : keeps silent (handle_lookup m).
Proof.
  unfold handle_lookup. destruct (m !! "info"); [|silent_ret].
  silent_bind; [apply keeps_lookup_registered|intros [e|]]; [|silent_ret].
  silent_bind; [apply keeps_mutate_eval|intros _].
  silent_bind; [apply keeps_get, silent_refl|intros a].
  destruct (lookup_popup (ext a) e w); [silent_raise|].
  silent_bind; [apply keeps_mutate_eval|intros _; silent_ret].
Qed.

Lemma keeps_handle_done (m : msg) : keeps steady (handle_done m).
Proof.
  unfold handle_done.
  steady_bind; [apply keeps_silent_steady, keeps_lookup_registered|intros [e|]];
    [|steady_ret].
  destruct (m !! "status") as [st|]; [|steady_ret].
  destruct (str_in "done" st) as [[|]|]; [|steady_ret|steady_raise].
  destruct (status e); try steady_ret;
    (steady_bind; [apply keeps_erase_eval|intros _; steady_ret]).
Qed.

Lemma keeps_orelse (a b : M bool) :
  keeps steady a -> keeps steady b -> keeps steady (orelse a b).
Proof.
  intros Ha Hb. unfold orelse. steady_bind; [exact Ha|intros [|]]; [steady_ret|exact Hb].
Qed.

Lemma keeps_later_handlers (m : msg) :
  keeps steady
    (orelse (handle_new_session m)
       (orelse (handle_value m)
          (orelse (handle_exception m)
             (orelse (handle_lookup m) (handle_done m))))).
Proof.
  apply keeps_orelse; [apply keeps_silent_steady, keeps_handle_new_session|].
  apply keeps_orelse; [apply keeps_silent_steady, keeps_handle_value|].
  apply keeps_orelse; [apply keeps_silent_steady, keeps_handle_exception|].
  apply keeps_orelse; [apply keeps_silent_steady, keeps_handle_lookup|].
  apply keeps_handle_done.
Qed.

Lemma handshake_requests_shape (s : State) :
  (request_shape (csession s) clone_request
   /\ forall i, clone_request !! "id" = Some (Some (WInt i)) -> 1 <= i <= 4)
  /\ (request_shape (csession s) (load_file_request s)
      /\ forall i, load_file_request s !! "id" = Some (Some (WInt i)) -> 1 <= i <= 4)
  /\ (request_shape (csession s) (add_middleware_request s)
      /\ forall i, add_middleware_request s !! "id" = Some (Some (WInt i)) -> 1 <= i <= 4)
  /\ (request_shape (csession s) (eval_shared_request s)
      /\ forall i, eval_shared_request s !! "id" = Some (Some (WInt i)) -> 1 <= i <= 4)
  /\ (request_shape (csession s) (shadow_init_request s)
      /\ forall i, shadow_init_request s !! "id" = Some (Some (WInt i)) -> 1 <= i <= 4).
Proof.
  split; [|split; [|split; [|split]]].
  - split.
    + exists "clone". split; [reflexivity|]. right. split; [discriminate|]. exists 1.
      split; [reflexivity|]. right. auto.
    + intros i H. change (clone_request !! "id") with (Some (Some (WInt 1))) in H.
      injection H as <-. lia.
  - split.
    + exists "load-file". split; [reflexivity|]. right. split; [discriminate|]. exists 2.
      split; [reflexivity|]. left. reflexivity.
    + intros i H. change (load_file_request s !! "id") with (Some (Some (WInt 2))) in H.
      injection H as <-. lia.
  - split.
    + exists "add-middleware". split; [reflexivity|]. right. split; [discriminate|].
      exists (if truthy_opt (eval_shared (ext s)) then 3 else 4).
      split; [reflexivity|]. left. reflexivity.
    + intros i H.
      change (add_middleware_request s !! "id")
        with (Some (Some (WInt (if truthy_opt (eval_shared (ext s)) then 3 else 4)))) in H.
      injection H as <-. destruct (truthy_opt _); lia.
  - split.
    + exists "eval". split; [reflexivity|]. right. split; [discriminate|]. exists 4.
      split; [reflexivity|]. left. reflexivity.
    + intros i H. change (eval_shared_request s !! "id") with (Some (Some (WInt 4))) in H.
      injection H as <-. lia.
  - split.
    + exists "eval". split; [reflexivity|]. right. split; [discriminate|]. exists 2.
      split; [reflexivity|]. left. reflexivity.
    + intros i H. change (shadow_init_request s !! "id") with (Some (Some (WInt 2))) in H.
      injection H as <-. lia.
Qed.

Lemma steady_log_send (s : State) (r : request) :
  request_shape (csession s) r ->
  (forall i, r !! "id" = Some (Some (WInt i)) -> 1 <= i <= 4) ->
  steady s (log (EvSend r) s).
Proof.
  intros Hshape Hid. split; [reflexivity|]. split; [simpl; lia|]. exists [EvSend r].
  split; [reflexivity|]. repeat split; simpl; auto; constructor; auto.
Qed.

Lemma steady_send_status (s : State) (r : request) (st : option string) (b : bool) :
  request_shape (csession s) r ->
  (forall i, r !! "id" = Some (Some (WInt i)) -> 1 <= i <= 4) ->
  steady s (final ((send r ;;; set_status st ;;; ret b) s)).
Proof.
  intros Hshape Hid. unfold send. mrun. destruct (socket s); [|apply steady_refl].
  eapply steady_trans; [apply (steady_log_send s r Hshape Hid)|].
  apply silent_steady. repeat split.
Qed.

Lemma steady_send_ret (s : State) (r : request) (b : bool) :
  request_shape (csession s) r ->
  (forall i, r !! "id" = Some (Some (WInt i)) -> 1 <= i <= 4) ->
  steady s (final ((send r ;;; ret b) s)).
Proof.
  intros Hshape Hid. unfold send. mrun. destruct (socket s); [|apply steady_refl].
  apply (steady_log_send s r Hshape Hid).
Qed.

Lemma entry_new_session (s : State) (v : option wire) : entry_ok s (set_csession v s).
Proof.
  split; [simpl; lia|]. exists []. split; [symmetry; apply app_nil_r|apply trace_ok_nil].
Qed.

Lemma handle_connect_default_entry (m : msg) (s : State) :
  entry_ok s (final (handle_connect_default m s)).
Proof.
  destruct (handshake_requests_shape (set_csession (m !! "new-session") s))
    as (_ & [L1 L2] & _).
  destruct (handshake_requests_shape s) as (_ & _ & [A1 A2] & [E1 E2] & _).
  unfold handle_connect_default.
  destruct (eq_int 1 (m !! "id") && _).
  { eapply entry_then_steady; [apply (entry_new_session s (m !! "new-session"))|].
    exact (steady_send_status _ _ (Some "🌓 Uploading middlewares") true L1 L2). }
  destruct (eq_int 2 (m !! "id") && _).
  { apply steady_entry.
    exact (steady_send_status _ _ (Some "🌔 Adding middlewares") true A1 A2). }
  destruct (eq_int 3 (m !! "id") && _).
  { apply steady_entry. exact (steady_send_ret _ _ false E1 E2). }
  destruct (eq_int 4 (m !! "id") && _).
  { apply steady_entry, silent_steady. repeat split. }
  apply steady_entry, steady_refl.
Qed.

Lemma handle_connect_entry (m : msg) (s : State) :
  entry_ok s (final (handle_connect m s)).
Proof.
  destruct (handshake_requests_shape (set_csession (m !! "new-session") s))
    as (_ & _ & _ & _ & [S1 S2]).
  pose proof (handle_connect_default_entry m s) as Hd.
  unfold handle_connect. mrun. destruct (profile s) as [[|]|]; try exact Hd.
  destruct (eq_int 1 (m !! "id") && _).
  { eapply entry_then_steady; [apply (entry_new_session s (m !! "new-session"))|].
    exact (steady_send_ret _ _ true S1 S2). }
  destruct (eq_int 2 (m !! "id") && _).
  { apply steady_entry, silent_steady. repeat split. }
  exact Hd.
Qed.

Lemma handle_msg_entry (m : msg) (s : State) : entry_ok s (final (handle_msg m s)).
Proof.
  unfold handle_msg.
  destruct (truncation_worklist m) as [keys|]; [|apply steady_entry, steady_refl].
  destruct (truncate_all keys m) as [e|m']; [apply steady_entry, steady_refl|].
  pose proof (handle_connect_entry m' s) as Hc.
  unfold orelse at 1. unfold bind at 1 2.
  destruct (handle_connect m' s) as [[|] s1|e s1]; cbn [final] in *; try exact Hc.
  pose proof (keeps_later_handlers m' s1) as Hl.
  destruct (orelse _ _ s1) as [b s2|e s2]; cbn [final] in *;
    eapply entry_then_steady; eauto.
Qed.

(** *** Requests that carry the id of a new record *)

Lemma middleware_opts_none (s : State) (k : string) :
  k = "op" \/ k = "id" \/ k = "session" -> get_middleware_opts s !! k = None.
Proof.
  unfold get_middleware_opts.
  intros [->|[->| ->]]; destruct (profile s) as [[|]|]; reflexivity.
Qed.

Lemma eval_msg_request_shape (s : State) (e : Eval) (m : request) (o : string) :
  m !! "op" = Some (Some (WStr o)) -> o <> "" -> o <> "interrupt" ->
  request_shape (csession s) (eval_msg_request s e m)
  /\ eval_msg_request s e m !! "id" = Some (Some (WInt (id e))).
Proof.
  intros Hop Ho Hni. unfold eval_msg_request.
  assert (Hid : (get_middleware_opts s ∪
                 <["session" := csession s]>
                   (<["id" := Some (WInt (id e))]>
                      (filter (fun kv => truthy_opt (snd kv) = true) m))) !! "id"
                = Some (Some (WInt (id e)))).
  { rewrite lookup_union_r by (apply middleware_opts_none; auto).
    rewrite lookup_insert_ne by discriminate. apply lookup_insert_eq. }
  split; [|exact Hid].
  exists o. split.
  - rewrite lookup_union_r by (apply middleware_opts_none; auto).
    rewrite !lookup_insert_ne by discriminate.
    apply map_lookup_filter_Some_2; [exact Hop|].
    simpl. destruct (String.eqb_spec o ""); [contradiction|reflexivity].
  - right. split; [exact Hni|]. exists (id e). split; [exact Hid|]. left.
    rewrite lookup_union_r by (apply middleware_opts_none; auto).
    apply lookup_insert_eq.
Qed.

Lemma eval_code_request_shape (tok : option wire) (s : State) (e : Eval)
    (src : string) (nspace : option string) :
  request_shape tok (eval_code_request s e src nspace)
  /\ eval_code_request s e src nspace !! "id" = Some (Some (WInt (id e))).
Proof.
  unfold eval_code_request.
  assert (Hid : forall k v,
             ({[ "op" := Some (WStr "eval"); "id" := Some (WInt (id e));
                 "ns" := Some (WStr (match nspace with
                                     | Some n => if String.eqb n "" then "user" else n
                                     | None => "user"
                                     end));
                 "code" := Some (WStr src) ]} : request) !! k = v ->
             k = "op" \/ k = "id" \/ k = "session" ->
             (get_middleware_opts s ∪
              ({[ "op" := Some (WStr "eval"); "id" := Some (WInt (id e));
                  "ns" := Some (WStr (match nspace with
                                      | Some n => if String.eqb n "" then "user" else n
                                      | None => "user"
                                      end));
                  "code" := Some (WStr src) ]} : request)) !! k = v).
  { intros k v Hk Hin. rewrite lookup_union_r by (apply middleware_opts_none; exact Hin).
    exact Hk. }
  split; [|apply Hid; [reflexivity|auto]].
  exists "eval". split; [apply Hid; [reflexivity|auto]|].
  right. split; [discriminate|]. exists (id e). split; [apply Hid; [reflexivity|auto]|].
  right. split; [apply Hid; [reflexivity|auto]|auto].
Qed.

Lemma lookup_request_shape (s : State) (e : Eval) (sym : string) (nspace : option string) :
  request_shape (csession s) (lookup_request s e sym nspace)
  /\ lookup_request s e sym nspace !! "id" = Some (Some (WInt (id e))).
Proof.
  split; [|reflexivity].
  exists "lookup". split; [reflexivity|]. right. split; [discriminate|]. exists (id e).
  split; [reflexivity|]. left. reflexivity.
Qed.

(** A step that registers the record just allocated and perhaps sends the
    request that carries its id. *)
Lemma steady_registered (s s' : State) (r : request) :
  csession s' = csession s ->
  next_id s' = next_id s + 1 ->
  request_shape (csession s) r ->
  r !! "id" = Some (Some (WInt (next_id s))) ->
  events s' = (events s ++ [EvRegister (next_id s)])%list
  \/ events s' = (events s ++ [EvRegister (next_id s); EvSend r])%list ->
  steady s s'.
Proof.
  intros Hc Hn Hshape Hid Hev. split; [exact Hc|]. split; [lia|].
  destruct Hev as [Hev|Hev]; eexists; (split; [exact Hev|]); rewrite Hn.
  - repeat split; simpl; auto; repeat constructor; lia.
  - unfold trace_ok. simpl. split; [repeat constructor|].
    split; [repeat constructor; lia|]. split.
    + split; [|exact I]. intros i Hi. right. congruence.
    + repeat constructor. exact Hshape.
Qed.

(** The tail shared by [eval_msg] and the eval-code command. *)
Lemma steady_register_send_phase (s : State) (e : Eval) (r : request)
    (f : wire -> Eval -> Eval) :
  id e = next_id s ->
  request_shape (csession s) r ->
  r !! "id" = Some (Some (WInt (next_id s))) ->
  steady s (final ((add_eval e ;;; send r ;;; p <- phase ;; mutate_eval (id e) (f p))
                     (set_next_id (next_id s + 1) s))).
Proof.
  intros Hide Hshape Hid.
  apply (steady_registered s _ r); try assumption;
    unfold add_eval, by_view_getitem, send, phase, mutate_eval; mrun; rewrite Hide;
    destruct (view e) as [vid|]; mrun;
    try destruct (evals_by_view s !! vid); mrun;
    destruct (socket s); mrun;
    try destruct (nth_error _ _); cbn [final]; mrun;
    rewrite <- ?app_assoc;
    first [reflexivity | left; reflexivity | right; reflexivity].
Qed.

Lemma steady_register_send (s : State) (e : Eval) (r : request) :
  id e = next_id s ->
  request_shape (csession s) r ->
  r !! "id" = Some (Some (WInt (next_id s))) ->
  steady s (final ((add_eval e ;;; send r) (set_next_id (next_id s + 1) s))).
Proof.
  intros Hide Hshape Hid.
  apply (steady_registered s _ r); try assumption;
    unfold add_eval, by_view_getitem, send; mrun; rewrite Hide;
    destruct (view e) as [vid|]; mrun;
    try destruct (evals_by_view s !! vid); mrun;
    destruct (socket s); cbn [final]; mrun;
    rewrite <- ?app_assoc;
    first [reflexivity | left; reflexivity | right; reflexivity].
Qed.

(** *** The commands *)

Lemma bind_Ok {A B} (m : M A) (k : A -> M B) (s s' : State) (a : A) :
  m s = Ok a s' -> bind m k s = k a s'.
Proof. intros H. unfold bind. rewrite H. reflexivity. Qed.

Lemma add_eval_ok (e : Eval) (s : State) :
  exists s', add_eval e s = Ok tt s' /\ csession s' = csession s.
Proof.
  unfold add_eval, by_view_getitem. mrun.
  destruct (view e) as [vid|]; mrun; [|eexists; split; reflexivity].
  destruct (evals_by_view s !! vid); mrun; eexists; split; reflexivity.
Qed.

Lemma keeps_eval_msg (vid : Z) (src : string) (touches_line : Eval -> bool)
    (m : request) (o : string) :
  m !! "op" = Some (Some (WStr o)) -> o <> "" -> o <> "interrupt" ->
  keeps steady (eval_msg vid src touches_line m).
Proof.
  intros Hop Ho Hni. unfold eval_msg.
  steady_bind; [apply keeps_erase_evals|intros _]. intros s.
  set (e0 := mkEval (next_id s) false (Some vid) Pending src None None None None None).
  set (s1 := set_next_id (next_id s + 1) s).
  destruct (eval_msg_request_shape s1 e0 m o Hop Ho Hni) as [Hshape Hid].
  exact (steady_register_send_phase s
           (with_msg (Some (eval_msg_request s1 e0 m)) e0)
           (eval_msg_request s1 e0 m)
           (fun p => with_status_value Pending (Some p))
           eq_refl Hshape Hid).
Qed.

Lemma keeps_eval (vid : Z) (region_text : string) (src : option string)
    (touches_line : Eval -> bool) (nspace : option string) (line column : Z)
    (file : option string) :
  keeps steady (eval vid region_text src touches_line nspace line column file).
Proof.
  unfold eval. steady_bind; [apply keeps_get, steady_refl|intros a].
  apply (keeps_eval_msg _ _ _ _
           (if is_shadow a || eval_in_session a then "eval" else "clone-eval-close")).
  - reflexivity.
  - destruct (is_shadow a || eval_in_session a); discriminate.
  - destruct (is_shadow a || eval_in_session a); discriminate.
Qed.

Lemma keeps_eval_buffer (vid : Z) (text : string) (touches_line : Eval -> bool)
    (file_name : option string) (base_name : string) :
  keeps steady (eval_buffer vid text touches_line file_name base_name).
Proof.
  unfold eval_buffer. apply (keeps_eval_msg _ _ _ _ "load-file").
  - reflexivity.
  - discriminate.
  - discriminate.
Qed.

Lemma keeps_eval_code (src : string) (nspace : option string) :
  keeps steady (eval_code src nspace).
Proof.
  unfold eval_code.
  steady_bind; [apply keeps_erase_evals|intros _]. intros s.
  set (e0 := mkEval (next_id s) true None Pending src None None None None None).
  set (s1 := set_next_id (next_id s + 1) s).
  destruct (eval_code_request_shape (csession s) s1 e0 src nspace) as [Hshape Hid].
  exact (steady_register_send_phase s
           (with_msg (Some (eval_code_request s1 e0 src nspace)) e0)
           (eval_code_request s1 e0 src nspace)
           (fun p => with_status_value Pending (Some p))
           eq_refl Hshape Hid).
Qed.

Lemma keeps_interrupt_eval (vid : Z) : keeps steady (interrupt_eval vid).
Proof.
  unfold interrupt_eval.
  steady_bind; [apply keeps_silent_steady, keeps_by_view_getitem|intros items].
  apply (keeps_for_each steady steady_refl steady_trans). intros kv.
  destruct (status (snd kv)); try steady_ret.
  steady_bind.
  - intros s. apply steady_send; [apply interrupt_command_shape|].
    intros i H. discriminate.
  - intros _. apply keeps_silent_steady, keeps_mutate_eval.
Qed.

Lemma keeps_find_eval (vid : Z) (touches : Eval -> bool) : keeps silent (find_eval vid touches).
Proof.
  unfold find_eval. silent_bind; [apply keeps_by_view_getitem|intros items; silent_ret].
Qed.

Lemma keeps_toggle_symbol (vid : Z) (touches touches_line : Eval -> bool)
    (sym nspace : option string) :
  keeps steady (toggle_symbol vid touches touches_line sym nspace).
Proof.
  unfold toggle_symbol.
  steady_bind; [apply keeps_silent_steady, keeps_find_eval|intros found].
  assert (Hlookup : keeps steady
            match sym with
            | Some sy =>
                erase_evals touches_line (Some vid) ;;;
                e <- new_Eval vid sy ;;
                add_eval e ;;;
                s <- get_state ;;
                send (lookup_request s e sy nspace)
            | None => ret tt
            end).
  { destruct sym as [sy|]; [|steady_ret].
    steady_bind; [apply keeps_erase_evals|intros _]. intros s.
    set (e0 := mkEval (next_id s) false (Some vid) Pending sy None None None None None).
    set (s1 := set_next_id (next_id s + 1) s).
    destruct (lookup_request_shape s e0 sy nspace) as [Hshape Hid].
    pose proof (steady_register_send s e0 (lookup_request s e0 sy nspace)
                  eq_refl Hshape Hid) as H.
    change (steady s (final ((add_eval e0 ;;;
                              s' <- get_state ;;
                              send (lookup_request s' e0 sy nspace)) s1))).
    fold s1 in H. destruct (add_eval_ok e0 s1) as (st & Hadd & Hcs).
    rewrite (bind_Ok _ _ _ _ _ Hadd) in H. rewrite (bind_Ok _ _ _ _ _ Hadd).
    change (steady s (final (send (lookup_request st e0 sy nspace) st))).
    replace (lookup_request st e0 sy nspace) with (lookup_request s e0 sy nspace);
      [exact H|].
    unfold lookup_request. rewrite Hcs. reflexivity. }
  destruct found as [e0|]; [|exact Hlookup].
  destruct (phantom_id e0) as [p|]; [|exact Hlookup].
  destruct (negb (p =? 0)); [apply keeps_erase_eval|exact Hlookup].
Qed.

Lemma keeps_connect (h : option string) (p : option wire) (pr : Profile)
    (build : option string) : keeps silent (connect h p pr build).
Proof. intros s. repeat split. Qed.

Lemma keeps_read_loop_open : keeps steady read_loop_open.
Proof.
  intros s. destruct (handshake_requests_shape s) as ([C1 C2] & _).
  unfold read_loop_open, send. mrun. destruct (socket s); [|apply steady_refl].
  eapply steady_trans; [apply (steady_log_send s clone_request C1 C2)|].
  apply silent_steady. repeat split.
Qed.

Lemma disconnect_entry (s : State) : entry_ok s (final (disconnect s)).
Proof.
  unfold disconnect, reset. mrun. destruct (socket s); [|apply steady_entry, steady_refl].
  split; [simpl; lia|]. exists [EvClear]. split; [reflexivity|].
  repeat split; simpl; constructor.
Qed.

(** Whatever the entry and the state it starts in, what it adds to the
    trace is in order. *)
Lemma run_op_entry_ok (o : Op) (s : State) : entry_ok s (final (run_op o s)).
Proof.
  destruct o; cbn [run_op].
  - apply steady_entry, silent_steady, keeps_connect.
  - apply steady_entry, keeps_read_loop_open.
  - apply handle_msg_entry.
  - apply disconnect_entry.
  - apply steady_entry, keeps_eval.
  - apply steady_entry, keeps_eval_buffer.
  - apply steady_entry, keeps_eval_code.
  - apply steady_entry, keeps_interrupt_eval.
  - apply steady_entry, keeps_toggle_symbol.
  - apply steady_entry, keeps_erase_evals.
Qed.

(** ** Requests and identifiers over whole runs *)

(** A request of the shape that names [interrupt] as its [op] is of the
    first kind, one that names another [op] of the second. *)
Lemma request_shape_by_op (tok : option wire) (r : request) (o : string) :
  request_shape tok r -> r !! "op" = Some (Some (WStr o)) ->
  if String.eqb o "interrupt" then
    r !! "id" = None
    /\ (exists i, r !! "interrupt-id" = Some (Some (WInt i)))
    /\ is_Some (r !! "session")
  else
    exists i, r !! "id" = Some (Some (WInt i))
      /\ (r !! "session" = Some tok
          \/ (r !! "session" = None /\ (o = "clone" \/ o = "eval"))).
Proof.
  intros (o' & Hop & Hshape) Ho. rewrite Hop in Ho. injection Ho as ->.
  destruct (String.eqb_spec o "interrupt") as [->|Hne].
  - destruct Hshape as [(_ & H)|(Hni & _)]; [exact H|contradiction].
  - destruct Hshape as [(Hi & _)|(_ & H)]; [contradiction|exact H].
Qed.

(** C8 (amended).  Whatever the entry point and the state, every request
    it sends names its [op]; an interrupt carries an integer
    [interrupt-id] and a [session] entry and no [id]; every request that
    is not an interrupt carries an integer [id] and either the
    connection's session token under [session] or, for [clone] and [eval]
    only, no [session] entry. *)
Theorem sent_requests_shape (o : Op) (s : State) :
  exists l, events (final (run_op o s)) = (events s ++ l)%list
    /\ Forall (request_shape (csession (final (run_op o s)))) (sent_of l)
    /\ Forall
         (fun r =>
            exists op, r !! "op" = Some (Some (WStr op))
              /\ if String.eqb op "interrupt" then
                   r !! "id" = None
                   /\ (exists i, r !! "interrupt-id" = Some (Some (WInt i)))
                   /\ is_Some (r !! "session")
                 else
                   exists i, r !! "id" = Some (Some (WInt i))
                     /\ (r !! "session" = Some (csession (final (run_op o s)))
                         \/ (r !! "session" = None /\ (op = "clone" \/ op = "eval"))))
         (sent_of l).
Proof.
  destruct (run_op_entry_ok o s) as (_ & l & Hev & _ & _ & _ & Hshape).
  exists l. split; [exact Hev|]. split; [exact Hshape|].
  eapply List.Forall_impl; [|exact Hshape].
  intros r Hr. pose proof Hr as (op & Hop & _). exists op. split; [exact Hop|].
  exact (request_shape_by_op _ r op Hr Hop).
Qed.

(** C8, as stated, fails: on a ready connection the interrupt command
    sends a request that has no [id] entry. *)
Lemma interrupt_request_has_no_id :
  ready view_state = true
  /\ sent (final (interrupt_eval 7 view_state)) = [interrupt_command_request eval11]
  /\ interrupt_command_request eval11 !! "op" = Some (Some (WStr "interrupt"))
  /\ interrupt_command_request eval11 !! "session" = Some (Some (WStr "child-2"))
  /\ interrupt_command_request eval11 !! "id" = None.
Proof.
  split; [reflexivity|]. split; [vm_compute; reflexivity|]. repeat split.
Qed.

Lemma allocate_run (k : bool) (v : Z) (src : string) (s : State) :
  exists e, allocate k v src s = Ok e (set_next_id (next_id s + 1) s) /\ id e = next_id s.
Proof. destruct k; eexists; split; reflexivity. Qed.

Lemma run_ops_counter (ops : list Op) (s : State) : next_id s <= next_id (run_ops ops s).
Proof.
  revert s. induction ops as [|o ops IH]; intros s; simpl; [lia|].
  destruct (run_op_entry_ok o s) as [Hn _]. specialize (IH (final (run_op o s))). lia.
Qed.

Lemma run_ops_process_ok (ops : list Op) (s : State) :
  process_ok s -> process_ok (run_ops ops s).
Proof.
  revert s. induction ops as [|o ops IH]; intros s Hs; simpl; [exact Hs|].
  apply IH. destruct Hs as (H10 & Hsort & Hrange & Hfresh).
  destruct (run_op_entry_ok o s) as (Hn & l & Hev & S2 & F2 & I2 & _).
  unfold process_ok. rewrite Hev, registered_ids_app. repeat split.
  - lia.
  - eapply sorted_app_range; eauto.
  - apply Forall_app. split; (eapply Forall_impl; [eassumption|simpl; intros; lia]).
  - apply ids_fresh_app; assumption.
Qed.

Lemma ids_fresh_split (p : option Z) (l1 l2 : list Event) (r : request) (i : Z) :
  ids_fresh p (l1 ++ EvSend r :: l2) ->
  r !! "id" = Some (Some (WInt i)) ->
  1 <= i <= 4 \/ (l1 = [] /\ p = Some i) \/ exists l0, l1 = (l0 ++ [EvRegister i])%list.
Proof.
  revert p. induction l1 as [|ev l1 IH]; intros p H Hid.
  - simpl in H. destruct H as [H _]. destruct (H i Hid); auto.
  - assert (Hrest : exists q, ids_fresh q (l1 ++ EvSend r :: l2)
                      /\ (forall j, q = Some j -> ev = EvRegister j)).
    { destruct ev; simpl in H.
      - exists None. split; [apply H|discriminate].
      - exists (Some i0). split; [exact H|]. intros j [= <-]. reflexivity.
      - exists None. split; [exact H|discriminate].
      - exists None. split; [exact H|discriminate]. }
    destruct Hrest as (q & Hq & Hev).
    destruct (IH q Hq Hid) as [?|[[-> Hp]|[l0 ->]]]; auto.
    + right. right. exists []. rewrite (Hev i Hp). reflexivity.
    + right. right. exists (ev :: l0). reflexivity.
Qed.

Lemma sorted_before (a b : list Z) (i : Z) :
  StronglySorted Z.lt (a ++ i :: b) -> Forall (fun j => j < i) a.
Proof.
  induction a as [|x a IH]; simpl; intros H; [constructor|].
  apply StronglySorted_inv in H as [Hs Hx]. constructor; [|apply IH, Hs].
  apply Forall_app in Hx as [_ Hx]. apply Forall_cons in Hx as [Hx _]. exact Hx.
Qed.

Lemma init_process_ok (b : bool) (x : External) : process_ok (init_state b x).
Proof. repeat split; simpl; try lia; constructor. Qed.

(** C5 (amended).  Record identifiers come from one counter: a record
    created after another one, whatever entries ran in between, has a
    strictly greater id.  In every run of a process the ids of the records
    registered rise strictly, and a request that carries an id carries
    either one of the handshake identifiers 1 to 4, which every connect
    uses again, or the id of the record registered just before it, which is
    greater than the ids of all records registered earlier. *)
Theorem record_ids_increase :
  (forall (s : State) (ops : list Op) (k1 k2 : bool) (v1 v2 : Z) (c1 c2 : string),
     exists e1 s1 e2 s2,
       allocate k1 v1 c1 s = Ok e1 s1
       /\ allocate k2 v2 c2 (run_ops ops s1) = Ok e2 s2
       /\ id e1 < id e2)
  /\ (forall (b : bool) (x : External) (ops : list Op),
        let s := run_ops ops (init_state b x) in
        StronglySorted Z.lt (registered_ids (events s))
        /\ Forall (fun i => 10 <= i < next_id s) (registered_ids (events s))
        /\ forall l1 r l2 i,
             events s = (l1 ++ EvSend r :: l2)%list ->
             r !! "id" = Some (Some (WInt i)) ->
             1 <= i <= 4
             \/ exists l0, l1 = (l0 ++ [EvRegister i])%list
                  /\ Forall (fun j => j < i) (registered_ids l0)).
Proof.
  split.
  - intros s ops k1 k2 v1 v2 c1 c2.
    destruct (allocate_run k1 v1 c1 s) as (e1 & H1 & Hid1).
    destruct (allocate_run k2 v2 c2 (run_ops ops (set_next_id (next_id s + 1) s)))
      as (e2 & H2 & Hid2).
    exists e1. eexists. exists e2. eexists. split; [exact H1|]. split; [exact H2|].
    pose proof (run_ops_counter ops (set_next_id (next_id s + 1) s)) as Hmono.
    simpl in Hmono. lia.
  - intros b x ops s.
    destruct (run_ops_process_ok ops _ (init_process_ok b x)) as (_ & Hsort & Hrange & Hfresh).
    fold s in Hsort, Hrange, Hfresh.
    split; [exact Hsort|]. split; [exact Hrange|].
    intros l1 r l2 i Hev Hid. rewrite Hev in Hfresh, Hsort.
    destruct (ids_fresh_split None l1 l2 r i Hfresh Hid) as [?|[[_ ?]|[l0 ->]]];
      [auto|discriminate|].
    right. exists l0. split; [reflexivity|].
    rewrite <- app_assoc, registered_ids_app in Hsort. simpl in Hsort.
    eapply sorted_before. exact Hsort.
Qed.

(** C5, as stated, fails: after a handshake and one evaluation (id 10) a
    reconnect sends [clone] with id 1 again, on a connection that holds a
    socket. *)
Lemma reconnect_reuses_handshake_ids :
  socket (run_ops reconnect_run (init_state false ext0)) = true
  /\ map (fun r : request => r !! "id") (sent (run_ops reconnect_run (init_state false ext0)))
     = [ Some (Some (WInt 1)); Some (Some (WInt 2)); Some (Some (WInt 4));
         Some (Some (WInt 10)); Some (Some (WInt 1)) ]
  /\ registered_ids (events (run_ops reconnect_run (init_state false ext0))) = [10].
Proof. split; [vm_compute; reflexivity|]. split; vm_compute; reflexivity. Qed.

(** * Further properties *)

(** ** The byte source: progress *)

Module SocketIOProgress.
Import SocketIO SocketIOFacts.

(** A read of a positive size on a stream that is not used up hands out
    at least one byte. *)
Lemma read_shrinks (n : Z) (io : t) :
  0 < n -> inv io ->
  (length (undelivered (snd (read n io))) <= length (undelivered io) - 1)%nat
  /\ inv (snd (read n io)).
Proof.
  intros Hn Hinv.
  destruct (read_step n io (Z.lt_le_incl _ _ Hn) Hinv) as (Hsplit & _ & Hinv' & Hempty).
  split; [|exact Hinv']. specialize (Hempty Hn).
  remember (fst (read n io)) as r. remember (undelivered (snd (read n io))) as u'.
  remember (undelivered io) as u. clear Hequ Hequ' Heqr.
  apply (f_equal length) in Hsplit. rewrite length_app in Hsplit.
  destruct r as [|b r].
  - assert (Hu : u = []) by (apply Hempty; reflexivity).
    subst u. cbn [length] in *. lia.
  - cbn [length] in Hsplit. lia.
Qed.

Lemma reads_shrink (ns : list Z) (io : t) :
  Forall (fun n => 0 < n) ns -> inv io ->
  (length (undelivered (snd (reads ns io))) <= length (undelivered io) - length ns)%nat.
Proof.
  revert io. induction ns as [|n ns IH]; intros io Hns Hinv.
  - simpl. lia.
  - apply Forall_cons in Hns as [Hn Hns].
    destruct (read_shrinks n io Hn Hinv) as [Hlen Hinv1].
    cbn [reads]. destruct (read n io) as [r io1]. cbn [fst snd] in *.
    specialize (IH io1 Hns Hinv1). destruct (reads ns io1) as [rs io2].
    cbn [fst snd length] in *. lia.
Qed.

(** X1.  Reading with positive sizes hands out at least one byte per call
    until the stream is used up: as many calls as the stream has bytes
    deliver the whole stream, in order, whatever the sizes asked for and
    whatever the chunks the socket delivers. *)
Theorem reads_deliver_whole_stream (sock : list (list byte)) (ns : list Z) :
  socket_ok sock ->
  Forall (fun n => 0 < n) ns ->
  (length (concat sock) <= length ns)%nat ->
  concat (fst (reads ns (init sock))) = concat sock
  /\ undelivered (snd (reads ns (init sock))) = [].
Proof.
  intros Hsock Hns Hlen.
  assert (Hnn : Forall (fun n => 0 <= n) ns)
    by (eapply Forall_impl; [exact Hns|simpl; intros; lia]).
  destruct (reads_prefix ns (init sock) Hnn (init_inv sock Hsock)) as [Hpre _].
  pose proof (reads_shrink ns (init sock) Hns (init_inv sock Hsock)) as Hsh.
  change (undelivered (init sock)) with (concat sock) in *.
  assert (Hu : undelivered (snd (reads ns (init sock))) = []).
  { destruct (undelivered (snd (reads ns (init sock)))); [reflexivity|simpl in Hsh; lia]. }
  split; [|exact Hu]. rewrite Hu, app_nil_r in Hpre. exact Hpre.
Qed.

Lemma reads_deliver_whole_stream_witness :
  concat (fst (reads [1; 4; 2; 7] (init [[x01; x02; x03]; [x04]]%list)))
  = concat [[x01; x02; x03]; [x04]]%list
  /\ undelivered (snd (reads [1; 4; 2; 7] (init [[x01; x02; x03]; [x04]]%list))) = [].
Proof.
  apply (reads_deliver_whole_stream [[x01; x02; x03]; [x04]]%list [1; 4; 2; 7]).
  - apply List.Forall_cons; [split; [discriminate|simpl; lia]|].
    apply List.Forall_cons; [split; [discriminate|simpl; lia]|].
    apply List.Forall_nil.
  - repeat (apply List.Forall_cons; [lia|]). apply List.Forall_nil.
  - simpl. lia.
Defined.

End SocketIOProgress.

(** ** Truncated keys *)

Lemma truncate_strs (ks : list string) (m : msg) :
  NoDup ks ->
  (forall k, k ∈ ks -> exists v, m !! k = Some (WStr v)) ->
  exists m', truncate_all (WStr <$> ks) m = inr m'
    /\ (forall k v, k ∈ ks -> m !! k = Some (WStr v) -> m' !! k = Some (WStr (v +:+ "...")))
    /\ (forall k, k ∉ ks -> m' !! k = m !! k).
Proof.
  revert m. induction ks as [|k0 ks IH]; intros m Hnd Hall.
  - exists m. split; [reflexivity|]. split; [intros k v Hk; inversion Hk|reflexivity].
  - apply NoDup_cons in Hnd as [Hk0 Hnd].
    destruct (Hall k0 (proj2 (elem_of_cons _ _ _) (or_introl eq_refl))) as [v0 Hv0].
    cbn [fmap list_fmap truncate_all truncate_key]. rewrite Hv0.
    destruct (IH (<[k0 := WStr (v0 +:+ "...")]> m) Hnd) as (m' & Hrun & Hin & Hout).
    { intros k Hk. rewrite lookup_insert_ne by (intros ->; contradiction).
      apply Hall. apply elem_of_cons; right; exact Hk. }
    exists m'. split; [exact Hrun|]. split.
    + intros k v Hk Hv. apply elem_of_cons in Hk as [->|Hk].
      * rewrite (Hout k0 Hk0), lookup_insert_eq. congruence.
      * apply Hin; [exact Hk|]. rewrite lookup_insert_ne by (intros ->; contradiction).
        exact Hv.
    + intros k Hk. apply not_elem_of_cons in Hk as [Hne Hk].
      rewrite (Hout k Hk). apply lookup_insert_ne. congruence.
Qed.

Lemma worklist_plain (ks : list string) :
  truncated_keys ∉ ks ->
  flat_map (fun k => if is_str truncated_keys k then dots else []) (WStr <$> ks) = [].
Proof.
  induction ks as [|k ks IH]; intros Hk; [reflexivity|].
  apply not_elem_of_cons in Hk as [Hne Hk]. cbn [fmap list_fmap flat_map is_str].
  destruct (String.eqb_spec k truncated_keys) as [->|_]; [contradiction|].
  apply IH, Hk.
Qed.

(** X2.  When the list of truncated keys names distinct keys of the
    message whose values are strings, the message that is routed has the
    marker ["..."] appended to exactly those values, once each, and every
    other entry as it came. *)
Theorem truncation_appends_ellipsis (m : msg) (ks : list string) :
  m !! truncated_keys = Some (WList (WStr <$> ks)) ->
  NoDup ks ->
  truncated_keys ∉ ks ->
  (forall k, k ∈ ks -> exists v, m !! k = Some (WStr v)) ->
  exists keys m',
    truncation_worklist m = Some keys
    /\ truncate_all keys m = inr m'
    /\ (forall k v, k ∈ ks -> m !! k = Some (WStr v) ->
        m' !! k = Some (WStr (v +:+ "...")))
    /\ (forall k, k ∉ ks -> m' !! k = m !! k).
Proof.
  intros Htk Hnd Hself Hall.
  destruct (truncate_strs ks m Hnd Hall) as (m' & Hrun & Hin & Hout).
  exists (WStr <$> ks), m'. split; [|auto].
  unfold truncation_worklist. rewrite Htk, worklist_plain by exact Hself.
  rewrite app_nil_r. reflexivity.
Qed.

Lemma truncation_appends_ellipsis_witness :
  exists keys m',
    truncation_worklist truncated_value10 = Some keys
    /\ truncate_all keys truncated_value10 = inr m'
    /\ (forall k v, k ∈ ["value"] -> truncated_value10 !! k = Some (WStr v) ->
        m' !! k = Some (WStr (v +:+ "...")))
    /\ (forall k, k ∉ ["value"] -> m' !! k = truncated_value10 !! k).
Proof.
  apply (truncation_appends_ellipsis truncated_value10 ["value"]).
  - reflexivity.
  - apply NoDup_singleton.
  - intros H. apply list_elem_of_singleton in H. discriminate.
  - intros k H. apply list_elem_of_singleton in H. subst k.
    exists "(0 1 2". reflexivity.
Defined.

Lemma truncate_key_keeps_absent (x : wire) (m m' : msg) (k : string) :
  truncate_key x m = inr m' -> m !! k = None -> m' !! k = None.
Proof.
  intros H Hk. pose proof (truncate_key_same_id x m m' k H) as Hs.
  rewrite Hk in Hs. destruct (m' !! k); [contradiction|reflexivity].
Qed.

Lemma truncate_all_missing (keys : list wire) (m : msg) (k : string) :
  WStr k ∈ keys -> m !! k = None -> exists e, truncate_all keys m = inl e.
Proof.
  revert m. induction keys as [|x keys IH]; intros m Hin Hk; [inversion Hin|].
  cbn [truncate_all]. destruct (truncate_key x m) as [e|m1] eqn:Hx; [eauto|].
  apply elem_of_cons in Hin as [<-|Hin].
  - cbn [truncate_key] in Hx. rewrite Hk in Hx. discriminate.
  - apply IH; [exact Hin|]. eapply truncate_key_keeps_absent; eauto.
Qed.

(** X3.  A message whose list of truncated keys names a key the message
    does not have is not routed at all: [handle_msg] raises and the state
    is as it was, whatever else the message carries. *)
Theorem truncated_key_missing_raises (s : State) (m : msg) (l : list wire) (k : string) :
  m !! truncated_keys = Some (WList l) ->
  WStr k ∈ l ->
  m !! k = None ->
  exists e, handle_msg m s = Raise e s.
Proof.
  intros Htk Hin Hk. unfold handle_msg, truncation_worklist. rewrite Htk.
  destruct (truncate_all_missing
              (l ++ flat_map (fun k => if is_str truncated_keys k then dots else []) l) m k)
    as [e He]; [apply elem_of_app; left; exact Hin|exact Hk|].
  rewrite He. exists e. reflexivity.
Qed.

Lemma truncated_key_missing_raises_witness :
  exists e, handle_msg truncated_missing live_state = Raise e live_state.
Proof.
  apply (truncated_key_missing_raises live_state truncated_missing [WStr "out"] "out").
  - reflexivity.
  - apply list_elem_of_singleton. reflexivity.
  - reflexivity.
Defined.

(** ** Routing priority *)

Lemma od_get_alter_ne {V} (f : V -> V) (k k' : Z) (d : list (Z * V)) :
  k <> k' -> od_get k' (od_alter f k d) = od_get k' d.
Proof.
  intros Hne. induction d as [|[k0 v] d IH]; simpl; [reflexivity|].
  destruct (Z.eqb_spec k0 k) as [->|Hk]; simpl.
  - destruct (Z.eqb_spec k k'); [contradiction|reflexivity].
  - destruct (Z.eqb_spec k0 k'); [reflexivity|exact IH].
Qed.

(** The registry after a field assignment on the record [e]. *)
Lemma mutate_eval_run (s : State) (e : Eval) (f : Eval -> Eval) :
  od_get (id e) (evals s) = Some e ->
  exists s', mutate_eval (id e) f s = Ok tt s'
    /\ od_get (id e) (evals s') = Some (f e)
    /\ (forall k, k <> id e -> od_get k (evals s') = od_get k (evals s))
    /\ events s' = events s
    /\ csession s' = csession s /\ cstatus s' = cstatus s.
Proof.
  intros He. eexists. split; [reflexivity|]. cbn [evals set_by_view set_evals].
  rewrite od_get_alter_eq, He. repeat split.
  intros k Hk. apply od_get_alter_ne. congruence.
Qed.

Lemma handle_msg_untruncated (m : msg) (s : State) :
  m !! truncated_keys = None ->
  handle_msg m s =
    (orelse (handle_connect m)
       (orelse (handle_new_session m)
          (orelse (handle_value m)
             (orelse (handle_exception m)
                (orelse (handle_lookup m) (handle_done m))))) ;;; ret tt) s.
Proof. intros H. unfold handle_msg, truncation_worklist. rewrite H. reflexivity. Qed.

Lemma lookup_registered_found (m : msg) (s : State) (e : Eval) :
  m !! "id" = Some (WInt (id e)) -> od_get (id e) (evals s) = Some e ->
  lookup_registered m s = Ok (Some e) s.
Proof. intros Hid He. unfold lookup_registered. rewrite Hid. mrun. rewrite He. reflexivity. Qed.

(** X4.  A response that carries [new-session] for a registered record is
    claimed by the first handler of the chain: the record gets the session
    and nothing else happens.  A [value], exception fields or a [done]
    status in the same message are not looked at: the record's status and
    value stay as they were, it stays registered and nothing is sent. *)
Theorem new_session_claims_message (s : State) (m : msg) (e : Eval) (tok : wire) :
  m !! truncated_keys = None ->
  handshake_id (m !! "id") = false ->
  m !! "id" = Some (WInt (id e)) ->
  od_get (id e) (evals s) = Some e ->
  m !! "new-session" = Some tok ->
  exists s', handle_msg m s = Ok tt s'
    /\ od_get (id e) (evals s') = Some (with_session (Some tok) e)
    /\ (forall k, k <> id e -> od_get k (evals s') = od_get k (evals s))
    /\ events s' = events s
    /\ csession s' = csession s /\ cstatus s' = cstatus s.
Proof.
  intros Htk Hhs Hid He Hns.
  destruct (mutate_eval_run s e (with_session (Some tok)) He) as (s' & Hrun & Hrest).
  exists s'. split; [|exact Hrest].
  rewrite (handle_msg_untruncated m s Htk).
  unfold orelse at 1. unfold bind at 1 2. rewrite (handle_connect_unknown s m Hhs).
  unfold orelse at 1. unfold bind at 1.
  unfold handle_new_session. rewrite Hns. unfold bind at 1.
  rewrite (lookup_registered_found m s e Hid He). unfold bind at 1. rewrite Hrun.
  reflexivity.
Qed.

Lemma new_session_claims_message_witness :
  exists s', handle_msg new_session10 live_state = Ok tt s'
    /\ od_get (id eval10) (evals s') = Some (with_session (Some (WStr "child-9")) eval10)
    /\ (forall k, k <> id eval10 -> od_get k (evals s') = od_get k (evals live_state))
    /\ events s' = events live_state
    /\ csession s' = csession live_state /\ cstatus s' = cstatus live_state.
Proof.
  apply (new_session_claims_message live_state new_session10 eval10 (WStr "child-9"));
    reflexivity.
Defined.

(** The chain [handle_msg] runs on the message left by the truncation. *)
Lemma route_value (s : State) (m : msg) (e : Eval) (v : wire) :
  handshake_id (m !! "id") = false ->
  m !! "id" = Some (WInt (id e)) ->
  od_get (id e) (evals s) = Some e ->
  m !! "new-session" = None ->
  m !! "value" = Some v ->
  exists s',
    (orelse (handle_connect m)
       (orelse (handle_new_session m)
          (orelse (handle_value m)
             (orelse (handle_exception m)
                (orelse (handle_lookup m) (handle_done m))))) ;;; ret tt) s = Ok tt s'
    /\ od_get (id e) (evals s') = Some (with_status_value Success (Some v) e)
    /\ (forall k, k <> id e -> od_get k (evals s') = od_get k (evals s))
    /\ events s' = events s
    /\ csession s' = csession s /\ cstatus s' = cstatus s.
Proof.
  intros Hhs Hid He Hns Hv.
  destruct (mutate_eval_run s e (with_status_value Success (Some v)) He)
    as (s' & Hrun & Hrest).
  exists s'. split; [|exact Hrest].
  unfold orelse at 1. unfold bind at 1 2. rewrite (handle_connect_unknown s m Hhs).
  unfold orelse at 1. unfold bind at 1.
  unfold handle_new_session. rewrite Hns. unfold ret at 1.
  unfold orelse at 1. unfold bind at 1.
  unfold handle_value. rewrite Hv. unfold bind at 1.
  rewrite (lookup_registered_found m s e Hid He). unfold bind at 1. rewrite Hrun.
  reflexivity.
Qed.

(** X5.  A response that carries [value] (and no [new-session]) for a
    registered record marks the record as succeeded with that value,
    whatever kind of value it is, and the chain goes no further: even when
    the same message has [done] in its status the record stays registered,
    and nothing is sent.  That [handle_msg] then returns is stated for a
    string, the kind of value the redraw of [update] accepts. *)
Theorem value_marks_success (s : State) (m : msg) (e : Eval) (v : wire) :
  m !! truncated_keys = None ->
  handshake_id (m !! "id") = false ->
  m !! "id" = Some (WInt (id e)) ->
  od_get (id e) (evals s) = Some e ->
  m !! "new-session" = None ->
  m !! "value" = Some v ->
  exists s', final (handle_msg m s) = s'
    /\ od_get (id e) (evals s') = Some (with_status_value Success (Some v) e)
    /\ (forall k, k <> id e -> od_get k (evals s') = od_get k (evals s))
    /\ events s' = events s
    /\ csession s' = csession s /\ cstatus s' = cstatus s
    /\ (forall x, v = WStr x -> handle_msg m s = Ok tt s').
Proof.
  intros Htk Hhs Hid He Hns Hv.
  rewrite (handle_msg_untruncated m s Htk).
  destruct (route_value s m e v Hhs Hid He Hns Hv)
    as (s' & Hrun & Hrec & Hrest & Hev & Hsess & Hstat).
  exists s'. rewrite Hrun. split; [reflexivity|]. split; [exact Hrec|].
  split; [exact Hrest|]. split; [exact Hev|]. split; [exact Hsess|].
  split; [exact Hstat|]. intros x _. reflexivity.
Qed.

Lemma value_marks_success_witness :
  exists s', final (handle_msg value10 live_state) = s'
    /\ od_get (id eval10) (evals s')
       = Some (with_status_value Success (Some (WStr "3")) eval10)
    /\ (forall k, k <> id eval10 -> od_get k (evals s') = od_get k (evals live_state))
    /\ events s' = events live_state
    /\ csession s' = csession live_state /\ cstatus s' = cstatus live_state
    /\ (forall x, WStr "3" = WStr x -> handle_msg value10 live_state = Ok tt s').
Proof.
  apply (value_marks_success live_state value10 eval10 (WStr "3")); reflexivity.
Defined.

(** X7.  The truncation is applied before the message is routed: when the
    message lists [value] as truncated, the value the record shows is the
    one received followed by ["..."]. *)
Theorem truncated_value_is_marked (s : State) (m : msg) (e : Eval) (v : string) :
  m !! truncated_keys = Some (WList [WStr "value"]) ->
  handshake_id (m !! "id") = false ->
  m !! "id" = Some (WInt (id e)) ->
  od_get (id e) (evals s) = Some e ->
  m !! "new-session" = None ->
  m !! "value" = Some (WStr v) ->
  exists s', handle_msg m s = Ok tt s'
    /\ od_get (id e) (evals s')
       = Some (with_status_value Success (Some (WStr (v +:+ "..."))) e)
    /\ events s' = events s.
Proof.
  intros Htk Hhs Hid He Hns Hv.
  destruct (truncate_strs ["value"] m) as (m' & Hwl & Hin & Hout).
  - apply NoDup_singleton.
  - intros k Hk. apply list_elem_of_singleton in Hk as ->. eauto.
  - assert (Hne : forall k, k <> "value" -> m' !! k = m !! k).
    { intros k Hk. apply Hout. intros H. apply list_elem_of_singleton in H. contradiction. }
    destruct (route_value s m' e (WStr (v +:+ "..."))) as (s' & Hrun & Hrec & _ & Hev & _).
    + rewrite Hne by discriminate. exact Hhs.
    + rewrite Hne by discriminate. exact Hid.
    + exact He.
    + rewrite Hne by discriminate. exact Hns.
    + apply (Hin "value" v); [apply list_elem_of_singleton; reflexivity|exact Hv].
    + exists s'. split; [|split; assumption].
      unfold handle_msg, truncation_worklist. rewrite Htk.
      change ([WStr "value"] ++ flat_map _ [WStr "value"])%list with (WStr <$> ["value"]).
      rewrite Hwl. exact Hrun.
Qed.

Lemma truncated_value_is_marked_witness :
  exists s', handle_msg truncated_value10 live_state = Ok tt s'
    /\ od_get (id eval10) (evals s')
       = Some (with_status_value Success (Some (WStr ("(0 1 2" +:+ "..."))) eval10)
    /\ events s' = events live_state.
Proof.
  apply (truncated_value_is_marked live_state truncated_value10 eval10 "(0 1 2");
    reflexivity.
Defined.



(** ** The request of a form evaluation *)

Lemma for_each_skip {A} (l : list A) (body : A -> M unit) (s : State) :
  (forall x, body x = ret tt) -> for_each l body s = Ok tt s.
Proof.
  intros H. induction l as [|x l IH]; [reflexivity|].
  cbn [for_each]. rewrite H. exact IH.
Qed.

Lemma erase_evals_nothing (predicate : Eval -> bool) (v : option Z) (s : State) :
  (forall e, predicate e = false) ->
  exists s', erase_evals predicate v s = Ok tt s'
    /\ events s' = events s /\ evals s' = evals s /\ socket s' = socket s
    /\ csession s' = csession s /\ next_id s' = next_id s
    /\ profile s' = profile s /\ ext s' = ext s
    /\ (forall vid, default [] (evals_by_view s' !! vid) = default [] (evals_by_view s !! vid)).
Proof.
  intros Hp. unfold erase_evals.
  assert (Hbody : forall kv : Z * Eval,
             (if predicate (snd kv) then erase_eval (snd kv) else ret tt) = ret tt)
    by (intros kv; rewrite Hp; reflexivity).
  destruct v as [vid|].
  - unfold by_view_getitem. mrun. destruct (evals_by_view s !! vid) as [d|] eqn:Hd.
    + rewrite for_each_skip by exact Hbody. eexists. split; [reflexivity|]. repeat split.
    + rewrite for_each_skip by exact Hbody. eexists. split; [reflexivity|].
      cbn [events evals socket csession next_id profile ext evals_by_view set_by_view].
      repeat split. intros vid'. destruct (decide (vid = vid')) as [<-|Hne].
      * rewrite lookup_insert_eq, Hd. reflexivity.
      * rewrite lookup_insert_ne by exact Hne. reflexivity.
  - mrun. rewrite for_each_skip by exact Hbody. eexists. split; [reflexivity|]. repeat split.
Qed.

Lemma middleware_opts_other (s : State) (k : string) :
  k <> "nrepl.middleware.caught/caught" ->
  k <> "nrepl.middleware.print/print" ->
  k <> "nrepl.middleware.print/quota" ->
  get_middleware_opts s !! k = None.
Proof.
  intros H1 H2 H3. unfold get_middleware_opts.
  destruct (profile s) as [[|]|]; try apply lookup_empty.
  rewrite !lookup_insert_ne by congruence. apply lookup_singleton_ne. congruence.
Qed.

(** The entry [k] of the request [eval_msg] builds from [m], for a key
    other than [id], [session] and the middleware options. *)
Lemma eval_msg_request_entry (s : State) (e : Eval) (m : request) (k : string) :
  k <> "id" -> k <> "session" ->
  k <> "nrepl.middleware.caught/caught" ->
  k <> "nrepl.middleware.print/print" ->
  k <> "nrepl.middleware.print/quota" ->
  eval_msg_request s e m !! k
  = match m !! k with
    | Some v => if truthy_opt v then Some v else None
    | None => None
    end.
Proof.
  intros H1 H2 H3 H4 H5. unfold eval_msg_request.
  rewrite lookup_union_r by (apply middleware_opts_other; assumption).
  rewrite !lookup_insert_ne by congruence.
  destruct (m !! k) as [v|] eqn:Hk.
  - destruct (truthy_opt v) eqn:Hv.
    + apply map_lookup_filter_Some_2; [exact Hk|exact Hv].
    + apply map_lookup_filter_None_2. right. intros x Hx. simpl.
      assert (x = v) by congruence. subst. rewrite Hv. discriminate.
  - apply map_lookup_filter_None_2. left. exact Hk.
Qed.

Lemma register_send_events (s : State) (e : Eval) (r : request)
    (f : wire -> Eval -> Eval) :
  socket s = true ->
  events (final ((add_eval e ;;; send r ;;; p <- phase ;; mutate_eval (id e) (f p)) s))
  = (events s ++ [EvRegister (id e); EvSend r])%list.
Proof.
  intros Hsock. unfold add_eval, by_view_getitem, send, phase, mutate_eval. mrun.
  destruct (view e) as [vid|]; mrun;
    try destruct (evals_by_view s !! vid); mrun;
    rewrite Hsock; mrun;
    destruct (nth_error _ _); cbn [final]; mrun;
    rewrite <- app_assoc; reflexivity.
Qed.

(** X8.  The request of a form evaluation, sent on a held socket when no
    earlier result touches the line: it carries the id of the new record
    and the connection's session token, and of the fields the command
    gathers only the truthy ones.  A column of 0, an unsaved buffer
    without file name and empty code leave no entry in the request. *)
Theorem eval_request_fields (s : State) (vid : Z) (text : string) (src : option string)
    (touches_line : Eval -> bool) (nspace : option string) (line column : Z)
    (file : option string) :
  socket s = true ->
  (forall e, touches_line e = false) ->
  exists r,
    sent (final (eval vid text src touches_line nspace line column file s))
    = (sent s ++ [r])%list
    /\ r !! "id" = Some (Some (WInt (next_id s)))
    /\ r !! "session" = Some (csession s)
    /\ r !! "op" = Some (Some (WStr (if is_shadow s || eval_in_session s
                                      then "eval" else "clone-eval-close")))
    /\ r !! "column" = (if column =? 0 then None else Some (Some (WInt column)))
    /\ r !! "line" = (if line + 1 =? 0 then None else Some (Some (WInt (line + 1))))
    /\ r !! "file" = match file with
                     | Some f => if String.eqb f "" then None else Some (Some (WStr f))
                     | None => None
                     end
    /\ r !! "code" = (if String.eqb (default text src) "" then None
                      else Some (Some (WStr (default text src)))).
Proof.
  intros Hsock Hskip.
  destruct (erase_evals_nothing touches_line (Some vid) s Hskip)
    as (s' & Herase & Hev & _ & Hsock' & Hsess & Hnext & _).
  set (M := eval_form_msg s (default text src) nspace line column file).
  set (e0 := mkEval (next_id s') false (Some vid) Pending text None None None None None).
  set (s1 := set_next_id (next_id s' + 1) s').
  exists (eval_msg_request s1 e0 M).
  split; [|split; [|split; [|split; [|split; [|split; [|split]]]]]].
  - unfold eval. mrun. fold M. unfold eval_msg.
    rewrite (bind_Ok _ _ _ _ _ Herase).
    change (sent (final ((add_eval (with_msg (Some (eval_msg_request s1 e0 M)) e0) ;;;
                          send (eval_msg_request s1 e0 M) ;;;
                          p <- phase ;;
                          mutate_eval (id (with_msg (Some (eval_msg_request s1 e0 M)) e0))
                            (fun e => with_status_value Pending (Some p) e)) s1))
            = (sent s ++ [eval_msg_request s1 e0 M])%list).
    unfold sent.
    rewrite (register_send_events s1 _ _ (fun p e => with_status_value Pending (Some p) e))
      by (cbn [socket s1 set_next_id]; rewrite Hsock'; exact Hsock).
    cbn [events s1 set_next_id]. rewrite Hev, sent_of_app. reflexivity.
  - destruct (eval_msg_request_shape s1 e0 M
                (if is_shadow s || eval_in_session s then "eval" else "clone-eval-close"))
      as [_ Hid];
      [reflexivity|destruct (_ || _); discriminate|destruct (_ || _); discriminate|].
    rewrite Hid. cbn [id e0]. rewrite Hnext. reflexivity.
  - unfold eval_msg_request.
    rewrite lookup_union_r by (apply middleware_opts_none; auto).
    rewrite lookup_insert_eq. cbn [csession s1 set_next_id]. rewrite Hsess. reflexivity.
  - rewrite eval_msg_request_entry by discriminate.
    change (M !! "op") with (Some (Some (WStr (if is_shadow s || eval_in_session s
                                               then "eval" else "clone-eval-close")))).
    destruct (_ || _); reflexivity.
  - rewrite eval_msg_request_entry by discriminate.
    change (M !! "column") with (Some (Some (WInt column))).
    cbn [truthy_opt truthy]. destruct (column =? 0); reflexivity.
  - rewrite eval_msg_request_entry by discriminate.
    change (M !! "line") with (Some (Some (WInt (line + 1)))).
    cbn [truthy_opt truthy]. destruct (line + 1 =? 0); reflexivity.
  - rewrite eval_msg_request_entry by discriminate.
    change (M !! "file") with (Some (WStr <$> file)).
    destruct file as [f|]; cbn [fmap option_fmap option_map truthy_opt truthy]; [|reflexivity].
    destruct (String.eqb f ""); reflexivity.
  - rewrite eval_msg_request_entry by discriminate.
    change (M !! "code") with (Some (Some (WStr (default text src)))).
    cbn [truthy_opt truthy]. destruct (String.eqb (default text src) ""); reflexivity.
Qed.

Lemma eval_request_fields_witness :
  exists r,
    sent (final (eval 7 "(+ 1 2)" None (fun _ => false) (Some "user") 0 0 None live_state))
    = (sent live_state ++ [r])%list
    /\ r !! "id" = Some (Some (WInt (next_id live_state)))
    /\ r !! "session" = Some (csession live_state)
    /\ r !! "op" = Some (Some (WStr (if is_shadow live_state || eval_in_session live_state
                                     then "eval" else "clone-eval-close")))
    /\ r !! "column" = (if 0 =? 0 then None else Some (Some (WInt 0)))
    /\ r !! "line" = (if 0 + 1 =? 0 then None else Some (Some (WInt (0 + 1))))
    /\ r !! "file" = match @None string with
                     | Some f => if String.eqb f "" then None else Some (Some (WStr f))
                     | None => None
                     end
    /\ r !! "code" = (if String.eqb (default "(+ 1 2)" None) "" then None
                      else Some (Some (WStr (default "(+ 1 2)" None)))).
Proof.
  apply (eval_request_fields live_state 7 "(+ 1 2)" None (fun _ => false) (Some "user")
           0 0 None).
  - reflexivity.
  - intros e. reflexivity.
Defined.

(** ** Ordered dictionaries *)

Lemma od_get_Some_In {V} (k : Z) (v : V) (d : list (Z * V)) :
  od_get k d = Some v -> In (k, v) d.
Proof.
  induction d as [|[k' v'] d IH]; simpl; [discriminate|].
  destruct (Z.eqb_spec k' k) as [->|Hne].
  - intros [= ->]. left. reflexivity.
  - intros H. right. apply IH, H.
Qed.

Lemma od_get_None_keys {V} (k : Z) (d : list (Z * V)) :
  od_get k d = None <-> ~ In k (map fst d).
Proof.
  induction d as [|[k' v'] d IH]; simpl; [tauto|].
  destruct (Z.eqb_spec k' k) as [->|Hne].
  - split; [discriminate|]. intros H. exfalso. apply H. left. reflexivity.
  - rewrite IH. tauto.
Qed.

Lemma od_get_In {V} (k : Z) (v : V) (d : list (Z * V)) :
  NoDup (map fst d) -> In (k, v) d -> od_get k d = Some v.
Proof.
  induction d as [|[k' v'] d IH]; simpl; [tauto|].
  intros Hnd [Heq|Hin].
  - injection Heq as -> ->. rewrite Z.eqb_refl. reflexivity.
  - apply NoDup_cons in Hnd as [Hk' Hnd].
    destruct (Z.eqb_spec k' k) as [->|Hne]; [|apply IH; assumption].
    exfalso. apply Hk'. apply list_elem_of_In.
    change k with (fst (k, v)). apply in_map, Hin.
Qed.

Lemma od_get_set {V} (k k' : Z) (v : V) (d : list (Z * V)) :
  od_get k' (od_set k v d) = if k =? k' then Some v else od_get k' d.
Proof.
  induction d as [|[k0 v0] d IH]; simpl.
  - destruct (Z.eqb_spec k k'); reflexivity.
  - destruct (Z.eqb_spec k0 k) as [->|Hne]; simpl.
    + destruct (Z.eqb_spec k k'); reflexivity.
    + destruct (Z.eqb_spec k0 k') as [->|Hne'].
      * destruct (Z.eqb_spec k k'); [congruence|reflexivity].
      * exact IH.
Qed.

Lemma od_get_alter {V} (f : V -> V) (k k' : Z) (d : list (Z * V)) :
  od_get k' (od_alter f k d) = if k =? k' then f <$> od_get k d else od_get k' d.
Proof.
  induction d as [|[k0 v0] d IH]; simpl.
  - destruct (k =? k'); reflexivity.
  - destruct (Z.eqb_spec k0 k) as [->|Hne]; simpl.
    + destruct (Z.eqb_spec k k'); reflexivity.
    + destruct (Z.eqb_spec k0 k') as [->|Hne'].
      * destruct (Z.eqb_spec k k'); [congruence|reflexivity].
      * exact IH.
Qed.

Lemma od_keys_alter {V} (f : V -> V) (k : Z) (d : list (Z * V)) :
  map fst (od_alter f k d) = map fst d.
Proof.
  induction d as [|[k0 v0] d IH]; simpl; [reflexivity|].
  destruct (k0 =? k); simpl; [reflexivity|]. rewrite IH. reflexivity.
Qed.

Lemma od_keys_del {V} (k : Z) (d : list (Z * V)) :
  NoDup (map fst d) -> NoDup (map fst (od_del k d)).
Proof.
  induction d as [|[k0 v0] d IH]; simpl; [intros; constructor|].
  intros Hnd. apply NoDup_cons in Hnd as [Hk0 Hnd].
  destruct (k0 =? k); simpl; [apply IH, Hnd|].
  apply NoDup_cons. split; [|apply IH, Hnd].
  intros Hin. apply Hk0. apply list_elem_of_In in Hin. apply list_elem_of_In.
  apply in_map_iff in Hin as [[k1 v1] [Hfst Hin]]. simpl in Hfst. subst k1.
  apply filter_In in Hin as [Hin _].
  change k0 with (fst (k0, v1)). apply in_map, Hin.
Qed.

Lemma od_keys_set_In {V} (k k' : Z) (v : V) (d : list (Z * V)) :
  In k' (map fst (od_set k v d)) -> k' = k \/ In k' (map fst d).
Proof.
  induction d as [|[k0 v0] d IH]; simpl.
  - intros [H|[]]. left. congruence.
  - destruct (Z.eqb_spec k0 k) as [->|Hne]; simpl.
    + tauto.
    + intros [H|H]; [tauto|]. apply IH in H. tauto.
Qed.

Lemma od_keys_set {V} (k : Z) (v : V) (d : list (Z * V)) :
  NoDup (map fst d) -> NoDup (map fst (od_set k v d)).
Proof.
  induction d as [|[k0 v0] d IH]; simpl.
  - intros _. apply NoDup_singleton.
  - intros Hnd. apply NoDup_cons in Hnd as [Hk0 Hnd].
    destruct (Z.eqb_spec k0 k) as [->|Hne]; simpl.
    + apply NoDup_cons. split; assumption.
    + apply NoDup_cons. split; [|apply IH, Hnd].
      intros Hin. apply list_elem_of_In, od_keys_set_In in Hin as [Heq|Hin];
        [congruence|]. apply Hk0, list_elem_of_In, Hin.
Qed.

(** ** Registry and index stay in step *)

Lemma same_registry_refl (s : State) : same_registry s s.
Proof. repeat split. Qed.

Lemma same_registry_trans (a b c : State) :
  same_registry a b -> same_registry b c -> same_registry a c.
Proof.
  intros (H1 & H2 & H3) (H4 & H5 & H6). repeat split; congruence.
Qed.

Lemma keeps_registry_refl (s : State) : keeps_registry s s.
Proof. intros H. exact H. Qed.

Lemma keeps_registry_trans (a b c : State) :
  keeps_registry a b -> keeps_registry b c -> keeps_registry a c.
Proof. intros H1 H2 H. apply H2, H1, H. Qed.

Lemma registry_ok_same (s s' : State) :
  same_registry s s' -> keeps_registry s s'.
Proof.
  intros (He & Hv & Hn). unfold keeps_registry, registry_ok.
  rewrite He, Hv, Hn. tauto.
Qed.

Lemma keeps_same_registry {A} (m : M A) :
  keeps same_registry m -> keeps keeps_registry m.
Proof. intros H s. apply registry_ok_same, H. Qed.

Lemma registry_ok_mutate (i : Z) (f : Eval -> Eval) :
  keeps_identity f -> keeps keeps_registry (mutate_eval i f).
Proof.
  intros Hf s (Hlo & Hnd & Hreg & Hidx & Hback).
  unfold mutate_eval. mrun. unfold final. unfold registry_ok.
  cbn [evals evals_by_view next_id set_by_view set_evals].
  split; [exact Hlo|]. split; [rewrite od_keys_alter; exact Hnd|].
  split; [|split].
  - intros k e. rewrite od_get_alter. destruct (Z.eqb_spec i k) as [->|Hne].
    + destruct (od_get k (evals s)) as [e0|] eqn:E; [|discriminate].
      intros [= <-]. destruct (Hf e0) as [-> _]. apply Hreg, E.
    + apply Hreg.
  - intros vid d'. rewrite lookup_fmap. intros Hd'.
    apply fmap_Some in Hd' as (d & Hd & ->).
    destruct (Hidx vid d Hd) as [Hndd Hin].
    split; [rewrite od_keys_alter; exact Hndd|].
    intros k e. rewrite !od_get_alter. destruct (Z.eqb_spec i k) as [->|Hne].
    + destruct (od_get k d) as [e0|] eqn:E; [|discriminate].
      intros [= <-]. destruct (Hin k e0 E) as [Hv He].
      destruct (Hf e0) as [_ ->]. rewrite He. split; [exact Hv|reflexivity].
    + apply Hin.
  - intros k e vid. rewrite od_get_alter. destruct (Z.eqb_spec i k) as [->|Hne].
    + destruct (od_get k (evals s)) as [e0|] eqn:E; [|discriminate].
      intros [= <-] Hv. destruct (Hf e0) as [_ Hv']. rewrite Hv' in Hv.
      destruct (Hback k e0 vid E Hv) as (d & Hd & Hk).
      exists (od_alter f k d). rewrite lookup_fmap, Hd. split; [reflexivity|].
      rewrite od_get_alter, Z.eqb_refl, Hk. reflexivity.
    + intros E Hv. destruct (Hback k e vid E Hv) as (d & Hd & Hk).
      exists (od_alter f i d). rewrite lookup_fmap, Hd. split; [reflexivity|].
      rewrite od_get_alter. destruct (Z.eqb_spec i k); [contradiction|exact Hk].
Qed.

Lemma registry_ok_index_insert_nil (s : State) (vid : Z) :
  evals_by_view s !! vid = None ->
  keeps_registry s (set_by_view (insert vid []) s).
Proof.
  intros Hnone (Hlo & Hnd & Hreg & Hidx & Hback). unfold registry_ok.
  cbn [evals evals_by_view next_id set_by_view].
  split; [exact Hlo|]. split; [exact Hnd|]. split; [exact Hreg|]. split.
  - intros vid' d. destruct (decide (vid = vid')) as [<-|Hne].
    + rewrite lookup_insert_eq. intros [= <-]. split; [constructor|].
      intros k e; discriminate.
    + rewrite lookup_insert_ne by exact Hne. apply Hidx.
  - intros k e vid' E Hv. destruct (Hback k e vid' E Hv) as (d & Hd & Hk).
    exists d. split; [|exact Hk].
    rewrite lookup_insert_ne; [exact Hd|]. intros <-. congruence.
Qed.

Lemma registry_ok_getitem (vid : Z) : keeps keeps_registry (by_view_getitem vid).
Proof.
  intros s. unfold by_view_getitem. mrun.
  destruct (evals_by_view s !! vid) eqn:E; mrun; unfold final.
  - apply keeps_registry_refl.
  - apply registry_ok_index_insert_nil, E.
Qed.

Lemma registry_ok_removed (s : State) (e : Eval) :
  registry_ok s -> od_get (id e) (evals s) = Some e -> registry_ok (removed e s).
Proof.
  intros (Hlo & Hnd & Hreg & Hidx & Hback) He.
  assert (Hdel : forall k e1, od_get k (od_del (id e) (evals s)) = Some e1 ->
                   k <> id e /\ od_get k (evals s) = Some e1).
  { intros k e1 H. destruct (decide (k = id e)) as [->|Hne].
    - rewrite od_get_del_eq in H. discriminate.
    - rewrite od_get_del_ne in H by congruence. split; assumption. }
  assert (Hother : forall vid' d k e1, view e <> Some vid' ->
            evals_by_view s !! vid' = Some d -> od_get k d = Some e1 ->
            view e1 = Some vid' /\ od_get k (od_del (id e) (evals s)) = Some e1).
  { intros vid' d k e1 Hv Hd Hk. destruct (Hidx vid' d Hd) as [_ Hin].
    destruct (Hin k e1 Hk) as [Hv1 He1]. split; [exact Hv1|].
    rewrite od_get_del_ne; [exact He1|]. intros <-. congruence. }
  unfold removed. destruct (view e) as [vid|] eqn:Ev.
  - destruct (Hback _ _ _ He Ev) as (d & Hd & Hk). rewrite Hd. cbn [default].
    unfold registry_ok. cbn [evals evals_by_view next_id set_by_view set_evals log].
    split; [exact Hlo|]. split; [apply od_keys_del, Hnd|]. split; [|split].
    + intros k e1 H. apply Hdel in H as [_ H]. apply Hreg, H.
    + intros vid' d'. destruct (decide (vid = vid')) as [<-|Hne].
      * rewrite lookup_insert_eq. intros [= <-].
        destruct (Hidx vid d Hd) as [Hndd Hin].
        split; [apply od_keys_del, Hndd|].
        intros k e1 H. destruct (decide (k = id e)) as [->|Hk'].
        { rewrite od_get_del_eq in H. discriminate. }
        rewrite od_get_del_ne in H by congruence.
        destruct (Hin k e1 H) as [Hv1 He1]. split; [exact Hv1|].
        rewrite od_get_del_ne by congruence. exact He1.
      * rewrite lookup_insert_ne by exact Hne. intros Hd'.
        split; [apply (Hidx vid' d' Hd')|].
        intros k e1 H. apply (Hother vid' d'); [congruence|exact Hd'|exact H].
    + intros k e1 vid' H Hv1. apply Hdel in H as [Hne H].
      destruct (Hback k e1 vid' H Hv1) as (d1 & Hd1 & Hk1).
      destruct (decide (vid = vid')) as [<-|Hne'].
      * exists (od_del (id e) d). rewrite lookup_insert_eq. split; [reflexivity|].
        rewrite od_get_del_ne by congruence. congruence.
      * exists d1. rewrite lookup_insert_ne by exact Hne'. split; assumption.
  - unfold registry_ok. cbn [evals evals_by_view next_id set_by_view set_evals log].
    split; [exact Hlo|]. split; [apply od_keys_del, Hnd|]. split; [|split].
    + intros k e1 H. apply Hdel in H as [_ H]. apply Hreg, H.
    + intros vid' d' Hd'. split; [apply (Hidx vid' d' Hd')|].
      intros k e1 H. apply (Hother vid' d'); [discriminate|exact Hd'|exact H].
    + intros k e1 vid' H Hv1. apply Hdel in H as [Hne H].
      apply (Hback k e1 vid' H Hv1).
Qed.

(** [erase_eval] on a record the registry holds: it reaches [removed] and
    then decides on the interrupt. *)
Lemma erase_eval_stored (s : State) (e : Eval) :
  registry_ok s -> od_get (id e) (evals s) = Some e ->
  erase_eval e s =
    (if wants_interrupt e then send (interrupt_request e) else ret tt) (removed e s).
Proof.
  intros (Hlo & Hnd & Hreg & Hidx & Hback) He.
  unfold erase_eval, removed, wants_interrupt, by_view_getitem. mrun. rewrite He. mrun.
  destruct (view e) as [vid|] eqn:Ev; mrun.
  - destruct (Hback _ _ _ He Ev) as (d & Hd & Hk). rewrite Hd. mrun. rewrite Hk. mrun.
    destruct (status e); reflexivity.
  - destruct (status e); reflexivity.
Qed.

Lemma registry_ok_log (ev : Event) (s : State) : registry_ok s -> registry_ok (log ev s).
Proof. apply registry_ok_same. repeat split. Qed.

Lemma registry_ok_erase_stored (s : State) (e : Eval) :
  registry_ok s -> od_get (id e) (evals s) = Some e ->
  registry_ok (final (erase_eval e s)).
Proof.
  intros Hok He. rewrite (erase_eval_stored s e Hok He).
  pose proof (registry_ok_removed s e Hok He) as Hr.
  destruct (wants_interrupt e); mrun; [|exact Hr].
  destruct (socket (removed e s)); mrun; unfold final; [|exact Hr].
  apply registry_ok_log, Hr.
Qed.

Lemma erase_eval_absent (s : State) (e : Eval) :
  od_get (id e) (evals s) = None -> erase_eval e s = Raise KeyError s.
Proof. intros H. unfold erase_eval. mrun. rewrite H. reflexivity. Qed.

Ltac same_bind := apply (keeps_bind same_registry same_registry_trans).
Ltac same_ret := apply (keeps_ret same_registry same_registry_refl).
Ltac same_raise := apply (keeps_raise same_registry same_registry_refl).
Ltac reg_bind := apply (keeps_bind keeps_registry keeps_registry_trans).
Ltac reg_ret := apply (keeps_ret keeps_registry keeps_registry_refl).
Ltac reg_raise := apply (keeps_raise keeps_registry keeps_registry_refl).

Lemma same_modify (f : State -> State) :
  (forall s, same_registry s (f s)) -> keeps same_registry (modify f).
Proof. intros H s. apply H. Qed.

Lemma same_send (r : request) : keeps same_registry (send r).
Proof. intros s. unfold send. mrun. destruct (socket s); repeat split. Qed.

Lemma same_set_status (st : option string) : keeps same_registry (set_status st).
Proof. intros s. repeat split. Qed.

Lemma same_get : keeps same_registry get_state.
Proof. apply keeps_get, same_registry_refl. Qed.

Lemma same_lookup_registered (m : msg) : keeps same_registry (lookup_registered m).
Proof.
  intros s. unfold lookup_registered.
  destruct (m !! "id") as [[| | |]|]; repeat split.
Qed.

Lemma same_phase : keeps same_registry phase.
Proof.
  intros s. unfold phase. mrun. destruct (nth_error _ _); repeat split.
Qed.

Lemma same_handle_connect_default (m : msg) :
  keeps same_registry (handle_connect_default m).
Proof.
  unfold handle_connect_default.
  repeat match goal with
         | |- keeps _ (if ?c then _ else _) => destruct c
         end;
    repeat first
      [ same_ret
      | apply same_send
      | apply same_set_status
      | apply same_get
      | apply same_modify; intros ?; repeat split
      | same_bind; [|intros ?] ].
Qed.

Lemma same_handle_connect (m : msg) : keeps same_registry (handle_connect m).
Proof.
  unfold handle_connect. same_bind; [apply same_get|intros s].
  destruct (profile s) as [[|]|]; try apply same_handle_connect_default.
  repeat match goal with
         | |- keeps _ (if ?c then _ else _) => destruct c
         end;
    try apply same_handle_connect_default;
    repeat first
      [ same_ret
      | apply same_send
      | apply same_set_status
      | apply same_get
      | apply same_modify; intros ?; repeat split
      | same_bind; [|intros ?] ].
Qed.

Lemma same_read_loop_open : keeps same_registry read_loop_open.
Proof.
  unfold read_loop_open. same_bind; [apply same_send|intros _; apply same_set_status].
Qed.

Lemma same_connect (h : option string) (p : option wire) (pr : Profile)
    (build : option string) : keeps same_registry (connect h p pr build).
Proof. intros s. repeat split. Qed.

Lemma identity_status_value (st : EvalStatus) (v : option wire) :
  keeps_identity (with_status_value st v).
Proof. intros e. split; reflexivity. Qed.

Lemma identity_session (v : option wire) : keeps_identity (with_session v).
Proof. intros e. split; reflexivity. Qed.

Lemma identity_trace (v : option wire) : keeps_identity (with_trace v).
Proof. intros e. split; reflexivity. Qed.

Lemma identity_phantom (v : option Z) : keeps_identity (with_phantom v).
Proof. intros e. split; reflexivity. Qed.

Ltac reg_step :=
  first
    [ reg_ret
    | reg_raise
    | apply registry_ok_mutate;
        first [ apply identity_status_value | apply identity_session
              | apply identity_trace | apply identity_phantom ]
    | apply keeps_same_registry;
        first [ apply same_lookup_registered | apply same_get | apply same_send
              | apply same_phase | apply same_set_status ]
    | apply registry_ok_getitem ].

Lemma registry_handle_new_session (m : msg) : keeps keeps_registry (handle_new_session m).
Proof.
  unfold handle_new_session. destruct (m !! "new-session"); [|reg_ret].
  reg_bind; [reg_step|intros [e|]]; [|reg_ret].
  reg_bind; [reg_step|intros _; reg_ret].
Qed.

Lemma registry_handle_value (m : msg) : keeps keeps_registry (handle_value m).
Proof.
  unfold handle_value. destruct (m !! "value"); [|reg_ret].
  reg_bind; [reg_step|intros [e|]]; [|reg_ret].
  reg_bind; [reg_step|intros _; reg_ret].
Qed.

Lemma registry_handle_exception (m : msg) : keeps keeps_registry (handle_exception m).
Proof.
  unfold handle_exception.
  reg_bind; [reg_step|intros [e|]]; [|reg_ret].
  destruct (truthy_opt _ && truthy_opt _).
  { unfold exception_structured. reg_bind; [reg_step|intros s].
    destruct (structured_summary _ _ _); [|reg_raise].
    reg_bind; [reg_step|intros _]. reg_bind; [reg_step|intros _; reg_ret]. }
  destruct (m !! "root-ex"); [reg_bind; [reg_step|intros _; reg_ret]|].
  destruct (m !! "ex"); [reg_bind; [reg_step|intros _; reg_ret]|].
  destruct (m !! "status") as [st|]; [|reg_ret].
  destruct (str_in _ st) as [[|]|]; [|reg_ret|reg_raise].
  destruct (m !! "ns"); [|reg_raise].
  reg_bind; [reg_step|intros s]. reg_bind; [reg_step|intros _; reg_ret].
Qed.

Lemma registry_handle_lookup (m : msg) : keeps keeps_registry (handle_lookup m).
Proof.
  unfold handle_lookup. destruct (m !! "info"); [|reg_ret].
  reg_bind; [reg_step|intros [e|]]; [|reg_ret].
  reg_bind; [reg_step|intros _]. reg_bind; [reg_step|intros s].
  destruct (lookup_popup _ _ _); [reg_raise|].
  reg_bind; [reg_step|intros _; reg_ret].
Qed.

Lemma lookup_registered_stored (m : msg) (s : State) (e : Eval) :
  registry_ok s -> lookup_registered m s = Ok (Some e) s ->
  od_get (id e) (evals s) = Some e.
Proof.
  intros (_ & _ & Hreg & _) H. unfold lookup_registered in H.
  destruct (m !! "id") as [[| | |]|]; try discriminate.
  revert H. mrun. intros [= H]. destruct (Hreg _ _ H) as [-> _]. exact H.
Qed.

Lemma lookup_registered_state (m : msg) (s : State) :
  match lookup_registered m s with
  | Ok _ s' => s' = s
  | Raise _ s' => s' = s
  end.
Proof.
  unfold lookup_registered. destruct (m !! "id") as [[| | |]|]; reflexivity.
Qed.

Lemma registry_handle_done (m : msg) : keeps keeps_registry (handle_done m).
Proof.
  intros s Hok. unfold handle_done. unfold bind at 1.
  pose proof (lookup_registered_state m s) as Hs.
  destruct (lookup_registered m s) as [[e|] s'|x s'] eqn:El; subst s';
    cbn [final]; try exact Hok.
  pose proof (lookup_registered_stored m s e Hok El) as He.
  destruct (m !! "status") as [st|]; [|exact Hok].
  destruct (str_in _ st) as [[|]|]; try exact Hok.
  pose proof (registry_ok_erase_stored s e Hok He) as Hr.
  unfold bind. destruct (status e); try exact Hok;
    destruct (erase_eval e s); exact Hr.
Qed.

Lemma registry_later_handlers (m : msg) :
  keeps keeps_registry
    (orelse (handle_new_session m)
       (orelse (handle_value m)
          (orelse (handle_exception m)
             (orelse (handle_lookup m) (handle_done m))))).
Proof.
  assert (Hor : forall a b, keeps keeps_registry a -> keeps keeps_registry b ->
                  keeps keeps_registry (orelse a b)).
  { intros a b Ha Hb. unfold orelse. reg_bind; [exact Ha|intros [|]]; [reg_ret|exact Hb]. }
  repeat apply Hor.
  - apply registry_handle_new_session.
  - apply registry_handle_value.
  - apply registry_handle_exception.
  - apply registry_handle_lookup.
  - apply registry_handle_done.
Qed.

Lemma registry_handle_msg (m : msg) : keeps keeps_registry (handle_msg m).
Proof.
  unfold handle_msg.
  destruct (truncation_worklist m) as [keys|]; [|reg_raise].
  destruct (truncate_all keys m) as [e|m']; [reg_raise|].
  reg_bind; [|intros _; reg_ret].
  unfold orelse at 1. reg_bind; [apply keeps_same_registry, same_handle_connect|].
  intros [|]; [reg_ret|apply registry_later_handlers].
Qed.

(** *** Erasing the records a predicate accepts *)

(** An item of a listing of records: it is the record the registry holds
    under its key, or the registry holds nothing under that key. *)
Lemma registry_erase_loop (predicate : Eval -> bool) (items : list (Z * Eval)) :
  forall s,
    registry_ok s ->
    Forall (fun kv => od_get (id (snd kv)) (evals s) = Some (snd kv)
                      \/ od_get (id (snd kv)) (evals s) = None) items ->
    registry_ok
      (final (for_each items
                (fun kv => if predicate (snd kv) then erase_eval (snd kv) else ret tt) s)).
Proof.
  induction items as [|[k e] items IH]; intros s Hok Hitems; [exact Hok|].
  apply List.Forall_cons_iff in Hitems as [Hhd Htl]. cbn [snd] in Hhd.
  cbn [for_each snd]. unfold bind.
  destruct (predicate e).
  - destruct Hhd as [He|He].
    + pose proof (registry_ok_erase_stored s e Hok He) as Hr.
      pose proof (erase_eval_stored s e Hok He) as Hrun.
      assert (Hev : forall s', (s' = removed e s \/ exists ev, s' = log ev (removed e s)) ->
                 evals s' = od_del (id e) (evals s)).
      { intros s' [->|[ev ->]]; unfold removed; destruct (view e); reflexivity. }
      assert (Hs' : match erase_eval e s with
                    | Ok _ s' | Raise _ s' =>
                        s' = removed e s \/ exists ev, s' = log ev (removed e s)
                    end).
      { rewrite Hrun. destruct (wants_interrupt e); mrun; [|left; reflexivity].
        destruct (socket (removed e s)); mrun; [right; eexists; reflexivity|left; reflexivity]. }
      destruct (erase_eval e s) as [[] s'|x s']; cbn [final] in Hr; [|exact Hr].
      apply IH; [exact Hr|].
      rewrite (Hev s' Hs'). eapply List.Forall_impl; [|exact Htl].
      intros [k1 e1]. cbn [snd]. destruct (decide (id e1 = id e)) as [->|Hne].
      * intros _. right. apply od_get_del_eq.
      * rewrite od_get_del_ne by congruence. tauto.
    + rewrite (erase_eval_absent s e He). exact Hok.
  - mrun. apply IH; assumption.
Qed.

Lemma registry_items_stored (s : State) :
  registry_ok s ->
  Forall (fun kv => od_get (id (snd kv)) (evals s) = Some (snd kv)
                    \/ od_get (id (snd kv)) (evals s) = None) (evals s).
Proof.
  intros (_ & Hnd & Hreg & _). apply List.Forall_forall. intros [k e] Hin. cbn [snd].
  pose proof (od_get_In k e (evals s) Hnd Hin) as He.
  destruct (Hreg k e He) as [-> _]. left. exact He.
Qed.

Lemma registry_index_stored (s : State) (vid : Z) (d : list (Z * Eval)) :
  registry_ok s -> evals_by_view s !! vid = Some d ->
  Forall (fun kv => od_get (id (snd kv)) (evals s) = Some (snd kv)
                    \/ od_get (id (snd kv)) (evals s) = None) d.
Proof.
  intros (_ & _ & Hreg & Hidx & _) Hd. destruct (Hidx vid d Hd) as [Hnd Hin].
  apply List.Forall_forall. intros [k e] Hi. cbn [snd].
  pose proof (od_get_In k e d Hnd Hi) as He.
  destruct (Hin k e He) as [_ He']. destruct (Hreg k e He') as [-> _]. left. exact He'.
Qed.

Lemma registry_erase_evals (predicate : Eval -> bool) (v : option Z) :
  keeps keeps_registry (erase_evals predicate v).
Proof.
  intros s Hok. unfold erase_evals. destruct v as [vid|].
  - unfold bind at 1. unfold by_view_getitem. mrun.
    destruct (evals_by_view s !! vid) as [d|] eqn:Hd; mrun.
    + apply registry_erase_loop; [exact Hok|].
      apply (registry_index_stored s vid d Hok Hd).
    + cbn [for_each]. mrun. unfold final.
      apply registry_ok_index_insert_nil; assumption.
  - mrun. apply registry_erase_loop; [exact Hok|]. apply registry_items_stored, Hok.
Qed.

(** *** Registering a new record *)

Lemma registry_ok_add (s : State) (e : Eval) :
  registry_ok s -> id e = next_id s ->
  registry_ok (final (add_eval e (set_next_id (next_id s + 1) s))).
Proof.
  intros (Hlo & Hnd & Hreg & Hidx & Hback) Hid.
  assert (Hfresh : forall k e1, od_get k (evals s) = Some e1 -> k <> id e).
  { intros k e1 H. destruct (Hreg k e1 H) as [_ Hr]. lia. }
  assert (Hset : forall k e1, od_get k (od_set (id e) e (evals s)) = Some e1 ->
            (k = id e /\ e1 = e) \/ (k <> id e /\ od_get k (evals s) = Some e1)).
  { intros k e1. rewrite od_get_set. destruct (Z.eqb_spec (id e) k) as [<-|Hne].
    - intros [= <-]. left. split; reflexivity.
    - intros H. right. split; [congruence|exact H]. }
  assert (Hregs : forall k e1, od_get k (od_set (id e) e (evals s)) = Some e1 ->
            id e1 = k /\ 10 <= k < next_id s + 1).
  { intros k e1 H. apply Hset in H as [[-> ->]|[_ H]].
    - split; [reflexivity|lia].
    - destruct (Hreg k e1 H) as [? ?]. split; [assumption|lia]. }
  assert (Hkeep : forall k e1, k <> id e -> od_get k (evals s) = Some e1 ->
            od_get k (od_set (id e) e (evals s)) = Some e1).
  { intros k e1 Hne H. rewrite od_get_set.
    destruct (Z.eqb_spec (id e) k); [congruence|exact H]. }
  unfold add_eval, by_view_getitem. mrun.
  destruct (view e) as [vid|] eqn:Ev; mrun.
  - assert (Hcommon : forall d,
              NoDup (map fst d) ->
              (forall k e1, od_get k d = Some e1 ->
                 view e1 = Some vid /\ od_get k (evals s) = Some e1) ->
              (forall d1, evals_by_view s !! vid = Some d1 -> d1 = d) ->
              registry_ok
                (set_by_view (fun _ => <[vid := od_set (id e) e d]> (evals_by_view s))
                   (set_evals (od_set (id e) e) (set_next_id (next_id s + 1) s)))).
    { intros d Hndd Hin Hd1. unfold registry_ok.
      cbn [evals evals_by_view next_id set_by_view set_evals set_next_id].
      split; [lia|]. split; [apply od_keys_set, Hnd|]. split; [exact Hregs|]. split.
      + intros vid' d'. destruct (decide (vid = vid')) as [<-|Hne].
        * rewrite lookup_insert_eq. intros [= <-]. split; [apply od_keys_set, Hndd|].
          intros k e1. rewrite !od_get_set. destruct (Z.eqb_spec (id e) k) as [<-|Hk].
          { intros [= <-]. split; [exact Ev|reflexivity]. }
          apply Hin.
        * rewrite lookup_insert_ne by exact Hne. intros Hd'.
          destruct (Hidx vid' d' Hd') as [Hnd' Hin']. split; [exact Hnd'|].
          intros k e1 H. destruct (Hin' k e1 H) as [Hv1 He1]. split; [exact Hv1|].
          apply Hkeep; [apply (Hfresh k e1 He1)|exact He1].
      + intros k e1 vid' H Hv1. apply Hset in H as [[-> ->]|[Hne H]].
        * assert (vid' = vid) as -> by congruence.
          exists (od_set (id e) e d). rewrite lookup_insert_eq. split; [reflexivity|].
          rewrite od_get_set, Z.eqb_refl. reflexivity.
        * destruct (Hback k e1 vid' H Hv1) as (d1 & Hd1' & Hk1).
          destruct (decide (vid = vid')) as [<-|Hne'].
          { exists (od_set (id e) e d). rewrite lookup_insert_eq. split; [reflexivity|].
            rewrite od_get_set. destruct (Z.eqb_spec (id e) k); [congruence|].
            rewrite <- (Hd1 d1 Hd1'). exact Hk1. }
          exists d1. rewrite lookup_insert_ne by exact Hne'. split; assumption. }
    destruct (evals_by_view s !! vid) as [d0|] eqn:E; mrun; unfold final.
    + eapply registry_ok_same; [|apply (Hcommon d0)].
      * repeat split.
      * apply (Hidx vid d0 E).
      * apply (Hidx vid d0 E).
      * intros d1 [= ->]. reflexivity.
    + eapply registry_ok_same; [|apply (Hcommon [])].
      * repeat split. cbn [evals_by_view set_by_view log set_evals set_next_id].
        rewrite insert_insert_eq. reflexivity.
      * constructor.
      * intros k e1; discriminate.
      * intros d1; discriminate.
  - unfold final, registry_ok. cbn [evals evals_by_view next_id set_evals log set_next_id].
    split; [lia|]. split; [apply od_keys_set, Hnd|]. split; [exact Hregs|]. split.
    + intros vid' d' Hd'. destruct (Hidx vid' d' Hd') as [Hnd' Hin']. split; [exact Hnd'|].
      intros k e1 H. destruct (Hin' k e1 H) as [Hv1 He1]. split; [exact Hv1|].
      apply Hkeep; [apply (Hfresh k e1 He1)|exact He1].
    + intros k e1 vid' H Hv1. apply Hset in H as [[-> ->]|[Hne H]]; [congruence|].
      apply (Hback k e1 vid' H Hv1).
Qed.

(** A new record is registered, its request sent, and the record updated. *)
Lemma registry_register_send (s : State) (e : Eval) (r : request) (k : M unit) :
  registry_ok s -> id e = next_id s -> keeps keeps_registry k ->
  registry_ok
    (final ((add_eval e ;;; send r ;;; k) (set_next_id (next_id s + 1) s))).
Proof.
  intros Hok Hid Hk. pose proof (registry_ok_add s e Hok Hid) as Hadd.
  destruct (add_eval_ok e (set_next_id (next_id s + 1) s)) as (s' & Hrun & _).
  rewrite (bind_Ok _ _ _ _ _ Hrun). rewrite Hrun in Hadd. cbn [final] in Hadd.
  assert (H : keeps keeps_registry (send r ;;; k))
    by (reg_bind; [reg_step|intros _; exact Hk]).
  exact (H s' Hadd).
Qed.

Lemma registry_eval_msg (vid : Z) (src : string) (touches_line : Eval -> bool)
    (m : request) : keeps keeps_registry (eval_msg vid src touches_line m).
Proof.
  unfold eval_msg. reg_bind; [apply registry_erase_evals|intros _]. intros s Hok.
  unfold new_Eval. mrun.
  apply (registry_register_send s
           (with_msg (Some (eval_msg_request (set_next_id (next_id s + 1) s)
              (mkEval (next_id s) false (Some vid) Pending src None None None None None) m))
              (mkEval (next_id s) false (Some vid) Pending src None None None None None))
           _ _ Hok eq_refl).
  reg_bind; [reg_step|intros p; reg_step].
Qed.

Lemma registry_eval (vid : Z) (region_text : string) (src : option string)
    (touches_line : Eval -> bool) (nspace : option string) (line column : Z)
    (file : option string) :
  keeps keeps_registry (eval vid region_text src touches_line nspace line column file).
Proof.
  unfold eval. reg_bind; [reg_step|intros a; apply registry_eval_msg].
Qed.

Lemma registry_eval_code (src : string) (nspace : option string) :
  keeps keeps_registry (eval_code src nspace).
Proof.
  unfold eval_code. reg_bind; [apply registry_erase_evals|intros _]. intros s Hok.
  unfold new_StatusEval. mrun.
  apply (registry_register_send s
           (with_msg (Some (eval_code_request (set_next_id (next_id s + 1) s)
              (mkEval (next_id s) true None Pending src None None None None None) src nspace))
              (mkEval (next_id s) true None Pending src None None None None None))
           _ _ Hok eq_refl).
  reg_bind; [reg_step|intros p; reg_step].
Qed.

Lemma registry_interrupt_eval (vid : Z) : keeps keeps_registry (interrupt_eval vid).
Proof.
  unfold interrupt_eval. reg_bind; [reg_step|intros items].
  apply (keeps_for_each keeps_registry keeps_registry_refl keeps_registry_trans).
  intros [k e]. cbn [snd]. destruct (status e); try reg_ret.
  reg_bind; [reg_step|intros _; reg_step].
Qed.

Lemma registry_toggle_symbol (vid : Z) (touches touches_line : Eval -> bool)
    (sym nspace : option string) :
  keeps keeps_registry (toggle_symbol vid touches touches_line sym nspace).
Proof.
  assert (Hlookup : keeps keeps_registry
            match sym with
            | None => ret tt
            | Some sy =>
                erase_evals touches_line (Some vid) ;;;
                e <- new_Eval vid sy ;;
                add_eval e ;;;
                s <- get_state ;;
                send (lookup_request s e sy nspace)
            end).
  { destruct sym as [sy|]; [|reg_ret].
    reg_bind; [apply registry_erase_evals|intros _]. intros s Hok.
    unfold new_Eval. mrun.
    pose proof (registry_ok_add s
                  (mkEval (next_id s) false (Some vid) Pending sy None None None None None)
                  Hok eq_refl) as Hadd.
    destruct (add_eval_ok
                (mkEval (next_id s) false (Some vid) Pending sy None None None None None)
                (set_next_id (next_id s + 1) s)) as (s' & Hrun & _).
    rewrite Hrun in *. cbn [final] in Hadd. revert Hadd. unfold send. mrun.
    destruct (socket s'); mrun; unfold final; [apply registry_ok_log|intros H; exact H]. }
  intros s Hok. unfold toggle_symbol, find_eval, by_view_getitem. mrun.
  destruct (evals_by_view s !! vid) as [d|] eqn:Hd; mrun.
  - destruct (find (fun kv => touches (snd kv)) d) as [[k e0]|] eqn:Hf; cbn [fmap option_fmap option_map snd].
    + destruct (match phantom_id e0 with Some p => negb (p =? 0) | None => false end);
        [|apply Hlookup, Hok].
      apply registry_ok_erase_stored; [exact Hok|].
      apply find_some in Hf as [Hin _].
      pose proof (registry_index_stored s vid d Hok Hd) as Hst.
      rewrite List.Forall_forall in Hst. specialize (Hst _ Hin). cbn [snd] in Hst.
      destruct Hst as [H|H]; [exact H|].
      exfalso. destruct Hok as (_ & _ & Hreg & Hidx & _).
      destruct (Hidx vid d Hd) as [Hnd Hget].
      destruct (Hget k e0 (od_get_In k e0 d Hnd Hin)) as [_ He0].
      destruct (Hreg k e0 He0) as [Hid _]. congruence.
    + apply Hlookup, Hok.
  - cbn [find fmap option_fmap option_map]. apply Hlookup.
    apply registry_ok_index_insert_nil; assumption.
Qed.

Lemma registry_disconnect : keeps keeps_registry disconnect.
Proof.
  intros s Hok. unfold disconnect, reset. mrun.
  destruct (socket s); mrun; unfold final; [|exact Hok].
  destruct Hok as (Hlo & _). unfold registry_ok.
  cbn [evals evals_by_view next_id set_by_view set_evals log set_cstatus set_csession set_socket].
  split; [exact Hlo|]. split; [constructor|]. split; [intros k e; discriminate|].
  split.
  - intros vid d. rewrite lookup_empty. discriminate.
  - intros k e vid; discriminate.
Qed.

Lemma registry_run_op (o : Op) : keeps keeps_registry (run_op o).
Proof.
  destruct o; cbn [run_op].
  - apply keeps_same_registry, same_connect.
  - apply keeps_same_registry, same_read_loop_open.
  - apply registry_handle_msg.
  - apply registry_disconnect.
  - apply registry_eval.
  - apply registry_eval_msg.
  - apply registry_eval_code.
  - apply registry_interrupt_eval.
  - apply registry_toggle_symbol.
  - apply registry_erase_evals.
Qed.

Lemma registry_run_ops (ops : list Op) :
  forall s, registry_ok s -> registry_ok (run_ops ops s).
Proof.
  induction ops as [|o ops IH]; intros s Hok; [exact Hok|].
  cbn [run_ops]. apply IH, registry_run_op, Hok.
Qed.

(** X9.  Whatever entries run, in whatever order and whether or not they
    end in an exception, the registry and the per-view index stay in step:
    no key is repeated, every record is stored under its own id, ids lie
    between 10 and the counter, the index of a view holds exactly the
    records of the registry that belong to the view. *)
Theorem registry_and_index_in_step (eval_in_sess : bool) (x : External) (ops : list Op) :
  registry_ok (run_ops ops (init_state eval_in_sess x)).
Proof.
  apply registry_run_ops. unfold registry_ok, init_state.
  cbn [evals evals_by_view next_id].
  split; [lia|]. split; [constructor|]. split; [intros k e; discriminate|]. split.
  - intros vid d. rewrite lookup_empty. discriminate.
  - intros k e vid; discriminate.
Qed.

(** *** The scenarios keep registry and index in step *)

Lemma registry_ok_live_state : registry_ok live_state.
Proof.
  unfold registry_ok, live_state. cbn [evals evals_by_view next_id].
  split; [lia|]. split; [apply NoDup_singleton|]. split; [|split].
  - intros k e. cbn [od_get]. destruct (Z.eqb_spec 10 k) as [<-|]; [|discriminate].
    intros [= <-]. split; [reflexivity|lia].
  - intros vid d. rewrite lookup_empty. discriminate.
  - intros k e vid. cbn [od_get]. destruct (Z.eqb_spec 10 k) as [<-|]; [|discriminate].
    intros [= <-]. discriminate.
Qed.

Lemma registry_ok_view_state : registry_ok view_state.
Proof.
  unfold registry_ok, view_state. cbn [evals evals_by_view next_id].
  split; [lia|]. split; [apply NoDup_singleton|]. split; [|split].
  - intros k e. cbn [od_get]. destruct (Z.eqb_spec 11 k) as [<-|]; [|discriminate].
    intros [= <-]. split; [reflexivity|lia].
  - intros vid d H. apply lookup_singleton_Some in H as [<- <-].
    split; [apply NoDup_singleton|].
    intros k e. cbn [od_get]. destruct (Z.eqb_spec 11 k) as [<-|]; [|discriminate].
    intros [= <-]. split; reflexivity.
  - intros k e vid. cbn [od_get]. destruct (Z.eqb_spec 11 k) as [<-|]; [|discriminate].
    intros [= <-] [= <-]. exists [(11, eval11)]. split; reflexivity.
Qed.

(** *** What [erase_evals] removes and what it sends *)

Lemma filter_filter_and {A} (f g : A -> bool) (l : list A) :
  List.filter f (List.filter g l) = List.filter (fun x => g x && f x) l.
Proof.
  induction l as [|x l IH]; simpl; [reflexivity|].
  destruct (g x); simpl; [|exact IH]. destruct (f x); rewrite IH; reflexivity.
Qed.

Lemma existsb_no_key (predicate : Eval -> bool) (k : Z) (d : list (Z * Eval)) :
  ~ In k (map fst d) ->
  existsb (fun it => predicate (snd it) && (k =? fst it)) d = false.
Proof.
  induction d as [|[k0 e0] d IH]; simpl; [reflexivity|].
  intros H. destruct (Z.eqb_spec k k0) as [->|Hne]; [tauto|].
  rewrite andb_false_r. apply IH. tauto.
Qed.

Lemma existsb_key (predicate : Eval -> bool) (kv : Z * Eval) (d : list (Z * Eval)) :
  NoDup (map fst d) -> In kv d ->
  existsb (fun it => predicate (snd it) && (fst kv =? fst it)) d = predicate (snd kv).
Proof.
  induction d as [|[k0 e0] d IH]; simpl; [tauto|].
  intros Hnd. apply NoDup_cons in Hnd as [Hk0 Hnd].
  rewrite list_elem_of_In in Hk0. intros [<-|Hin].
  - cbn [fst snd]. rewrite Z.eqb_refl, andb_true_r.
    rewrite (existsb_no_key predicate k0 d Hk0). apply orb_false_r.
  - destruct (Z.eqb_spec (fst kv) k0) as [Heq|Hne].
    + exfalso. apply Hk0. rewrite <- Heq. apply in_map, Hin.
    + rewrite andb_false_r. apply IH; assumption.
Qed.

Lemma removed_fields (e : Eval) (s : State) :
  evals (removed e s) = od_del (id e) (evals s)
  /\ socket (removed e s) = socket s
  /\ next_id (removed e s) = next_id s
  /\ events (removed e s) = (events s ++ [EvUnregister (id e)])%list.
Proof. unfold removed. destruct (view e); repeat split. Qed.

(** *** The interrupt command *)

Lemma od_alter_middle {V} (f : V -> V) (k : Z) (v : V) (pre rest : list (Z * V)) :
  ~ In k (map fst pre) ->
  od_alter f k (pre ++ (k, v) :: rest) = (pre ++ (k, f v) :: rest)%list.
Proof.
  induction pre as [|[k0 v0] pre IH]; simpl.
  - intros _. rewrite Z.eqb_refl. reflexivity.
  - intros H. destruct (Z.eqb_spec k0 k) as [->|Hne]; [tauto|].
    rewrite IH by tauto. reflexivity.
Qed.

Lemma interrupt_loop (vid : Z) (items : list (Z * Eval)) :
  forall (pre : list (Z * Eval)) (s : State),
    evals_by_view s !! vid = Some (pre ++ items)%list ->
    NoDup (map fst (pre ++ items)) ->
    Forall (fun kv => id (snd kv) = fst kv) items ->
    socket s = true ->
    exists s',
      for_each items
        (fun kv =>
           match status (snd kv) with
           | Pending =>
               send (interrupt_command_request (snd kv)) ;;;
               mutate_eval (id (snd kv))
                 (with_status_value Interrupt (Some (WStr "Interrupting...")))
           | _ => ret tt
           end) s = Ok tt s'
      /\ socket s' = true
      /\ sent s' =
           (sent s ++ map interrupt_command_request
              (List.filter is_pending (map snd items)))%list
      /\ evals_by_view s' !! vid =
           Some (pre ++ map (fun kv => (fst kv, interrupting (snd kv))) items)%list.
Proof.
  induction items as [|[k e] items IH]; intros pre s Hd Hnd Hids Hsock.
  - exists s. cbn [for_each map List.filter]. rewrite !app_nil_r in *.
    repeat split; assumption || reflexivity.
  - apply List.Forall_cons_iff in Hids as [Hid Hids]. cbn [fst snd] in Hid.
    assert (Hk : ~ In k (map fst pre)).
    { rewrite map_app in Hnd. apply NoDup_app in Hnd as (_ & Hdis & _).
      intros Hin. apply (Hdis k); [apply list_elem_of_In, Hin|]. cbn [map fst]. left. }
    assert (Hint : interrupting e =
              match status e with
              | Pending => with_status_value Interrupt (Some (WStr "Interrupting...")) e
              | _ => e
              end)
      by (unfold interrupting, is_pending; destruct (status e); reflexivity).
    assert (Hpen : is_pending e = match status e with Pending => true | _ => false end)
      by reflexivity.
    cbn [for_each snd map List.filter fst]. rewrite Hint, Hpen. clear Hint Hpen.
    destruct (status e) eqn:Hst.
    all: try (mrun;
      destruct (IH (pre ++ [(k, e)])%list s) as (s' & Hrun & Hs' & Hsent & Hv);
        [rewrite <- app_assoc; exact Hd
        |rewrite <- app_assoc; exact Hnd
        |exact Hids|exact Hsock|];
      exists s'; rewrite <- app_assoc in Hv; repeat split; assumption).
    unfold send, mutate_eval. mrun. rewrite Hsock. mrun.
    set (s1 := set_by_view _ _).
    destruct (IH (pre ++ [(k, with_status_value Interrupt (Some (WStr "Interrupting...")) e)])%list s1)
      as (s' & Hrun & Hs' & Hsent & Hv).
    + unfold s1. cbn [evals_by_view set_by_view set_evals log].
      rewrite lookup_fmap, Hd. cbn [fmap option_fmap option_map]. rewrite Hid.
      rewrite od_alter_middle by exact Hk. rewrite <- app_assoc. reflexivity.
    + rewrite <- app_assoc. rewrite map_app in *. exact Hnd.
    + exact Hids.
    + exact Hsock.
    + exists s'. split; [exact Hrun|]. split; [exact Hs'|]. split.
      * rewrite Hsent. unfold s1, sent. cbn [events set_by_view set_evals log].
        rewrite sent_of_app. cbn [sent_of map]. rewrite <- app_assoc. reflexivity.
      * rewrite Hv, <- app_assoc. reflexivity.
Qed.

Lemma interrupt_loop_idle (items : list (Z * Eval)) (s : State) :
  Forall (fun kv => is_pending (snd kv) = false) items ->
  for_each items
    (fun kv =>
       match status (snd kv) with
       | Pending =>
           send (interrupt_command_request (snd kv)) ;;;
           mutate_eval (id (snd kv))
             (with_status_value Interrupt (Some (WStr "Interrupting...")))
       | _ => ret tt
       end) s = Ok tt s.
Proof.
  induction 1 as [|[k e] items Hp _ IH]; [reflexivity|].
  cbn [for_each snd] in *. unfold is_pending in Hp.
  destruct (status e); try discriminate; mrun; exact IH.
Qed.

Lemma interrupt_command_encodable (e : Eval) :
  is_Some (session e) -> encodable (interrupt_command_request e).
Proof.
  intros [tok Htok] k v. unfold interrupt_command_request. rewrite Htok.
  rewrite !lookup_insert_Some, lookup_singleton_Some.
  intros [[_ <-]|[_ [[_ <-]|[_ [_ <-]]]]]; eexists; reflexivity.
Qed.

(** X11.  On a connection with a socket, when every pending record of the
    view runs in a session, the interrupt command sends one interrupt for
    each pending record of the view, in order, each a request without a
    [None] entry, and marks exactly those records as interrupting; run
    again, it sends nothing. *)
Theorem interrupt_eval_marks_pending (s : State) (vid : Z) (d : list (Z * Eval)) :
  registry_ok s -> socket s = true -> evals_by_view s !! vid = Some d ->
  Forall (fun kv => is_pending (snd kv) = true -> is_Some (session (snd kv))) d ->
  exists s',
    interrupt_eval vid s = Ok tt s'
    /\ sent s' =
         (sent s ++ map interrupt_command_request
            (List.filter is_pending (map snd d)))%list
    /\ Forall encodable
         (map interrupt_command_request (List.filter is_pending (map snd d)))
    /\ evals_by_view s' !! vid
       = Some (map (fun kv => (fst kv, interrupting (snd kv))) d)
    /\ sent (final (interrupt_eval vid s')) = sent s'.
Proof.
  intros Hok Hsock Hd Hsess. pose proof Hok as (_ & _ & Hreg & Hidx & _).
  destruct (Hidx vid d Hd) as [Hnd Hin].
  destruct (interrupt_loop vid d [] s Hd Hnd) as (s' & Hrun & Hs' & Hsent & Hv).
  { apply List.Forall_forall. intros [k e] Hi. cbn [fst snd].
    destruct (Hin k e (od_get_In k e d Hnd Hi)) as [_ He]. apply (Hreg k e He). }
  { exact Hsock. }
  cbn [app] in Hv. exists s'.
  assert (Hfirst : interrupt_eval vid s = Ok tt s').
  { unfold interrupt_eval, by_view_getitem. mrun. rewrite Hd. mrun. exact Hrun. }
  split; [exact Hfirst|]. split; [exact Hsent|]. split.
  { apply List.Forall_forall. intros r Hr.
    apply in_map_iff in Hr as (e & <- & He). apply filter_In in He as [He Hp].
    apply in_map_iff in He as ([k e'] & <- & Hk). cbn [snd] in *.
    apply interrupt_command_encodable.
    rewrite List.Forall_forall in Hsess. apply (Hsess (k, e') Hk Hp). }
  split; [exact Hv|].
  unfold interrupt_eval, by_view_getitem. mrun. rewrite Hv. mrun.
  rewrite interrupt_loop_idle; [reflexivity|].
  apply List.Forall_forall. intros kv Hi. apply in_map_iff in Hi as ([k e] & <- & _).
  cbn [fst snd]. unfold interrupting, is_pending.
  destruct (status e) eqn:E; cbn [status with_status_value]; rewrite ?E; reflexivity.
Qed.

Lemma interrupt_eval_marks_pending_witness :
  exists s',
    interrupt_eval 7 view_state = Ok tt s'
    /\ sent s' =
         (sent view_state ++ map interrupt_command_request
            (List.filter is_pending (map snd [(11, eval11)])))%list
    /\ Forall encodable
         (map interrupt_command_request
            (List.filter is_pending (map snd [(11, eval11)])))
    /\ evals_by_view s' !! 7
       = Some (map (fun kv => (fst kv, interrupting (snd kv))) [(11, eval11)])
    /\ sent (final (interrupt_eval 7 s')) = sent s'.
Proof.
  apply (interrupt_eval_marks_pending view_state 7 [(11, eval11)]).
  - exact registry_ok_view_state.
  - reflexivity.
  - reflexivity.
  - apply List.Forall_cons; [|apply List.Forall_nil].
    intros _. exists (WStr "child-2"). reflexivity.
Defined.

(** *** Registering and erasing *)

Lemma od_del_set_absent {V} (k : Z) (v : V) (d : list (Z * V)) :
  od_get k d = None -> od_del k (od_set k v d) = d.
Proof.
  induction d as [|[k0 v0] d IH]; simpl.
  - intros _. rewrite Z.eqb_refl. reflexivity.
  - destruct (Z.eqb_spec k0 k) as [->|Hne]; [discriminate|].
    intros H. unfold od_del. cbn [List.filter fst].
    destruct (Z.eqb_spec k0 k); [contradiction|]. cbn [negb].
    f_equal. apply IH, H.
Qed.

Lemma add_eval_run (e : Eval) (s : State) : add_eval e s = Ok tt (added e s).
Proof.
  unfold add_eval, added, by_view_getitem. mrun.
  destruct (view e) as [vid|]; mrun; [|reflexivity].
  destruct (evals_by_view s !! vid) as [d|]; mrun; cbn [default]; [reflexivity|].
  unfold set_by_view. cbn [evals_by_view]. rewrite insert_insert_eq. reflexivity.
Qed.

Lemma erase_eval_run (s : State) (e : Eval) :
  registered_in s e ->
  erase_eval e s =
    (if wants_interrupt e then send (interrupt_request e) else ret tt) (removed e s).
Proof.
  intros [[e0 He] Hback].
  unfold erase_eval, removed, wants_interrupt, by_view_getitem. mrun. rewrite He. mrun.
  destruct (view e) as [vid|] eqn:Ev; mrun.
  - destruct (Hback vid eq_refl) as (d & Hd & [e1 Hk]). rewrite Hd. mrun. rewrite Hk. mrun.
    destruct (status e); reflexivity.
  - destruct (status e); reflexivity.
Qed.

(** X12.  [erase_eval] undoes [add_eval]: for a record whose id is not yet
    in use, registering it and erasing it again leaves the registry as it
    was and every view with the records it had; the only request is the
    interrupt, when the record is pending in a session. *)
Theorem erase_undoes_add (s : State) (e : Eval) :
  socket s = true ->
  od_get (id e) (evals s) = None ->
  (forall vid d, view e = Some vid -> evals_by_view s !! vid = Some d ->
     od_get (id e) d = None) ->
  exists s',
    (add_eval e ;;; erase_eval e) s = Ok tt s'
    /\ evals s' = evals s
    /\ (forall vid, default [] (evals_by_view s' !! vid)
                    = default [] (evals_by_view s !! vid))
    /\ sent s' = (sent s ++ if wants_interrupt e then [interrupt_request e] else [])%list.
Proof.
  intros Hsock He Hv.
  rewrite (bind_Ok _ _ _ _ _ (add_eval_run e s)).
  assert (Hreg : registered_in (added e s) e).
  { unfold registered_in, added. split.
    - destruct (view e); cbn [evals set_by_view set_evals log];
        rewrite od_get_set, Z.eqb_refl; eexists; reflexivity.
    - intros vid ->. cbn [evals_by_view set_by_view]. eexists.
      rewrite lookup_insert_eq. split; [reflexivity|].
      rewrite od_get_set, Z.eqb_refl. eexists; reflexivity. }
  rewrite (erase_eval_run _ _ Hreg).
  set (s2 := removed e (added e s)).
  assert (H2 : evals s2 = evals s
               /\ (forall vid, default [] (evals_by_view s2 !! vid)
                               = default [] (evals_by_view s !! vid))
               /\ socket s2 = true
               /\ events s2 = (events s ++ [EvRegister (id e); EvUnregister (id e)])%list).
  { unfold s2, removed, added. destruct (view e) as [vid|] eqn:Ev;
      cbn [evals evals_by_view socket events set_by_view set_evals log].
    - assert (Hd : od_get (id e) (default [] (evals_by_view s !! vid)) = None).
      { destruct (evals_by_view s !! vid) as [d|] eqn:E;
          [apply (Hv vid d eq_refl E)|reflexivity]. }
      set (d := default [] (evals_by_view s !! vid)) in *.
      rewrite lookup_insert_eq.
      change (default [] (Some (od_set (id e) e d))) with (od_set (id e) e d).
      rewrite !od_del_set_absent by assumption. rewrite <- app_assoc.
      repeat split; [|exact Hsock].
      intros vid'. destruct (decide (vid = vid')) as [<-|Hne].
      + rewrite lookup_insert_eq. reflexivity.
      + rewrite !lookup_insert_ne by exact Hne. reflexivity.
    - rewrite od_del_set_absent by assumption. rewrite <- app_assoc.
      repeat split. exact Hsock. }
  destruct H2 as (Hev & Hview & Hs2 & Hevents).
  destruct (wants_interrupt e).
  - unfold send. mrun. rewrite Hs2. eexists. split; [reflexivity|].
    unfold sent. cbn [evals evals_by_view events log]. rewrite Hevents.
    repeat split; [assumption|assumption|].
    rewrite !sent_of_app. cbn [sent_of]. rewrite app_nil_r. reflexivity.
  - exists s2. split; [reflexivity|]. unfold sent. rewrite Hevents.
    repeat split; [assumption|assumption|].
    rewrite sent_of_app. reflexivity.
Qed.

Lemma erase_undoes_add_witness :
  exists s',
    (add_eval eval11 ;;; erase_eval eval11) live_state = Ok tt s'
    /\ evals s' = evals live_state
    /\ (forall vid, default [] (evals_by_view s' !! vid)
                    = default [] (evals_by_view live_state !! vid))
    /\ sent s' = (sent live_state
                    ++ if wants_interrupt eval11 then [interrupt_request eval11] else [])%list.
Proof.
  apply (erase_undoes_add live_state eval11).
  - reflexivity.
  - reflexivity.
  - intros vid d _ H. cbn [live_state evals_by_view] in H.
    rewrite lookup_empty in H. discriminate.
Defined.

Lemma od_del_absent {V} (k : Z) (d : list (Z * V)) :
  od_get k d = None -> od_del k d = d.
Proof.
  induction d as [|[k0 v0] d IH]; [reflexivity|]. cbn [od_get].
  destruct (Z.eqb_spec k0 k) as [->|Hne]; [discriminate|].
  intros H. unfold od_del. cbn [List.filter fst].
  destruct (Z.eqb_spec k0 k); [contradiction|]. cbn [negb]. f_equal. apply IH, H.
Qed.

Lemma removed_index (s : State) (e : Eval) :
  registry_ok s -> od_get (id e) (evals s) = Some e ->
  forall w, default [] (evals_by_view (removed e s) !! w)
            = od_del (id e) (default [] (evals_by_view s !! w)).
Proof.
  intros (_ & _ & Hreg & Hidx & Hback) He w.
  assert (Hother : view e <> Some w ->
            od_del (id e) (default [] (evals_by_view s !! w))
            = default [] (evals_by_view s !! w)).
  { intros Hv. destruct (evals_by_view s !! w) as [d|] eqn:Hd; [|reflexivity].
    apply od_del_absent. cbn [default from_option].
    change (Datatypes.id d) with d.
    destruct (od_get (id e) d) as [e1|] eqn:E; [|reflexivity].
    destruct (Hidx w d Hd) as [_ Hin]. destruct (Hin _ _ E) as [Hv1 He1]. congruence. }
  unfold removed. destruct (view e) as [vid|] eqn:Ev;
    cbn [evals_by_view set_by_view set_evals log].
  - destruct (decide (vid = w)) as [<-|Hne].
    + rewrite lookup_insert_eq. reflexivity.
    + rewrite lookup_insert_ne by exact Hne. symmetry. apply Hother. congruence.
  - symmetry. apply Hother. discriminate.
Qed.

Lemma erase_loop_exact (predicate : Eval -> bool) (items : list (Z * Eval)) :
  forall s,
    registry_ok s ->
    (socket s = true \/ forall e, predicate e = true -> wants_interrupt e = false) ->
    NoDup (map fst items) ->
    Forall (fun kv => od_get (fst kv) (evals s) = Some (snd kv)) items ->
    exists s',
      for_each items
        (fun kv => if predicate (snd kv) then erase_eval (snd kv) else ret tt) s = Ok tt s'
      /\ registry_ok s'
      /\ socket s' = socket s
      /\ evals s' =
           List.filter
             (fun kv => negb (existsb (fun it => predicate (snd it) && (fst kv =? fst it)) items))
             (evals s)
      /\ (forall w,
            default [] (evals_by_view s' !! w) =
            List.filter
              (fun kv => negb (existsb (fun it => predicate (snd it) && (fst kv =? fst it)) items))
              (default [] (evals_by_view s !! w)))
      /\ sent s' =
           (sent s ++ map interrupt_request
              (List.filter (fun e => predicate e && wants_interrupt e) (map snd items)))%list.
Proof.
  induction items as [|[k e] items IH]; intros s Hok Hq Hnd Hitems.
  - exists s. cbn [for_each existsb negb map List.filter]. split; [reflexivity|].
    split; [exact Hok|]. split; [reflexivity|].
    assert (Hid : forall l : list (Z * Eval), l = List.filter (fun _ => true) l).
    { intros l. symmetry. apply forallb_filter_id. apply forallb_forall. reflexivity. }
    split; [apply Hid|]. split; [intros w; apply Hid|].
    rewrite app_nil_r. reflexivity.
  - apply List.Forall_cons_iff in Hitems as [Hhd Htl]. cbn [fst snd] in Hhd.
    cbn [map fst] in Hnd. apply NoDup_cons in Hnd as [Hk Hnd].
    rewrite list_elem_of_In in Hk.
    assert (Hid : id e = k) by (destruct Hok as (_ & _ & Hreg & _); apply (Hreg k e Hhd)).
    cbn [for_each snd map List.filter existsb fst].
    destruct (predicate e) eqn:HP; cbn [andb].
    + rewrite <- Hid in Hhd.
      pose proof (registry_ok_erase_stored s e Hok Hhd) as Hr.
      pose proof (removed_index s e Hok Hhd) as Hidx1.
      destruct (removed_fields e s) as (Hev & Hs & _ & Hevents).
      set (s1 := final ((if wants_interrupt e then send (interrupt_request e) else ret tt)
                          (removed e s))) in *.
      assert (H1 : erase_eval e s = Ok tt s1
                   /\ evals s1 = od_del k (evals s)
                   /\ evals_by_view s1 = evals_by_view (removed e s)
                   /\ socket s1 = socket s
                   /\ sent s1 = (sent s ++ if wants_interrupt e
                                           then [interrupt_request e] else [])%list).
      { rewrite (erase_eval_stored s e Hok Hhd). unfold s1.
        destruct (wants_interrupt e) eqn:Hw.
        - assert (Hsock : socket s = true).
          { destruct Hq as [H|H]; [exact H|]. rewrite (H e HP) in Hw. discriminate. }
          unfold send. mrun. rewrite Hs, Hsock. cbn [final]. unfold sent.
          cbn [evals evals_by_view socket events log]. rewrite Hev, Hs, Hevents, Hid.
          repeat split; [assumption|]. rewrite !sent_of_app. cbn [sent_of].
          rewrite app_nil_r. reflexivity.
        - cbn [final ret]. unfold sent. rewrite Hev, Hs, Hevents, Hid.
          repeat split. rewrite sent_of_app. reflexivity. }
      destruct H1 as (Hrun1 & Hev1 & Hbv1 & Hs1 & Hsent1).
      rewrite Hrun1 in Hr. cbn [final] in Hr.
      destruct (IH s1 Hr) as (s' & Hrun & Hok' & Hs' & Hev' & Hbv' & Hsent').
      { rewrite Hs1. exact Hq. }
      { exact Hnd. }
      { rewrite Hev1. rewrite List.Forall_forall in Htl. apply List.Forall_forall.
        intros [k1 e1] Hin. cbn [fst snd]. specialize (Htl _ Hin). cbn [fst snd] in Htl.
        rewrite od_get_del_ne; [exact Htl|]. intros ->. apply Hk.
        change k1 with (fst (k1, e1)). apply in_map, Hin. }
      assert (Hcomb : forall l : list (Z * Eval),
                List.filter
                  (fun kv => negb (existsb (fun it => predicate (snd it) && (fst kv =? fst it)) items))
                  (od_del k l)
                = List.filter
                    (fun kv => negb ((fst kv =? k)
                                     || existsb (fun it => predicate (snd it) && (fst kv =? fst it)) items))
                    l).
      { intros l. unfold od_del. rewrite filter_filter_and.
        apply filter_ext. intros [k1 e1]. cbn [fst].
        destruct (k1 =? k); reflexivity. }
      exists s'. split; [rewrite (bind_Ok _ _ _ _ _ Hrun1); exact Hrun|].
      split; [exact Hok'|]. split; [congruence|]. split; [|split].
      * rewrite Hev', Hev1. apply Hcomb.
      * intros w. rewrite Hbv', Hbv1, Hidx1, Hid. apply Hcomb.
      * rewrite Hsent', Hsent1. destruct (wants_interrupt e); cbn [map];
          rewrite <- app_assoc; reflexivity.
    + mrun. destruct (IH s Hok Hq Hnd Htl) as (s' & Hrun & Hok' & Hs' & Hev' & Hbv' & Hsent').
      exists s'. split; [exact Hrun|]. split; [exact Hok'|]. split; [exact Hs'|].
      split; [exact Hev'|]. split; [exact Hbv'|exact Hsent'].
Qed.

Lemma scope_key (predicate : Eval -> bool) (s : State) (vid : Z) (d : list (Z * Eval))
    (kv : Z * Eval) :
  registry_ok s -> evals_by_view s !! vid = Some d -> In kv (evals s) ->
  existsb (fun it => predicate (snd it) && (fst kv =? fst it)) d
  = predicate (snd kv) && in_scope (Some vid) (snd kv).
Proof.
  intros (_ & Hnd & Hreg & Hidx & Hback) Hd Hin. destruct kv as [k e]. cbn [fst snd].
  pose proof (od_get_In k e _ Hnd Hin) as He.
  destruct (Hidx vid d Hd) as [Hndd Hget].
  assert (Hout : view e <> Some vid ->
            existsb (fun it => predicate (snd it) && (k =? fst it)) d = false).
  { intros Hv. apply existsb_no_key. intros Hk. apply od_get_None_keys in Hk; [exact Hk|].
    destruct (od_get k d) as [e1|] eqn:E; [|reflexivity].
    destruct (Hget k e1 E) as [Hv1 He1]. congruence. }
  unfold in_scope. destruct (view e) as [w|] eqn:Ev.
  - destruct (Z.eqb_spec w vid) as [->|Hne].
    + destruct (Hback k e vid He Ev) as (d' & Hd' & Hk).
      assert (d' = d) as -> by congruence.
      rewrite andb_true_r.
      apply (existsb_key predicate (k, e) d Hndd). apply od_get_Some_In, Hk.
    + rewrite andb_false_r. apply Hout. congruence.
  - rewrite andb_false_r. apply Hout. discriminate.
Qed.

Lemma index_in_registry (s : State) (w : Z) (kv : Z * Eval) :
  registry_ok s -> In kv (default [] (evals_by_view s !! w)) -> In kv (evals s).
Proof.
  intros (_ & _ & _ & Hidx & _) Hin.
  destruct (evals_by_view s !! w) as [d|] eqn:Hd; [|destruct Hin].
  cbn [default from_option] in Hin. change (Datatypes.id d) with d in Hin.
  destruct (Hidx w d Hd) as [Hnd Hget]. destruct kv as [k e].
  apply od_get_Some_In. apply (Hget k e). apply od_get_In; assumption.
Qed.

Lemma erase_view_run (s : State) (predicate : Eval -> bool) (vid : Z)
    (d : list (Z * Eval)) :
  registry_ok s ->
  (socket s = true \/ forall e, predicate e = true -> wants_interrupt e = false) ->
  evals_by_view s !! vid = Some d ->
  exists s',
    for_each d (fun kv => if predicate (snd kv) then erase_eval (snd kv) else ret tt) s
      = Ok tt s'
    /\ registry_ok s'
    /\ socket s' = socket s
    /\ evals s' =
         List.filter (fun kv => negb (predicate (snd kv) && in_scope (Some vid) (snd kv)))
           (evals s)
    /\ (forall w,
          default [] (evals_by_view s' !! w) =
          List.filter (fun kv => negb (predicate (snd kv) && in_scope (Some vid) (snd kv)))
            (default [] (evals_by_view s !! w)))
    /\ sent s' =
         (sent s ++ map interrupt_request
            (List.filter (fun e => predicate e && wants_interrupt e) (map snd d)))%list.
Proof.
  intros Hok Hq Hd. pose proof Hok as (_ & _ & _ & Hidx & _).
  destruct (Hidx vid d Hd) as [Hnd Hget].
  destruct (erase_loop_exact predicate d s Hok Hq Hnd)
    as (s' & Hrun & Hok' & Hs' & Hev & Hbv & Hsent).
  { apply List.Forall_forall. intros [k e] Hin. cbn [fst snd].
    apply (Hget k e). apply od_get_In; assumption. }
  exists s'. split; [exact Hrun|]. split; [exact Hok'|]. split; [exact Hs'|].
  split; [|split; [|exact Hsent]].
  - rewrite Hev. apply filter_ext_in. intros kv Hin.
    rewrite (scope_key predicate s vid d kv Hok Hd Hin). reflexivity.
  - intros w. rewrite Hbv. apply filter_ext_in. intros kv Hin.
    rewrite (scope_key predicate s vid d kv Hok Hd (index_in_registry s w kv Hok Hin)).
    reflexivity.
Qed.

(** What [erase_evals] does, on a connection with a socket or with a
    predicate that accepts no record to interrupt. *)
Lemma erase_evals_run (s : State) (predicate : Eval -> bool) (v : option Z) :
  registry_ok s ->
  (socket s = true \/ forall e, predicate e = true -> wants_interrupt e = false) ->
  exists s',
    erase_evals predicate v s = Ok tt s'
    /\ registry_ok s'
    /\ socket s' = socket s
    /\ evals s' =
         List.filter (fun kv => negb (predicate (snd kv) && in_scope v (snd kv))) (evals s)
    /\ (forall w,
          default [] (evals_by_view s' !! w) =
          List.filter (fun kv => negb (predicate (snd kv) && in_scope v (snd kv)))
            (default [] (evals_by_view s !! w)))
    /\ sent s' =
         (sent s ++ map interrupt_request
            (List.filter (fun e => predicate e && wants_interrupt e)
               (map snd (listing v s))))%list.
Proof.
  intros Hok Hq. destruct v as [vid|].
  - unfold erase_evals, by_view_getitem, listing. mrun.
    destruct (evals_by_view s !! vid) as [d|] eqn:Hd; mrun.
    + apply (erase_view_run s predicate vid d Hok Hq Hd).
    + set (s0 := set_by_view (insert vid []) s).
      assert (Hd0 : evals_by_view s0 !! vid = Some []) by apply lookup_insert_eq.
      assert (Hbv0 : forall w, default [] (evals_by_view s0 !! w)
                               = default [] (evals_by_view s !! w)).
      { intros w. unfold s0. cbn [evals_by_view set_by_view].
        destruct (decide (vid = w)) as [<-|Hne].
        - rewrite lookup_insert_eq, Hd. reflexivity.
        - rewrite lookup_insert_ne by exact Hne. reflexivity. }
      destruct (erase_view_run s0 predicate vid []
                  (registry_ok_index_insert_nil s vid Hd Hok) Hq Hd0)
        as (s' & Hrun & Hok' & Hs' & Hev & Hbv & Hsent).
      exists s'. split; [exact Hrun|]. split; [exact Hok'|]. split; [exact Hs'|].
      split; [exact Hev|]. split; [|exact Hsent].
      intros w. rewrite Hbv, Hbv0. reflexivity.
  - unfold erase_evals, listing. mrun. pose proof Hok as (_ & Hnd & _).
    destruct (erase_loop_exact predicate (evals s) s Hok Hq Hnd)
      as (s' & Hrun & Hok' & Hs' & Hev & Hbv & Hsent).
    { apply List.Forall_forall. intros [k e] Hin. apply od_get_In; assumption. }
    exists s'. split; [exact Hrun|]. split; [exact Hok'|]. split; [exact Hs'|].
    split; [|split; [|exact Hsent]].
    + rewrite Hev. apply filter_ext_in. intros kv Hin.
      rewrite (existsb_key predicate kv (evals s) Hnd Hin), andb_true_r. reflexivity.
    + intros w. rewrite Hbv. apply filter_ext_in. intros kv Hin.
      rewrite (existsb_key predicate kv (evals s) Hnd (index_in_registry s w kv Hok Hin)),
        andb_true_r. reflexivity.
Qed.

(** X10.  On a connection with a socket, [erase_evals] never fails: of the
    records it lists (the whole registry, or the index of one view) it
    removes exactly those the predicate accepts, from the registry and
    from the index of every view, keeps the others in their order, and
    sends one interrupt for each removed record that was pending with a
    session, in the order of the listing. *)
Theorem erase_evals_removes_accepted (s : State) (predicate : Eval -> bool)
    (v : option Z) :
  registry_ok s -> socket s = true ->
  exists s',
    erase_evals predicate v s = Ok tt s'
    /\ evals s' =
         List.filter (fun kv => negb (predicate (snd kv) && in_scope v (snd kv))) (evals s)
    /\ (forall w,
          default [] (evals_by_view s' !! w) =
          List.filter (fun kv => negb (predicate (snd kv) && in_scope v (snd kv)))
            (default [] (evals_by_view s !! w)))
    /\ sent s' =
         (sent s ++ map interrupt_request
            (List.filter (fun e => predicate e && wants_interrupt e)
               (map snd (listing v s))))%list.
Proof.
  intros Hok Hsock.
  destruct (erase_evals_run s predicate v Hok (or_introl Hsock))
    as (s' & Hrun & _ & _ & Hev & Hbv & Hsent).
  exists s'. split; [exact Hrun|]. split; [exact Hev|]. split; [exact Hbv|exact Hsent].
Qed.

Lemma erase_evals_removes_accepted_witness :
  exists s',
    erase_evals (fun _ => true) (Some 7) view_state = Ok tt s'
    /\ evals s' =
         List.filter (fun kv => negb (true && in_scope (Some 7) (snd kv))) (evals view_state)
    /\ (forall w,
          default [] (evals_by_view s' !! w) =
          List.filter (fun kv => negb (true && in_scope (Some 7) (snd kv)))
            (default [] (evals_by_view view_state !! w)))
    /\ sent s' =
         (sent view_state ++ map interrupt_request
            (List.filter (fun e => true && wants_interrupt e)
               (map snd (listing (Some 7) view_state))))%list.
Proof.
  apply (erase_evals_removes_accepted view_state (fun _ => true) (Some 7)).
  - exact registry_ok_view_state.
  - reflexivity.
Defined.

Lemma settled_quiet (e : Eval) : settled e = true -> wants_interrupt e = false.
Proof. unfold settled, wants_interrupt. destruct (status e); congruence. Qed.

(** X13.  The clear command never fails and never writes to the socket,
    with or without a connection: it removes exactly the settled records
    (neither pending nor being interrupted) that belong to the view or are
    status evaluations, and keeps every other record in its place. *)
Theorem clear_evals_spares_running (s : State) (vid : Z) :
  registry_ok s ->
  exists s',
    clear_evals vid s = Ok tt s'
    /\ sent s' = sent s
    /\ evals s' =
         List.filter
           (fun kv => negb (settled (snd kv)
                            && (in_scope (Some vid) (snd kv) || is_status_eval (snd kv))))
           (evals s).
Proof.
  intros Hok. unfold clear_evals.
  destruct (erase_evals_run s settled (Some vid) Hok)
    as (s1 & Hrun1 & Hok1 & _ & Hev1 & _ & Hsent1).
  { right. apply settled_quiet. }
  destruct (erase_evals_run s1 (fun e => is_status_eval e && settled e) None Hok1)
    as (s2 & Hrun2 & _ & _ & Hev2 & _ & Hsent2).
  { right. intros e He. apply andb_true_iff in He as [_ He]. apply settled_quiet, He. }
  assert (Hnone : forall (p : Eval -> bool) (l : list Eval),
            (forall e, p e = true -> wants_interrupt e = false) ->
            List.filter (fun e => p e && wants_interrupt e) l = []).
  { intros p l Hp. induction l as [|e l IH]; [reflexivity|]. cbn [List.filter].
    destruct (p e) eqn:E; cbn [andb]; [rewrite (Hp e E)|]; exact IH. }
  exists s2. split; [rewrite (bind_Ok _ _ _ _ _ Hrun1); exact Hrun2|]. split.
  - rewrite Hsent2, Hsent1.
    rewrite (Hnone settled) by apply settled_quiet.
    rewrite (Hnone (fun e => is_status_eval e && settled e)).
    + rewrite !app_nil_r. reflexivity.
    + intros e He. apply andb_true_iff in He as [_ He]. apply settled_quiet, He.
  - rewrite Hev2, Hev1, filter_filter_and. apply filter_ext. intros [k e]. cbn [snd].
    unfold in_scope at 2.
    destruct (settled e), (in_scope (Some vid) e), (is_status_eval e); reflexivity.
Qed.

Lemma clear_evals_spares_running_witness :
  exists s',
    clear_evals 7 view_state = Ok tt s'
    /\ sent s' = sent view_state
    /\ evals s' =
         List.filter
           (fun kv => negb (settled (snd kv)
                            && (in_scope (Some 7) (snd kv) || is_status_eval (snd kv))))
           (evals view_state).
Proof.
  apply (clear_evals_spares_running view_state 7). exact registry_ok_view_state.
Defined.

(** X14.  When a view is closed on a connection with a socket, every
    record of the view leaves the registry, the index of the view is left
    empty, the records of other views stay, and the pending evaluations of
    the view that run in a session are interrupted. *)
Theorem on_close_forgets_view (s : State) (vid : Z) :
  registry_ok s -> socket s = true ->
  exists s',
    on_close vid s = Ok tt s'
    /\ default [] (evals_by_view s' !! vid) = []
    /\ evals s' = List.filter (fun kv => negb (in_scope (Some vid) (snd kv))) (evals s)
    /\ (forall w, w <> vid ->
          default [] (evals_by_view s' !! w) = default [] (evals_by_view s !! w))
    /\ sent s' =
         (sent s ++ map interrupt_request
            (List.filter wants_interrupt
               (map snd (default [] (evals_by_view s !! vid)))))%list.
Proof.
  intros Hok Hsock. unfold on_close.
  destruct (erase_evals_run s (fun _ => true) (Some vid) Hok (or_introl Hsock))
    as (s' & Hrun & _ & _ & Hev & Hbv & Hsent).
  pose proof Hok as (_ & _ & _ & Hidx & _).
  assert (Hin : forall w kv, In kv (default [] (evals_by_view s !! w)) ->
            in_scope (Some vid) (snd kv) = (w =? vid)).
  { intros w [k e] H. destruct (evals_by_view s !! w) as [d|] eqn:Hd; [|destruct H].
    cbn [default from_option] in H. change (Datatypes.id d) with d in H.
    destruct (Hidx w d Hd) as [Hnd Hget].
    destruct (Hget k e (od_get_In k e d Hnd H)) as [Hv _].
    cbn [snd]. unfold in_scope. rewrite Hv. reflexivity. }
  exists s'. split; [exact Hrun|]. split; [|split; [exact Hev|split; [|exact Hsent]]].
  - rewrite Hbv. rewrite (filter_ext_in _ (fun _ => false)); [|].
    + induction (default [] (evals_by_view s !! vid)) as [|x l IH]; [reflexivity|exact IH].
    + intros kv H. rewrite (Hin vid kv H), Z.eqb_refl. reflexivity.
  - intros w Hne. rewrite Hbv. apply forallb_filter_id. apply forallb_forall.
    intros kv H. rewrite (Hin w kv H). destruct (Z.eqb_spec w vid); [contradiction|reflexivity].
Qed.

Lemma on_close_forgets_view_witness :
  exists s',
    on_close 7 view_state = Ok tt s'
    /\ default [] (evals_by_view s' !! 7) = []
    /\ evals s' = List.filter (fun kv => negb (in_scope (Some 7) (snd kv))) (evals view_state)
    /\ (forall w, w <> 7 ->
          default [] (evals_by_view s' !! w) = default [] (evals_by_view view_state !! w))
    /\ sent s' =
         (sent view_state ++ map interrupt_request
            (List.filter wants_interrupt
               (map snd (default [] (evals_by_view view_state !! 7)))))%list.
Proof.
  apply (on_close_forgets_view view_state 7).
  - exact registry_ok_view_state.
  - reflexivity.
Defined.

(** *** The handshake of [ConnectionNreplJvm] *)

Section jvm_handshake.
Variable parent_ready : NreplJvm.conn -> bool.
Variables exception_clj middleware_clj : string.
Variable eval_shared : option wire.
Variable addr : string.

Local Abbreviation jhandle :=
  (NreplJvm.handle_connect parent_ready exception_clj middleware_clj eval_shared addr).

(** What [send] appends keeps the entries of the message it was given,
    the three middleware options apart. *)
Lemma jsend_appends (m : request) (c : NreplJvm.conn) :
  exists r,
    NreplJvm.jsent (NreplJvm.jsend parent_ready m c) = (NreplJvm.jsent c ++ [r])%list
    /\ r !! "id" = m !! "id" /\ r !! "op" = m !! "op" /\ r !! "session" = m !! "session".
Proof.
  unfold NreplJvm.jsend. destruct (parent_ready c); eexists; (split; [reflexivity|]).
  - rewrite !lookup_insert_ne by discriminate. repeat split.
  - repeat split.
Qed.

Lemma jvm_step (m : msg) (c : NreplJvm.conn) (n : Z) :
  2 <= n <= 5 -> answers n m ->
  exists c',
    jhandle m c = Some (c', true)
    /\ NreplJvm.jsession c' = NreplJvm.jsession c
    /\ if n =? 5 then
         NreplJvm.jsent c' = NreplJvm.jsent c /\ NreplJvm.jstatus c' = Some (4, addr)
       else
         exists r,
           NreplJvm.jsent c' = (NreplJvm.jsent c ++ [r])%list
           /\ r !! "session" = Some (NreplJvm.jsession c)
           /\ r !! "id" = Some (Some (WInt (if n =? 3
                                           then (if truthy_opt eval_shared then 4 else 5)
                                           else n + 1)))
           /\ r !! "op" = Some (Some (WStr (if n =? 3 then "add-middleware"
                                           else if n =? 4 then "eval" else "load-file"))).
Proof.
  intros Hn [Hid Hdone]. unfold jhandle, NreplJvm.handle_connect.
  rewrite Hid, Hdone. cbn [eq_int].
  assert (n = 2 \/ n = 3 \/ n = 4 \/ n = 5) as [-> | [-> | [-> | ->]]] by lia;
    cbn [Z.eqb Pos.eqb andb]; eexists; (split; [reflexivity|]); (split; [reflexivity|]).
  - match goal with |- context [NreplJvm.jsend _ ?m ?c0] =>
      destruct (jsend_appends m c0) as (r & Hs & Hi & Ho & Hse) end.
    exists r. rewrite Hs, Hi, Ho, Hse. repeat split.
  - match goal with |- context [NreplJvm.jsend _ ?m ?c0] =>
      destruct (jsend_appends m c0) as (r & Hs & Hi & Ho & Hse) end.
    exists r. rewrite Hs, Hi, Ho, Hse. repeat split.
  - match goal with |- context [NreplJvm.jsend _ ?m ?c0] =>
      destruct (jsend_appends m c0) as (r & Hs & Hi & Ho & Hse) end.
    exists r. rewrite Hs, Hi, Ho, Hse. repeat split.
  - split; reflexivity.
Qed.

Lemma jvm_clone_step (m : msg) (c : NreplJvm.conn) (tok : wire) :
  m !! "id" = Some (WInt 1) -> m !! "new-session" = Some tok ->
  exists c' r,
    jhandle m c = Some (c', true)
    /\ NreplJvm.jsession c' = Some tok
    /\ NreplJvm.jsent c' = (NreplJvm.jsent c ++ [r])%list
    /\ r !! "session" = Some (Some tok)
    /\ r !! "id" = Some (Some (WInt 2))
    /\ r !! "op" = Some (Some (WStr "load-file")).
Proof.
  intros Hid Htok. unfold jhandle, NreplJvm.handle_connect.
  rewrite Hid, Htok. cbn [eq_int Z.eqb Pos.eqb andb].
  rewrite bool_decide_eq_true_2 by (eexists; reflexivity).
  match goal with |- context [NreplJvm.jsend _ ?m ?c0] =>
    destruct (jsend_appends m c0) as (r & Hs & Hi & Ho & Hse) end.
  eexists. exists r. split; [reflexivity|]. rewrite Hs, Hi, Ho, Hse. repeat split.
Qed.

End jvm_handshake.

(** X15.  The handshake of [ConnectionNreplJvm]: when the clone reply and
    then the replies to the requests are handled in turn, each reply with
    [done] somewhere in its status, the connection sends [load-file] 2,
    [load-file] 3, [add-middleware] (as 4 when shared init code is set,
    else as 5) and, with shared init code, [eval] 5, every one in the new
    session, and ends in phase 4 showing the address. *)
Theorem jvm_handshake_requests (parent_ready : NreplJvm.conn -> bool)
    (exception_clj middleware_clj : string) (eval_shared : option wire) (addr : string)
    (c : NreplJvm.conn) (tok : wire) (m1 m2 m3 m4 m5 : msg) :
  m1 !! "id" = Some (WInt 1) -> m1 !! "new-session" = Some tok ->
  answers 2 m2 -> answers 3 m3 -> answers 4 m4 -> answers 5 m5 ->
  exists c' rs,
    jvm_feed parent_ready exception_clj middleware_clj eval_shared addr
      (m1 :: m2 :: m3 :: (if truthy_opt eval_shared then [m4; m5] else [m5])) c = Some c'
    /\ NreplJvm.jstatus c' = Some (4, addr)
    /\ NreplJvm.jsession c' = Some tok
    /\ NreplJvm.jsent c' = (NreplJvm.jsent c ++ rs)%list
    /\ Forall (fun r => r !! "session" = Some (Some tok)) rs
    /\ map (fun r => (r !! "id", r !! "op")) rs =
       map (fun io => (Some (Some (WInt (fst io))), Some (Some (WStr (snd io)))))
         (if truthy_opt eval_shared
          then [(2, "load-file"); (3, "load-file"); (4, "add-middleware"); (5, "eval")]
          else [(2, "load-file"); (3, "load-file"); (5, "add-middleware")]).
Proof.
  intros H1 Htok H2 H3 H4 H5.
  pose proof (jvm_clone_step parent_ready exception_clj middleware_clj eval_shared addr)
    as jvm_clone_step.
  pose proof (jvm_step parent_ready exception_clj middleware_clj eval_shared addr)
    as jvm_step.
  set (jhandle := NreplJvm.handle_connect parent_ready exception_clj middleware_clj
                    eval_shared addr) in *.
  destruct (jvm_clone_step m1 c tok H1 Htok) as (c1 & r1 & R1 & S1 & T1 & A1 & B1 & C1).
  destruct (jvm_step m2 c1 2 ltac:(lia) H2) as (c2 & R2 & S2 & r2 & T2 & A2 & B2 & C2).
  destruct (jvm_step m3 c2 3 ltac:(lia) H3) as (c3 & R3 & S3 & r3 & T3 & A3 & B3 & C3).
  cbn [Z.eqb Pos.eqb] in *.
  assert (Hfeed : forall ms c0,
            jvm_feed parent_ready exception_clj middleware_clj eval_shared addr ms c0
            = match ms with
              | [] => Some c0
              | m :: ms' =>
                  match jhandle m c0 with
                  | Some (c', _) =>
                      jvm_feed parent_ready exception_clj middleware_clj eval_shared addr ms' c'
                  | None => None
                  end
              end) by (intros [|m ms] c0; reflexivity).
  rewrite Hfeed, R1, Hfeed, R2, Hfeed, R3.
  assert (S2' : NreplJvm.jsession c2 = Some tok) by congruence.
  assert (S3' : NreplJvm.jsession c3 = Some tok) by congruence.
  rewrite S1 in A2. rewrite S2' in A3.
  destruct (truthy_opt eval_shared).
  - destruct (jvm_step m4 c3 4 ltac:(lia) H4) as (c4 & R4 & S4 & r4 & T4 & A4 & B4 & C4).
    destruct (jvm_step m5 c4 5 ltac:(lia) H5) as (c5 & R5 & S5 & T5 & U5).
    cbn [Z.eqb Pos.eqb] in *.
    exists c5, [r1; r2; r3; r4]. rewrite Hfeed, R4, Hfeed, R5.
    split; [reflexivity|]. split; [exact U5|]. split; [congruence|]. split; [|split].
    + rewrite T5, T4, T3, T2, T1, <- !app_assoc. reflexivity.
    + rewrite S3' in A4. repeat apply List.Forall_cons; try assumption. apply List.Forall_nil.
    + cbn [map fst snd]. rewrite B1, C1, B2, C2, B3, C3, B4, C4. reflexivity.
  - destruct (jvm_step m5 c3 5 ltac:(lia) H5) as (c5 & R5 & S5 & T5 & U5).
    exists c5, [r1; r2; r3]. rewrite Hfeed, R5.
    split; [reflexivity|]. split; [exact U5|]. split; [congruence|]. split; [|split].
    + rewrite T5, T3, T2, T1, <- !app_assoc. reflexivity.
    + repeat apply List.Forall_cons; try assumption. apply List.Forall_nil.
    + cbn [map fst snd]. rewrite B1, C1, B2, C2, B3, C3. reflexivity.
Qed.

Lemma jvm_handshake_requests_witness :
  exists c' rs,
    jvm_feed (fun _ => false) "(ns clojure-sublimed.exception)"
      "(ns clojure-sublimed.middleware)" None "localhost:5555"
      (clone_reply (WInt 1) (WStr "tok") :: done_reply (WInt 2) :: done_reply (WInt 3)
         :: (if truthy_opt None then [done_reply (WInt 4); done_reply (WInt 5)]
             else [done_reply (WInt 5)])) jvm_fresh = Some c'
    /\ NreplJvm.jstatus c' = Some (4, "localhost:5555")
    /\ NreplJvm.jsession c' = Some (WStr "tok")
    /\ NreplJvm.jsent c' = (NreplJvm.jsent jvm_fresh ++ rs)%list
    /\ Forall (fun r => r !! "session" = Some (Some (WStr "tok"))) rs
    /\ map (fun r => (r !! "id", r !! "op")) rs =
       map (fun io => (Some (Some (WInt (fst io))), Some (Some (WStr (snd io)))))
         (if truthy_opt None
          then [(2, "load-file"); (3, "load-file"); (4, "add-middleware"); (5, "eval")]
          else [(2, "load-file"); (3, "load-file"); (5, "add-middleware")]).
Proof.
  apply (jvm_handshake_requests (fun _ => false) "(ns clojure-sublimed.exception)"
           "(ns clojure-sublimed.middleware)" None "localhost:5555" jvm_fresh (WStr "tok")
           (clone_reply (WInt 1) (WStr "tok")) (done_reply (WInt 2)) (done_reply (WInt 3))
           (done_reply (WInt 4)) (done_reply (WInt 5)));
    try reflexivity; split; reflexivity.
Defined.

(** *** The progress indicator *)

Lemma update_phases_fields (ps : list string) (iv : Z) (p : ProgressThread.t) :
  ProgressThread.phases (ProgressThread.update_phases ps iv p) = Some ps
  /\ ProgressThread.phase_idx (ProgressThread.update_phases ps iv p) = 0%nat.
Proof.
  unfold ProgressThread.update_phases, ProgressThread.start, ProgressThread.stop.
  cbn [ProgressThread.running ProgressThread.phases ProgressThread.phase_idx
       ProgressThread.interval].
  destruct (1 <? length ps)%nat; [destruct (ProgressThread.running p)|]; split; reflexivity.
Qed.

Lemma advances_index (ps : list string) (n : nat) :
  forall p,
    ProgressThread.phases p = Some ps ->
    (ProgressThread.phase_idx p < length ps)%nat ->
    exists p',
      ProgressThread.advances n p = Some p'
      /\ ProgressThread.phases p' = Some ps
      /\ ProgressThread.phase_idx p' = ((ProgressThread.phase_idx p + n) mod length ps)%nat.
Proof.
  induction n as [|n IH]; intros p Hps Hidx.
  - exists p. split; [reflexivity|]. split; [exact Hps|].
    rewrite Nat.add_0_r, Nat.mod_small by exact Hidx. reflexivity.
  - cbn [ProgressThread.advances]. unfold ProgressThread.advance. rewrite Hps.
    destruct (Nat.eqb_spec (length ps) 0) as [H0|H0]; [lia|].
    set (p1 := ProgressThread.mk _ _ _ _).
    destruct (IH p1) as (p' & Hrun & Hps' & Hidx').
    + reflexivity.
    + cbn [p1 ProgressThread.phase_idx]. apply Nat.mod_upper_bound, H0.
    + exists p'. split; [exact Hrun|]. split; [exact Hps'|].
      rewrite Hidx'. cbn [p1 ProgressThread.phase_idx].
      rewrite Nat.Div0.add_mod_idemp_l. f_equal. lia.
Qed.

(** X16.  Once the settings have supplied at least one phase, the index of
    the progress indicator stays inside the list however many passes of
    the loop have moved it on: advancing never fails, and after [n]
    advances [phase] returns the phase at position [n mod len], so the
    phases are shown in order, round and round. *)
Theorem phases_cycle (ps : list string) (iv : Z) (p : ProgressThread.t) (n : nat) :
  ps <> [] ->
  exists p' x,
    ProgressThread.advances n (ProgressThread.update_phases ps iv p) = Some p'
    /\ nth_error ps (n mod length ps) = Some x
    /\ ProgressThread.phase p' = inr x.
Proof.
  intros Hne. destruct (update_phases_fields ps iv p) as [Hps Hidx].
  assert (Hlen : (0 < length ps)%nat) by (destruct ps; [congruence|cbn; lia]).
  destruct (advances_index ps n (ProgressThread.update_phases ps iv p) Hps)
    as (p' & Hrun & Hps' & Hidx'); [rewrite Hidx; exact Hlen|].
  rewrite Hidx, Nat.add_0_l in Hidx'.
  destruct (nth_error ps (n mod length ps)) as [x|] eqn:E.
  - exists p', x. split; [exact Hrun|]. split; [reflexivity|].
    unfold ProgressThread.phase. rewrite Hps', Hidx', E. reflexivity.
  - apply nth_error_None in E.
    pose proof (Nat.mod_upper_bound n (length ps)). lia.
Qed.

Lemma phases_cycle_witness :
  exists p' x,
    ProgressThread.advances 4
      (ProgressThread.update_phases ["."; ".."; "..."] 100 ProgressThread.init) = Some p'
    /\ nth_error ["."; ".."; "..."] (4 mod length ["."; ".."; "..."]) = Some x
    /\ ProgressThread.phase p' = inr x.
Proof.
  apply (phases_cycle ["."; ".."; "..."] 100 ProgressThread.init 4). discriminate.
Defined.

(** *** Escaping of annotations *)

Lemma has_char_append (c : Ascii.ascii) (a b : string) :
  has_char c (a +:+ b) = has_char c a || has_char c b.
Proof.
  induction a as [|x a IH]; [reflexivity|]. simpl.
  rewrite IH, orb_assoc. reflexivity.
Qed.

Lemma replace_char_removes (c : Ascii.ascii) (r s : string) :
  has_char c r = false -> has_char c (replace_char c r s) = false.
Proof.
  intros Hr. induction s as [|a s IH]; [reflexivity|]. cbn [replace_char].
  destruct (Ascii.eqb a c) eqn:E.
  - rewrite has_char_append, Hr, IH. reflexivity.
  - cbn [has_char]. rewrite E, IH. reflexivity.
Qed.

Lemma replace_char_keeps_absent (c d : Ascii.ascii) (r s : string) :
  has_char d r = false -> has_char d s = false ->
  has_char d (replace_char c r s) = false.
Proof.
  intros Hr. induction s as [|a s IH]; [reflexivity|]. cbn [replace_char has_char].
  intros Hs. apply orb_false_iff in Hs as [Ha Hs].
  destruct (Ascii.eqb a c).
  - rewrite has_char_append, Hr, (IH Hs). reflexivity.
  - cbn [has_char]. rewrite Ha, (IH Hs). reflexivity.
Qed.

(** X17.  Whatever [html.escape] returns, the text [Eval.escape] hands to
    the editor holds neither a space nor a tab: both have been replaced by
    non-breaking spaces. *)
Theorem escape_leaves_no_blank (html_escape : string -> string) (value : string) :
  has_char space (escape html_escape value) = false
  /\ has_char tab (escape html_escape value) = false.
Proof.
  unfold escape. split.
  - apply replace_char_removes. reflexivity.
  - apply replace_char_keeps_absent; [reflexivity|].
    apply replace_char_removes. reflexivity.
Qed.

(** *** A namespace the server does not know *)

(** X18.  The answer that reports an unknown namespace marks the record
    as failed with the text [Namespace not found: <ns>] and leaves it in
    the registry, also when the same answer has [done] in its status: the
    exception handler runs before [handle_done], which leaves failed
    records alone.  Nothing is sent. *)
Theorem namespace_not_found_marks_record (s : State) (m : msg) (e : Eval)
    (st n : wire) :
  m !! truncated_keys = None ->
  handshake_id (m !! "id") = false ->
  m !! "id" = Some (WInt (id e)) ->
  od_get (id e) (evals s) = Some e ->
  m !! "new-session" = None -> m !! "value" = None ->
  truthy_opt (mw_get m "root-ex-class") && truthy_opt (mw_get m "root-ex-msg") = false ->
  m !! "root-ex" = None -> m !! "ex" = None -> m !! "info" = None ->
  m !! "status" = Some st -> str_in "namespace-not-found" st = Some true ->
  m !! "ns" = Some n ->
  exists s', handle_msg m s = Ok tt s'
    /\ od_get (id e) (evals s')
       = Some (with_status_value Exception
                 (Some (WStr ("Namespace not found: " +:+ py_str (ext s) n))) e)
    /\ events s' = events s.
Proof.
  intros Htk Hhs Hid He Hns Hv Hguard Hrx Hex Hinfo Hst Hnnf Hn.
  set (f := with_status_value Exception
              (Some (WStr ("Namespace not found: " +:+ py_str (ext s) n)))).
  destruct (mutate_eval_run s e f He) as (s' & Hrun & He' & _ & Hev & _).
  exists s'. split; [|split; [exact He'|exact Hev]].
  rewrite (handle_msg_untruncated m s Htk).
  unfold orelse at 1. unfold bind at 1 2. rewrite (handle_connect_unknown s m Hhs).
  unfold orelse at 1. unfold bind at 1.
  unfold handle_new_session. rewrite Hns. unfold ret at 1.
  unfold orelse at 1. unfold bind at 1.
  unfold handle_value. rewrite Hv. unfold ret at 1.
  unfold orelse at 1. unfold bind at 1.
  unfold handle_exception. unfold bind at 1.
  rewrite (lookup_registered_found m s e Hid He).
  rewrite Hguard, Hrx, Hex, Hst, Hnnf, Hn.
  unfold bind at 1. unfold get_state at 1. unfold bind at 1.
  fold f. rewrite Hrun. unfold ret at 1.
  unfold orelse at 1. unfold bind at 1.
  unfold handle_lookup. rewrite Hinfo. unfold ret at 1.
  unfold handle_done. unfold bind at 1.
  assert (Hid' : m !! "id" = Some (WInt (id (f e)))) by exact Hid.
  rewrite (lookup_registered_found m s' (f e) Hid' He'). rewrite Hst.
  destruct st as [x|z|l|d]; try discriminate; cbn [str_in];
    match goal with |- context [if ?b then _ else _] => destruct b end; reflexivity.
Qed.

(** *** The reader thread *)

Lemma held_refl (s : State) : held s s.
Proof. reflexivity. Qed.

Lemma held_trans (a b c : State) : held a b -> held b c -> held a c.
Proof. unfold held. congruence. Qed.

Ltac held_bind := apply (keeps_bind held held_trans).
Ltac held_ret := apply (keeps_ret held held_refl).
Ltac held_raise := apply (keeps_raise held held_refl).

Lemma held_send (r : request) : keeps held (send r).
Proof. intros s. unfold send, held. mrun. destruct (socket s) eqn:E; cbn; congruence. Qed.

Lemma held_set_status (st : option string) : keeps held (set_status st).
Proof. intros s. reflexivity. Qed.

Lemma held_mutate (i : Z) (f : Eval -> Eval) : keeps held (mutate_eval i f).
Proof. intros s. reflexivity. Qed.

Lemma held_lookup_registered (m : msg) : keeps held (lookup_registered m).
Proof.
  intros s. unfold lookup_registered. destruct (m !! "id") as [[| | |]|]; reflexivity.
Qed.

Lemma held_getitem (vid : Z) : keeps held (by_view_getitem vid).
Proof.
  intros s. unfold by_view_getitem. mrun. destruct (evals_by_view s !! vid); reflexivity.
Qed.

Lemma held_get : keeps held get_state.
Proof. apply keeps_get, held_refl. Qed.

Lemma held_modify (f : State -> State) :
  (forall s, socket (f s) = socket s) -> keeps held (modify f).
Proof. intros H s. apply H. Qed.

Ltac held_step :=
  first
    [ held_ret | held_raise | apply held_send | apply held_set_status
    | apply held_mutate | apply held_lookup_registered | apply held_getitem
    | apply held_get | apply held_modify; intros ?; reflexivity ].

Ltac held_auto :=
  repeat first
    [ held_step
    | held_bind; [|intros ?]
    | match goal with
      | |- keeps held (match ?x with _ => _ end) => destruct x
      end ].

Lemma held_erase_eval (e : Eval) : keeps held (erase_eval e).
Proof. unfold erase_eval. held_auto. Qed.

Lemma held_handle_connect (m : msg) : keeps held (handle_connect m).
Proof. unfold handle_connect, handle_connect_default. held_auto. Qed.

Lemma held_later_handlers (m : msg) :
  keeps held
    (orelse (handle_new_session m)
       (orelse (handle_value m)
          (orelse (handle_exception m)
             (orelse (handle_lookup m) (handle_done m))))).
Proof.
  unfold orelse, handle_new_session, handle_value, handle_exception,
    exception_structured, handle_lookup, handle_done.
  repeat first
    [ held_step
    | apply held_erase_eval
    | held_bind; [|intros ?]
    | match goal with
      | |- keeps held (match ?x with _ => _ end) => destruct x
      end ].
Qed.

Lemma held_handle_msg (m : msg) : keeps held (handle_msg m).
Proof.
  unfold handle_msg.
  destruct (truncation_worklist m) as [keys|]; [|held_raise].
  destruct (truncate_all keys m) as [e|m']; [held_raise|].
  held_bind; [|intros _; held_ret].
  unfold orelse at 1. held_bind; [apply held_handle_connect|].
  intros [|]; [held_ret|apply held_later_handlers].
Qed.

(** X19.  The reader thread started on a held socket ends in one of two
    ways.  When every response is handled without an exception, the
    connection is reset: no socket, no session, no status, no records.
    When a handler raises, the exception ends the thread where it is and
    [disconnect] is not reached: the socket is still held. *)
Theorem read_loop_ends (s : State) (incoming : list msg) :
  socket s = true ->
  (exists s', read_loop incoming s = Ok tt s'
     /\ socket s' = false /\ csession s' = None /\ cstatus s' = None
     /\ evals s' = [] /\ evals_by_view s' = ∅)
  \/ (exists e s', read_loop incoming s = Raise e s' /\ socket s' = true).
Proof.
  intros Hsock. unfold read_loop.
  assert (Hbody : keeps held (read_loop_open ;;; for_each incoming handle_msg)).
  { unfold read_loop_open. held_bind; [held_bind; [held_step|intros _; held_step]|intros _].
    apply (keeps_for_each held held_refl held_trans). intros m. apply held_handle_msg. }
  specialize (Hbody s). unfold held in Hbody. rewrite Hsock in Hbody.
  assert (Hassoc : (read_loop_open ;;; for_each incoming handle_msg ;;; disconnect) s
                   = ((read_loop_open ;;; for_each incoming handle_msg) ;;; disconnect) s).
  { unfold bind. destruct (read_loop_open s) as [[] s1|x s1]; reflexivity. }
  rewrite Hassoc.
  change (((read_loop_open ;;; for_each incoming handle_msg) ;;; disconnect) s)
    with (match (read_loop_open ;;; for_each incoming handle_msg) s with
          | Ok _ s' => disconnect s'
          | Raise x s' => Raise x s'
          end).
  destruct ((read_loop_open ;;; for_each incoming handle_msg) s) as [[] s1|x s1];
    cbn [final] in Hbody.
  - left. unfold disconnect, reset. mrun. rewrite Hbody. mrun.
    eexists. split; [reflexivity|]. repeat split.
  - right. exists x, s1. split; [reflexivity|exact Hbody].
Qed.

Lemma namespace_not_found_marks_record_witness :
  exists s', handle_msg namespace_missing10 live_state = Ok tt s'
    /\ od_get (id eval10) (evals s')
       = Some (with_status_value Exception
                 (Some (WStr ("Namespace not found: "
                              +:+ py_str (ext live_state) (WStr "app.core")))) eval10)
    /\ events s' = events live_state.
Proof.
  apply (namespace_not_found_marks_record live_state namespace_missing10 eval10
           (WList [WStr "done"; WStr "error"; WStr "namespace-not-found"])
           (WStr "app.core")); reflexivity.
Defined.

Lemma read_loop_ends_witness :
  (exists s', read_loop [truncated_missing] connected_default = Ok tt s'
     /\ socket s' = false /\ csession s' = None /\ cstatus s' = None
     /\ evals s' = [] /\ evals_by_view s' = ∅)
  \/ (exists e s', read_loop [truncated_missing] connected_default = Raise e s'
        /\ socket s' = true).
Proof.
  apply (read_loop_ends connected_default [truncated_missing]). reflexivity.
Defined.

(** *** From the eval-code command to the end of the evaluation *)

Lemma same_setup_refl (s : State) : same_setup s s.
Proof. repeat split. Qed.

Lemma same_setup_trans (a b c : State) :
  same_setup a b -> same_setup b c -> same_setup a c.
Proof. intros (A1 & A2 & A3) (B1 & B2 & B3). repeat split; congruence. Qed.

Lemma setup_erase_eval (e : Eval) : keeps same_setup (erase_eval e).
Proof.
  intros s. unfold erase_eval, by_view_getitem, send. mrun.
  destruct (od_get (id e) (evals s)); [|apply same_setup_refl]. mrun.
  destruct (view e) as [vid|]; mrun.
  - destruct (evals_by_view s !! vid) as [d|]; mrun;
      (destruct (od_get (id e) _); mrun; [|repeat split]);
      destruct (status e), (truthy_opt (session e)); mrun;
        try (repeat split); destruct (socket s); repeat split.
  - destruct (status e), (truthy_opt (session e)); mrun;
      try (repeat split); destruct (socket s); repeat split.
Qed.

Lemma setup_erase_evals (predicate : Eval -> bool) (v : option Z) :
  keeps same_setup (erase_evals predicate v).
Proof.
  unfold erase_evals. apply (keeps_bind same_setup same_setup_trans).
  - destruct v as [vid|]; intros s; [|repeat split].
    unfold by_view_getitem. mrun. destruct (evals_by_view s !! vid); repeat split.
  - intros items. apply (keeps_for_each same_setup same_setup_refl same_setup_trans).
    intros kv. destruct (predicate (snd kv)); [apply setup_erase_eval|].
    apply (keeps_ret same_setup same_setup_refl).
Qed.

Lemma od_del_alter {V} (f : V -> V) (k : Z) (d : list (Z * V)) :
  od_del k (od_alter f k d) = od_del k d.
Proof.
  induction d as [|[k0 v0] d IH]; [reflexivity|]. cbn [od_alter].
  destruct (Z.eqb_spec k0 k) as [->|Hne]; unfold od_del; cbn [List.filter fst].
  - rewrite Z.eqb_refl. reflexivity.
  - destruct (Z.eqb_spec k0 k); [contradiction|]. cbn [negb]. f_equal. exact IH.
Qed.

Lemma finished_quiet (e : Eval) : finished_status_eval e = true -> wants_interrupt e = false.
Proof.
  unfold finished_status_eval, wants_interrupt. intros H.
  apply andb_true_iff in H as [_ H]. destruct (status e); congruence.
Qed.

Lemma filter_quiet (p : Eval -> bool) (l : list Eval) :
  (forall e, p e = true -> wants_interrupt e = false) ->
  List.filter (fun e => p e && wants_interrupt e) l = [].
Proof.
  intros Hp. induction l as [|e l IH]; [reflexivity|]. cbn [List.filter].
  destruct (p e) eqn:E; cbn [andb]; [rewrite (Hp e E)|]; exact IH.
Qed.

(** A bare [done] for a pending record goes through the chain to
    [handle_done], which erases the record. *)
Lemma route_plain_done (s : State) (m : msg) (e : Eval) :
  plain_done_ack m = true ->
  m !! "id" = Some (WInt (id e)) ->
  od_get (id e) (evals s) = Some e ->
  status e = Pending ->
  handle_msg m s =
    match erase_eval e s with
    | Ok _ s' => Ok tt s'
    | Raise x s' => Raise x s'
    end.
Proof.
  intros Hack Hid Hget Hst.
  destruct (plain_done_ack_fields m Hack)
    as ((st & Hstatus & Hdone & Hnsnf) & Hhs & Htk & Hns & Hval & Hinfo & Hrex & Hex & Hstruct).
  pose proof (lookup_registered_found m s e Hid Hget) as Hlook.
  rewrite (handle_msg_untruncated m s Htk).
  unfold orelse at 1. unfold bind at 1 2. rewrite (handle_connect_unknown s m Hhs).
  unfold orelse at 1. unfold bind at 1.
  unfold handle_new_session. rewrite Hns. unfold ret at 1.
  unfold orelse at 1. unfold bind at 1.
  unfold handle_value. rewrite Hval. unfold ret at 1.
  unfold orelse at 1. unfold bind at 1.
  unfold handle_exception. unfold bind at 1. rewrite Hlook, Hstruct, Hrex, Hex, Hstatus.
  cbn [str_in]. rewrite Hnsnf. unfold ret at 1.
  unfold orelse at 1. unfold bind at 1.
  unfold handle_lookup. rewrite Hinfo. unfold ret at 1.
  unfold handle_done. unfold bind at 1. rewrite Hlook, Hstatus. cbn [str_in].
  rewrite Hdone, Hst. unfold bind. destruct (erase_eval e s); reflexivity.
Qed.

(** X20.  The life of an evaluation started by the eval-code command, on
    a ready connection: the command registers a pending record under the
    next id and sends one request; the bare [done] that answers this id
    removes the record again without an interrupt.  In the end the
    registry holds what it held before, less the finished status
    evaluations the command cleared, and the one request is all that was
    sent. *)
Theorem eval_code_then_done (s : State) (src : string) (nspace : option string)
    (p : string) :
  registry_ok s -> socket s = true ->
  nth_error (phases (ext s)) (phase_idx (ext s)) = Some p ->
  exists s1 s2 e,
    eval_code src nspace s = Ok tt s1
    /\ od_get (next_id s) (evals s1) = Some e
    /\ id e = next_id s /\ status e = Pending /\ value e = Some (WStr p)
    /\ handle_msg (done_reply (WInt (next_id s))) s1 = Ok tt s2
    /\ evals s2 = List.filter (fun kv => negb (finished_status_eval (snd kv))) (evals s)
    /\ sent s2 =
       (sent s ++ [eval_code_request s
                     (mkEval (next_id s) true None Pending src None None None None None)
                     src nspace])%list.
Proof.
  intros Hok Hsock Hphase.
  destruct (erase_evals_run s finished_status_eval None Hok (or_intror finished_quiet))
    as (sa & Hrun & Hoka & Hsa & Heva & _ & Hsenta).
  destruct (setup_erase_evals finished_status_eval None s) as (Hn & Hext & Hprof).
  rewrite Hrun in Hn, Hext, Hprof. cbn [final] in Hn, Hext, Hprof.
  rewrite filter_quiet in Hsenta by apply finished_quiet. rewrite app_nil_r in Hsenta.
  assert (Hfilter : evals sa
            = List.filter (fun kv => negb (finished_status_eval (snd kv))) (evals s)).
  { rewrite Heva. apply filter_ext. intros kv. rewrite andb_true_r. reflexivity. }
  clear Heva.
  set (n := next_id s) in *.
  set (e0 := mkEval n true None Pending src None None None None None).
  set (r := eval_code_request s e0 src nspace).
  set (e1 := with_msg (Some r) e0).
  set (e2 := with_status_value Pending (Some (WStr p)) e1).
  assert (Hfresh : od_get n (evals sa) = None).
  { destruct (od_get n (evals sa)) as [x|] eqn:E; [|reflexivity].
    destruct Hoka as (_ & _ & Hreg & _). destruct (Hreg n x E) as [_ Hr]. lia. }
  set (s1 := set_by_view (fmap (od_alter (with_status_value Pending (Some (WStr p))) n))
               (set_evals (od_alter (with_status_value Pending (Some (WStr p))) n)
                  (log (EvSend r)
                     (log (EvRegister n)
                        (set_evals (od_set n e1) (set_next_id (n + 1) sa)))))).
  assert (Hrun1 : eval_code src nspace s = Ok tt s1).
  { unfold eval_code. rewrite (bind_Ok _ _ _ _ _ Hrun).
    unfold new_StatusEval, add_eval, send, phase, mutate_eval. mrun.
    rewrite Hn. fold n.
    assert (Hreq : eval_code_request (set_next_id (n + 1) sa) e0 src nspace = r).
    { unfold r, eval_code_request, get_middleware_opts. cbn [profile set_next_id].
      rewrite Hprof. reflexivity. }
    assert (Hreq1 : eval_code_request (set_next_id (n + 1) sa) e1 src nspace = r)
      by exact Hreq.
    fold e0. rewrite Hreq. fold e1. cbn [view e1 with_msg e0]. mrun.
    rewrite Hsa, Hsock. mrun. rewrite Hext, Hphase. mrun. rewrite Hreq1. reflexivity. }
  assert (He2 : od_get n (evals s1) = Some e2).
  { unfold s1. cbn [evals set_by_view set_evals log set_next_id].
    rewrite od_get_alter_eq, od_get_set, Z.eqb_refl. reflexivity. }
  assert (Hok1 : registry_ok s1).
  { pose proof (registry_eval_code src nspace s Hok) as H. rewrite Hrun1 in H. exact H. }
  assert (Hn10 : 10 <= n) by (destruct Hok as (H & _); exact H).
  set (m := done_reply (WInt n)).
  assert (Hhs : handshake_id (m !! "id") = false).
  { unfold m, done_reply, handshake_id. cbn [eq_int].
    change (({[ "id" := WInt n; "status" := WList [WStr "done"] ]} : msg) !! "id")
      with (Some (WInt n)). cbn [eq_int].
    destruct (Z.eqb_spec n 1); [lia|]. destruct (Z.eqb_spec n 2); [lia|].
    destruct (Z.eqb_spec n 3); [lia|]. destruct (Z.eqb_spec n 4); [lia|]. reflexivity. }
  assert (Hack : plain_done_ack m = true).
  { unfold plain_done_ack. rewrite Hhs. reflexivity. }
  assert (Hdone : handle_msg m s1
                  = match erase_eval e2 s1 with
                    | Ok _ s' => Ok tt s'
                    | Raise x s' => Raise x s'
                    end)
    by (apply (route_plain_done s1 m e2 Hack); [reflexivity|exact He2|reflexivity]).
  assert (Hst : od_get (id e2) (evals s1) = Some e2) by exact He2.
  pose proof (erase_eval_stored s1 e2 Hok1 Hst) as Herase.
  change (wants_interrupt e2) with false in Herase. cbn [ret] in Herase.
  exists s1, (removed e2 s1), e2.
  split; [exact Hrun1|]. split; [exact He2|].
  split; [reflexivity|]. split; [reflexivity|]. split; [reflexivity|].
  split; [rewrite Hdone, Herase; reflexivity|].
  destruct (removed_fields e2 s1) as (Hev & _ & _ & Hevents).
  split.
  - rewrite Hev. unfold s1. cbn [evals set_by_view set_evals log set_next_id].
    change (id e2) with n. rewrite od_del_alter, od_del_set_absent by exact Hfresh.
    exact Hfilter.
  - unfold sent. rewrite Hevents. unfold s1. cbn [events set_by_view set_evals log set_next_id].
    rewrite !sent_of_app. cbn [sent_of]. rewrite !app_nil_r. fold (sent sa).
    rewrite Hsenta. reflexivity.
Qed.

Lemma eval_code_then_done_witness :
  exists s1 s2 e,
    eval_code "(+ 1 2)" None live_state = Ok tt s1
    /\ od_get (next_id live_state) (evals s1) = Some e
    /\ id e = next_id live_state /\ status e = Pending /\ value e = Some (WStr ".")
    /\ handle_msg (done_reply (WInt (next_id live_state))) s1 = Ok tt s2
    /\ evals s2 = List.filter (fun kv => negb (finished_status_eval (snd kv)))
                    (evals live_state)
    /\ sent s2 =
       (sent live_state
          ++ [eval_code_request live_state
                (mkEval (next_id live_state) true None Pending "(+ 1 2)"
                   None None None None None)
                "(+ 1 2)" None])%list.
Proof.
  apply (eval_code_then_done live_state "(+ 1 2)" None ".").
  - exact registry_ok_live_state.
  - reflexivity.
  - reflexivity.
Defined.
